(** * PrepAIr interview engine: question selection, turn state machine, readiness

    A shallow embedding of three parts of the repository and the properties
    its specification states about them:

    - [Selector]  : [interview_backend/question_selector.py]
    - [Readiness] : [backend/services/readiness.py]
    - [Agent]     : [backend/services/interview_agent.py]

    and, beyond what the specification states, of the rest of the selector
    file and of sessions as sequences of calls:

    - [Plan]         : [build_interview_plan] and [check_plan_diversity]
    - [AgentSession] : [process_turn] called once per request

    Numbers.  The selector only compares and sorts its scores, so they are kept
    as exact rationals ([Q]): a Python [int / int] is the correctly rounded
    value of the quotient kept here.  The readiness aggregator is modelled on
    binary64 floats ([PrimFloat]), the arithmetic Python runs. *)

From Stdlib Require Import ZArith QArith Floats Lia Lqa.
From stdpp Require Import gmap strings list fin_maps fin_sets pretty sorting.

#[local] Set Warnings "-clear-no-such-hyp,-inexact-float".

(** ** Python values shared by the three modules *)

(** Exceptions the modelled code can raise. [OutOfFuel] is not a Python
    exception: it marks a loop model that ran out of fuel, and is proved
    unreachable for the fuel the top-level functions pass. *)
Inductive exn : Type :=
| ValueError
| IndexError
| OutOfFuel.

Inductive result (A : Type) : Type :=
| Ok (a : A)
| Raise (e : exn).
Arguments Ok {A} a.
Arguments Raise {A} e.

(** [result] is the error monad; [x ← r; k] is stdpp's notation for bind. *)
#[export] Instance result_bind : MBind result := fun A B k r =>
  match r with
  | Ok a => k a
  | Raise e => Raise e
  end.

(** [str.lower] on ASCII letters, and the substring test [needle in hay].
    Strings are byte strings. *)

Definition ascii_lower (c : Ascii.ascii) : Ascii.ascii :=
  let n := Ascii.nat_of_ascii c in
  if decide (65 ≤ n ∧ n ≤ 90)%nat then Ascii.ascii_of_nat (n + 32) else c.

Fixpoint lower (s : string) : string :=
  match s with
  | EmptyString => EmptyString
  | String c s' => String (ascii_lower c) (lower s')
  end.

Fixpoint contains (needle hay : string) : bool :=
  String.prefix needle hay ||
  match hay with
  | EmptyString => false
  | String _ hay' => contains needle hay'
  end.

(** Stable sorts: [list.sort(key=...)] and SQL [ORDER BY], with rows of equal
    keys kept in their order.  [later x y] says that [x] goes after [y];
    a new element is inserted after every element it goes after. *)

Section Sort.
Context {A : Type} (later : A -> A -> bool).

Fixpoint insert_sorted (x : A) (l : list A) : list A :=
  match l with
  | [] => [x]
  | y :: l' => if later x y then y :: insert_sorted x l' else x :: y :: l'
  end.

Definition stable_sort (l : list A) : list A := foldr insert_sorted [] l.

End Sort.

(** Descending and ascending order on an integer key. *)
Definition sort_desc_by {A : Type} (key : A -> Z) : list A -> list A :=
  stable_sort (fun x y => (key x <? key y)%Z).

Definition sort_asc_by {A : Type} (key : A -> Z) : list A -> list A :=
  stable_sort (fun x y => (key y <? key x)%Z).

(** * The question selector: [interview_backend/question_selector.py] *)

Module Selector.

(** *** Records of [models.py] the selector reads

    JSON columns hold their decoded value: [qb_topics] is
    [json.loads(q.topics or "[]")], a list of topic names. *)

Inductive QuestionType : Type := OPEN | CODE.

#[export] Instance QuestionType_eq_dec : EqDecision QuestionType.
Proof. solve_decision. Defined.

Record QuestionBank : Type := mkQuestion {
  qb_id : Z;
  qb_question_type : QuestionType;
  qb_topics : list string;
  qb_difficulty : option string
}.

#[export] Instance QuestionBank_eq_dec : EqDecision QuestionBank.
Proof. solve_decision. Defined.

#[export] Instance Q_eq_dec : EqDecision Q.
Proof. solve_decision. Defined.

#[export] Instance Qlt_decision (a b : Q) : Decision (a < b)%Q.
Proof. unfold Qlt. apply _. Defined.

Record JobSpec : Type := mkJobSpec {
  js_id : Z;
  js_jd_hash : string
}.

Record InterviewSession : Type := mkSession {
  is_id : Z;
  is_user_id : Z;
  is_job_spec_id : Z;
  is_started_at : Z
}.

Record InterviewTurn : Type := mkTurn {
  it_session_id : Z;
  it_question_id : option Z
}.

(** The tables behind the SQL session, rows in storage order. *)
Record Store : Type := mkStore {
  question_bank : list QuestionBank;
  job_specs : list JobSpec;
  interview_sessions : list InterviewSession;
  interview_turns : list InterviewTurn
}.

Definition MAX_RECENT_SESSIONS : nat := 3.

(** *** [compute_jaccard_similarity] *)

Section Jaccard.
Context `{Countable K}.

Definition compute_jaccard_similarity (set1 set2 : gset K) : Q :=
  let intersection := size (set1 ∩ set2) in
  let union := size (set1 ∪ set2) in
  if decide (0 < union)%nat
  then inject_Z (Z.of_nat intersection) / inject_Z (Z.of_nat union)
  else 0%Q.

End Jaccard.

(** *** [compute_match_score]

    [topic_weights] is a dict; its items are kept in insertion order, which
    the partial-match loop depends on. *)

Definition dict_get (d : list (string * Q)) (k : string) : option Q :=
  snd <$> List.find (fun kv => bool_decide (kv.1 = k)) d.

Definition partial_match (topic_lower : string) (topic_weights : list (string * Q))
  : option Q :=
  snd <$> List.find
    (fun kv => contains topic_lower kv.1 || contains kv.1 topic_lower) topic_weights.

Definition add_topic (topic_weights : list (string * Q)) (score : Q) (topic : string) : Q :=
  let topic_lower := lower topic in
  match dict_get topic_weights topic_lower with
  | Some w => (score + w)%Q
  | None =>
    match partial_match topic_lower topic_weights with
    | Some weight => (score + weight * (1 # 2))%Q
    | None => score
    end
  end.

Definition compute_match_score (question : QuestionBank)
  (topic_weights : list (string * Q)) : Q :=
  let question_topics := qb_topics question in
  match question_topics with
  | [] => 1 # 2
  | _ =>
    let score := fold_left (add_topic topic_weights) question_topics 0%Q in
    (score / inject_Z (Z.max 1 (Z.of_nat (length question_topics))))%Q
  end.

Definition Qltb (a b : Q) : bool := if Qlt_le_dec a b then true else false.

(** *** [get_recent_question_ids] *)

Definition session_matches (db : Store) (user_id : Z) (jd_hash : string)
  (s : InterviewSession) : bool :=
  bool_decide (is_user_id s = user_id) &&
  existsb (fun js => bool_decide (js_id js = is_job_spec_id s) &&
                     bool_decide (js_jd_hash js = jd_hash)) (job_specs db).

Definition recent_sessions (db : Store) (user_id : Z) (jd_hash : string)
  (limit : nat) : list Z :=
  is_id <$> take limit
    (sort_desc_by is_started_at
       (List.filter (session_matches db user_id jd_hash) (interview_sessions db))).

Definition get_recent_question_ids (db : Store) (user_id : Z) (jd_hash : string)
  (limit : nat) : gset Z :=
  let recent := recent_sessions db user_id jd_hash limit in
  match recent with
  | [] => ∅
  | _ =>
    let question_ids :=
      List.filter (fun t => bool_decide (it_session_id t ∈ recent)) (interview_turns db) in
    list_to_set (omap it_question_id question_ids)
  end.

(** *** [random.choices(population, weights, k=1)[0]]

    The standard library's algorithm: cumulative weights, a [ValueError] when
    their total is not positive, then [bisect] of [random() * total] with
    [hi = n - 1].  [r] is the value [random()] returned, in [[0, 1)]. *)

Fixpoint accumulate_from (acc : Q) (ws : list Q) : list Q :=
  match ws with
  | [] => []
  | w :: ws' => (acc + w)%Q :: accumulate_from (acc + w)%Q ws'
  end.

Definition accumulate (ws : list Q) : list Q :=
  match ws with
  | [] => []
  | w :: ws' => w :: accumulate_from w ws'
  end.

Fixpoint bisect_right (fuel : nat) (a : list Q) (x : Q) (lo hi : nat) : nat :=
  match fuel with
  | O => lo
  | S fuel' =>
    if decide (lo < hi)%nat then
      let mid := ((lo + hi) / 2)%nat in
      match a !! mid with
      | Some a_mid =>
        if Qlt_le_dec x a_mid
        then bisect_right fuel' a x lo mid
        else bisect_right fuel' a x (mid + 1)%nat hi
      | None => lo
      end
    else lo
  end.

Definition choices {A : Type} (population : list A) (weights : list Q) (r : Q)
  : result A :=
  let n := length population in
  let cum_weights := accumulate weights in
  if decide (length cum_weights = n) then
    match last cum_weights with
    | None => Raise IndexError
    | Some total =>
      if Qlt_le_dec 0 total then
        match population !! bisect_right n cum_weights (r * total)%Q 0 (n - 1) with
        | Some x => Ok x
        | None => Raise IndexError
        end
      else Raise ValueError
    end
  else Raise ValueError.

(** *** [select_questions] *)

Definition topic_set (q : QuestionBank) : gset string := list_to_set (qb_topics q).

(** The float literal [0.8]: the binary64 value nearest to 4/5. *)
Definition overlap_threshold : Q := 3602879701896397 # 4503599627370496.

(** [top_candidates.remove(chosen)]: drops the first equal element, and
    raises [ValueError] when there is none. *)
Fixpoint py_remove {A : Type} `{EqDecision A} (x : A) (l : list A) : result (list A) :=
  match l with
  | [] => Raise ValueError
  | y :: l' =>
    if decide (y = x) then Ok l'
    else match py_remove x l' with
         | Ok l'' => Ok (y :: l'')
         | Raise e => Raise e
         end
  end.

(** [[sq for sq in top_candidates if sq[0].id not in used_ids]] *)
Definition remaining_of (used_ids : gset Z) (top_candidates : list (QuestionBank * Q))
  : list (QuestionBank * Q) :=
  List.filter (fun sq => bool_decide (qb_id sq.1 ∉ used_ids)) top_candidates.

(** The union of the topics of the first [i] selected questions; the loop
    computes it for [selected[:-1]]. *)
Definition prior_topics (selected : list QuestionBank) (i : nat) : gset string :=
  ⋃ (topic_set <$> take i selected).

(** One pass of the [while] loop per unit of fuel.  [draw] counts the calls to
    [random()] made so far; [rng draw] is what the next one returns. *)
Fixpoint select_loop (rng : nat -> Q) (num_questions : nat) (fuel draw : nat)
  (selected : list QuestionBank) (used_ids : gset Z)
  (top_candidates : list (QuestionBank * Q)) : result (list QuestionBank) :=
  match fuel with
  | O => Raise OutOfFuel
  | S fuel' =>
    if decide ((length selected < num_questions)%nat ∧ top_candidates ≠ []) then
      let remaining := remaining_of used_ids top_candidates in
      match remaining with
      | [] => Ok selected
      | _ =>
        let weights := (fun sq : QuestionBank * Q => (sq.2 ^ 2)%Q) <$> remaining in
        chosen ← choices remaining weights (rng draw);
        let selected1 := selected ++ [chosen.1] in
        let used_ids1 := used_ids ∪ {[qb_id chosen.1]} in
        if decide (1 < length selected1)%nat then
          let selected_topics := prior_topics selected1 (length selected1 - 1) in
          let new_topics := topic_set chosen.1 in
          let overlap := compute_jaccard_similarity selected_topics new_topics in
          if decide ((overlap_threshold < overlap)%Q ∧ (1 < length remaining)%nat) then
            top_candidates1 ← py_remove chosen top_candidates;
            select_loop rng num_questions fuel' (S draw)
              (take (length selected1 - 1) selected1)
              (used_ids1 ∖ {[qb_id chosen.1]}) top_candidates1
          else
            select_loop rng num_questions fuel' (S draw) selected1 used_ids1 top_candidates
        else
          select_loop rng num_questions fuel' (S draw) selected1 used_ids1 top_candidates
      end
    else Ok selected
  end.

Definition query_candidates (db : Store) (question_type : QuestionType)
  (difficulty_filter : option string) : list QuestionBank :=
  let by_type :=
    List.filter (fun q => bool_decide (qb_question_type q = question_type))
      (question_bank db) in
  match difficulty_filter with
  | Some d =>
    if decide (d = EmptyString) then by_type
    else List.filter (fun q => bool_decide (qb_difficulty q = Some d)) by_type
  | None => by_type
  end.

Definition excluded_ids (db : Store) (user_id : Z) (jd_hash : string)
  (exclude_question_ids : option (gset Z)) : gset Z :=
  let recent_ids := get_recent_question_ids db user_id jd_hash MAX_RECENT_SESSIONS in
  match exclude_question_ids with
  | Some ex => if decide (ex = ∅) then recent_ids else recent_ids ∪ ex
  | None => recent_ids
  end.

Definition filter_candidates (candidates : list QuestionBank) (recent_ids : gset Z)
  : list QuestionBank :=
  let filtered_candidates :=
    List.filter (fun q => bool_decide (qb_id q ∉ recent_ids)) candidates in
  match filtered_candidates with
  | [] => candidates
  | _ => filtered_candidates
  end.

Definition top_pool (topic_weights : list (string * Q)) (num_questions : nat)
  (filtered_candidates : list QuestionBank) : list (QuestionBank * Q) :=
  let scored_questions :=
    stable_sort (fun a b : QuestionBank * Q => Qltb a.2 b.2)
      ((fun q => (q, compute_match_score q topic_weights)) <$> filtered_candidates) in
  let top_k := Nat.min (num_questions * 3) (length scored_questions) in
  take top_k scored_questions.

Definition select_questions (db : Store) (rng : nat -> Q)
  (topic_weights : list (string * Q)) (question_type : QuestionType)
  (num_questions : nat) (user_id : Z) (jd_hash : string)
  (exclude_question_ids : option (gset Z)) (difficulty_filter : option string)
  : result (list QuestionBank) :=
  let candidates := query_candidates db question_type difficulty_filter in
  match candidates with
  | [] => Ok []
  | _ =>
    let recent_ids := excluded_ids db user_id jd_hash exclude_question_ids in
    let filtered_candidates := filter_candidates candidates recent_ids in
    let top_candidates := top_pool topic_weights num_questions filtered_candidates in
    selected ← select_loop rng num_questions
                 (num_questions + length top_candidates + 1) 0 [] ∅ top_candidates;
    Ok (take num_questions selected)
  end.

(** *** Predicates the results are stated with *)

(** A pool candidate was discarded when its topics overlapped, beyond the
    threshold, the topics of some non-empty prefix of the selection. *)
Definition discarded (selected : list QuestionBank) (sq : QuestionBank * Q) : Prop :=
  ∃ i, (0 < i ≤ length selected)%nat ∧
       (overlap_threshold < compute_jaccard_similarity
                              (prior_topics selected i) (topic_set sq.1))%Q.

(** What every pass of [select_loop] keeps true of its state, for the pool
    [pool] the loop started from. *)
Record loop_inv (num : nat) (pool : list (QuestionBank * Q))
  (selected : list QuestionBank) (used : gset Z) (top : list (QuestionBank * Q))
  : Prop := mk_loop_inv {
  inv_used : used = list_to_set (qb_id <$> selected);
  inv_nodup : NoDup (qb_id <$> selected);
  inv_len : (length selected ≤ num)%nat;
  inv_from_pool : ∀ q, q ∈ selected → q ∈ (fst <$> pool);
  inv_top : ∀ sq, sq ∈ top → sq ∈ pool;
  inv_discarded : ∀ sq, sq ∈ pool → sq ∈ top ∨ discarded selected sq;
  inv_diverse : ∀ i q, (0 < i)%nat → selected !! i = Some q →
    (overlap_threshold < compute_jaccard_similarity
                           (prior_topics selected i) (topic_set q))%Q →
    S i = length selected ∧ remaining_of used top = []
}.

End Selector.

(** Sample data for the selector: five open questions on four topics. *)
Module SelectorExamples.
Import Selector.

Definition q1 : QuestionBank := mkQuestion 1 OPEN ["a"] None.
Definition q2 : QuestionBank := mkQuestion 2 OPEN ["b"] None.
Definition q3 : QuestionBank := mkQuestion 3 OPEN ["a"] None.
Definition q4 : QuestionBank := mkQuestion 4 OPEN ["c"] None.
Definition q5 : QuestionBank := mkQuestion 5 OPEN ["d"] None.

Definition bank : Store := mkStore [q1; q2; q3; q4; q5] [] [] [].

Definition weights : list (string * Q) :=
  [("a", 1%Q); ("b", 1%Q); ("c", 1%Q); ("d", 1%Q)].

(** A generator whose every [random()] is [0.1]: among at most five
    candidates of weight 1, each draw takes the first remaining one. *)
Definition rng_low : nat -> Q := fun _ => 1 # 10.

Definition pool : list (QuestionBank * Q) :=
  top_pool weights 3
    (filter_candidates (query_candidates bank OPEN None)
       (excluded_ids bank 7 "jd" None)).

End SelectorExamples.

(** * The readiness aggregator: [backend/services/readiness.py]

    Scores are binary64 floats; a decimal literal stands for the nearest
    float, as in Python. *)

Module Readiness.

(** [float(n)] for a length [n]; exact below 2^53. *)
Definition float_of_nat (n : nat) : float :=
  PrimFloat.of_uint63 (Uint63.of_Z (Z.of_nat n)).

(** Python's [min(a, b)] and [max(a, b)]: the first argument unless the
    second is strictly smaller (larger). *)
Definition py_min (a b : float) : float := if (b <? a)%float then b else a.
Definition py_max (a b : float) : float := if (a <? b)%float then b else a.

(** [sum(xs)] of floats, added left to right from [0] (the plain loop;
    CPython 3.12 and later compensate the rounding of float sums). *)
Definition py_sum (xs : list float) : float := fold_left PrimFloat.add xs 0%float.

(** Rows of the tables read.  JSON columns hold their decoded value:
    [cv_strengths] is [json.loads(strengths_json or "[]")], [it_overall] is
    [json.loads(score_json or "{}").get("overall")].  Times are microseconds. *)

Record CVAnalysisResult : Type := mkAnalysis {
  cv_user_id : string;
  cv_job_spec_id : string;
  cv_created_at : Z;
  cv_match_score : float;
  cv_strengths : list string;
  cv_gaps : list string
}.

Record InterviewSession : Type := mkSession {
  is_id : string;
  is_user_id : string;
  is_job_spec_id : string;
  is_created_at : Z
}.

Record InterviewTurn : Type := mkTurn {
  it_session_id : string;
  it_turn_index : Z;
  it_question_id : string;
  it_overall : option float
}.

Record Weights : Type := mkWeights {
  w_cv : float;
  w_interview : float;
  w_practice : float
}.

Record Breakdown : Type := mkBreakdown {
  bd_cv_score : float;
  bd_interview_score : float;
  bd_practice_score : float;
  bd_weights : Weights
}.

Record UserReadinessSnapshot : Type := mkSnapshot {
  snap_user_id : string;
  snap_job_spec_id : option string;
  snap_timestamp : Z;
  readiness_score : float;
  cv_score : float;
  interview_score : float;
  practice_score : float;
  breakdown : Breakdown
}.

Record Store : Type := mkStore {
  cv_analysis_results : list CVAnalysisResult;
  interview_sessions : list InterviewSession;
  interview_turns : list InterviewTurn;
  user_readiness_snapshots : list UserReadinessSnapshot
}.

(** [if job_spec_id:] holds for a non-empty string. *)
Definition truthy_id (job_spec_id : option string) : option string :=
  match job_spec_id with
  | Some EmptyString => None
  | other => other
  end.

(** [.order_by(created_at.desc()).limit(1)).first()]; among rows of equal
    [created_at], which SQL leaves open, the first in storage order. *)
Definition latest_analysis (db : Store) (user_id job_spec_id : string)
  : option CVAnalysisResult :=
  head (sort_desc_by cv_created_at
          (List.filter (fun a => bool_decide (cv_user_id a = user_id) &&
                                 bool_decide (cv_job_spec_id a = job_spec_id))
             (cv_analysis_results db))).

Definition coverage_bonus (strengths gaps : list string) : float :=
  py_min 10 (float_of_nat (length strengths) * 2 - float_of_nat (length gaps) * 1).

Definition _compute_cv_score (db : Store) (user_id : string)
  (job_spec_id : option string) : float :=
  match truthy_id job_spec_id with
  | None => 0
  | Some job =>
    match latest_analysis db user_id job with
    | None => 0
    | Some latest =>
      let base_score := (cv_match_score latest * 100)%float in
      py_max 0 (py_min 100
                  (base_score + coverage_bonus (cv_strengths latest) (cv_gaps latest)))
    end
  end.

Definition user_sessions (db : Store) (user_id : string)
  (job_spec_id : option string) : list InterviewSession :=
  let of_user :=
    List.filter (fun s => bool_decide (is_user_id s = user_id)) (interview_sessions db) in
  match truthy_id job_spec_id with
  | Some job => List.filter (fun s => bool_decide (is_job_spec_id s = job)) of_user
  | None => of_user
  end.

Definition turn_weight (turn : InterviewTurn) : float :=
  if String.prefix "code:" (it_question_id turn) then 0.6%float else 0.4%float.

Definition turn_overall (turn : InterviewTurn) : float :=
  match it_overall turn with
  | Some overall => overall
  | None => 0.5%float
  end.

Definition _compute_interview_score (db : Store) (user_id : string)
  (job_spec_id : option string) : float :=
  match head (sort_desc_by is_created_at (user_sessions db user_id job_spec_id)) with
  | None => 0
  | Some latest_session =>
    let turns :=
      sort_asc_by it_turn_index
        (List.filter (fun t => bool_decide (it_session_id t = is_id latest_session))
           (interview_turns db)) in
    match turns with
    | [] => 0
    | _ =>
      let scores := turn_overall <$> turns in
      let weights := turn_weight <$> turns in
      let total_weight := py_sum weights in
      let avg_score :=
        if (total_weight =? 0)%float
        then (py_sum scores / float_of_nat (length scores))%float
        else (py_sum ((fun t => turn_overall t * turn_weight t)%float <$> turns)
              / total_weight)%float in
      (avg_score * 100)%float
    end
  end.

Definition seven_days : Z := 7 * 24 * 3600 * 1000000.

Definition _compute_practice_score (db : Store) (now : Z) (user_id : string)
  (job_spec_id : option string) : float :=
  let all_sessions := user_sessions db user_id job_spec_id in
  let session_count := length all_sessions in
  if decide (session_count = 0)%nat then 0%float
  else
    let recent_cutoff := (now - seven_days)%Z in
    let recent_count :=
      length (List.filter (fun s => (recent_cutoff <=? is_created_at s)%Z) all_sessions) in
    let trend_bonus := if decide (2 ≤ session_count)%nat then 5%float else 0%float in
    let count_score := py_min 50 (float_of_nat session_count * 5) in
    let recency_bonus := py_min 30 (float_of_nat recent_count * 10) in
    py_min 100 (count_score + recency_bonus + trend_bonus).

(** [now] is what [datetime.utcnow()] returns during the call.  The result
    is the store with the new snapshot appended, and the snapshot. *)
Definition compute_readiness_snapshot (db : Store) (now : Z) (user_id : string)
  (job_spec_id : option string) : Store * UserReadinessSnapshot :=
  let cv := _compute_cv_score db user_id job_spec_id in
  let interview := _compute_interview_score db user_id job_spec_id in
  let practice := _compute_practice_score db now user_id job_spec_id in
  let overall := (cv * 0.4 + interview * 0.5 + practice * 0.1)%float in
  let snapshot :=
    mkSnapshot user_id job_spec_id now overall cv interview practice
      (mkBreakdown cv interview practice (mkWeights 0.4 0.5 0.1)) in
  (mkStore (cv_analysis_results db) (interview_sessions db) (interview_turns db)
     (user_readiness_snapshots db ++ [snapshot]),
   snapshot).

(** The score as the specification words it: the bonus clamped to [[0, 10]],
    the sum clamped to [[0, 100]]. *)
Definition cv_score_claimed (match_score : float) (strengths gaps : nat) : float :=
  let bonus :=
    py_max 0 (py_min 10 (float_of_nat strengths * 2 - float_of_nat gaps * 1)) in
  py_max 0 (py_min 100 (match_score * 100 + bonus)).

End Readiness.

(** Sample data for the aggregator. *)
Module ReadinessExamples.
Import Readiness.

Definition day : Z := 24 * 3600 * 1000000.

(** One analysis with no strength and three gaps. *)
Definition gaps_only : Store :=
  mkStore [mkAnalysis "u" "job" 0 0.5 [] ["g1"; "g2"; "g3"]] [] [] [].

(** A match of 0.8, three sessions older than a week, and one open answer
    scored 0.6 in the latest of them. *)
Definition steady : Store :=
  mkStore
    [mkAnalysis "u" "job" 0 0.8 [] []]
    [mkSession "s1" "u" "job" 0; mkSession "s2" "u" "job" day;
     mkSession "s3" "u" "job" (2 * day)]
    [mkTurn "s3" 0 "open:1" (Some 0.6%float)]
    [].

Definition steady_now : Z := 30 * day.

End ReadinessExamples.

(** * The turn state machine: [backend/services/interview_agent.py] *)

Module Agent.

(** ** Data *)

(** A [QuestionBank] row; [qb_topics] is [json.loads(topics_json or "[]")]. *)
Record QuestionBank : Type := mkQuestion {
  qb_id : string;
  question_text : string;
  qb_topics : list string
}.

(** A plan item, a dict read through [.get("selected_question_id")] and
    [.get("type", "open")]. *)
Record PlanItem : Type := mkPlanItem {
  selected_question_id : option string;
  item_type : option string
}.

Definition empty_item : PlanItem := mkPlanItem None None.

(** The [state] dict of [process_turn]: the five keys [_load_state] sets, and
    the keys ["refined_q_<index>"] added to it, kept in [refined]. *)
Record ConversationState : Type := mkState {
  current_question_id : option string;
  followup_count : Z;
  question_index : Z;
  initial_answer_score : float;
  previous_followups : list string;
  refined : gmap string string
}.

(** The object stored in [conversation_state_json]: any of the five keys may
    be absent; [js_refined] holds its ["refined_q_<index>"] keys. *)
Record StateJson : Type := mkStateJson {
  js_current_question_id : option string;
  js_followup_count : option Z;
  js_question_index : option Z;
  js_initial_answer_score : option float;
  js_previous_followups : option (list string);
  js_refined : gmap string string
}.

Definition empty_json : StateJson := mkStateJson None None None None None ∅.

Record InterviewSession : Type := mkSession {
  conversation_state_json : option StateJson;
  ended_at : option Z;
  language : option string;
  persona : string;
  question_start_time : option Z
}.

Record InterviewNextRequest : Type := mkRequest {
  session_id : string;
  user_transcript : string;
  user_code : option string;
  elapsed_seconds : option Z
}.

(** [AgentDecision], as [interview_agent.py] builds and reads it. *)
Record AgentDecision : Type := mkDecision {
  action : string;
  message : option string;
  followup_question : option string;
  satisfaction_score : float;
  reasoning_trace : list string
}.

Record InterviewTurn : Type := mkTurn {
  turn_id : string;
  turn_session_id : string;
  turn_index : Z;
  turn_question_id : string;
  question_snapshot : string;
  turn_user_transcript : string;
  turn_user_code : option string;
  score_overall : float;
  turn_topics : list string;
  parent_turn_id : option string;
  question_number : Z;
  is_followup : bool;
  time_spent_seconds : Z;
  agent_analysis : AgentDecision
}.

Record NextQuestion : Type := mkNextQuestion {
  nq_question_id : string;
  nq_text : string;
  nq_type : string;
  nq_topics : list string
}.

Record Response : Type := mkResponse {
  interviewer_message : string;
  resp_followup_question : option string;
  next_question : option NextQuestion;
  is_done : bool;
  progress_turn_index : Z;
  progress_total : Z;
  agent_decision : option string;
  agent_confidence : option float
}.

(** What a call reads and writes: the question table, the turn table, the
    session row, and how many times each outside capability was called.
    [session.get(QuestionBank, id)] is a lookup in [question_bank]; [None]
    and an unknown id find nothing. *)
Record World : Type := mkWorld {
  question_bank : gmap string QuestionBank;
  interview_turns : list InterviewTurn;
  interview_session : InterviewSession;
  llm_calls : nat;
  reasoning_calls : nat;
  uuid_calls : nat
}.

(** The two prompts of [_refine_and_translate], by the values formatted
    into them. *)
Inductive Prompt : Type :=
| HebrewPrompt (text type : string)
| EnglishPrompt (text type : string).

Inductive LlmOutcome : Type :=
| LlmRaises
| LlmReturns (text : option string).

(** ** Python helpers *)

(** Truth value of an optional string: [None] and [""] are false. *)
Definition truthy (o : option string) : bool :=
  match o with
  | Some EmptyString => false
  | Some _ => true
  | None => false
  end.

Definition is_space (c : Ascii.ascii) : bool :=
  let n := Ascii.nat_of_ascii c in
  bool_decide ((9 ≤ n ∧ n ≤ 13) ∨ (28 ≤ n ∧ n ≤ 32))%nat.

Fixpoint lstrip (s : string) : string :=
  match s with
  | String c s' => if is_space c then lstrip s' else s
  | EmptyString => EmptyString
  end.

Fixpoint rstrip (s : string) : string :=
  match s with
  | String c s' =>
    match rstrip s' with
    | EmptyString => if is_space c then EmptyString else String c EmptyString
    | rest => String c rest
    end
  | EmptyString => EmptyString
  end.

(** [str.strip()] on ASCII whitespace. *)
Definition strip (s : string) : string := rstrip (lstrip s).

(** [l[i]] with Python's negative indices. *)
Definition py_index {A : Type} (l : list A) (i : Z) : result A :=
  let n := Z.of_nat (length l) in
  let j := if (i <? 0)%Z then (i + n)%Z else i in
  if (j <? 0)%Z then Raise IndexError
  else match l !! Z.to_nat j with
       | Some x => Ok x
       | None => Raise IndexError
       end.

(** ** State load and save *)

Definition _load_state (interview_session : InterviewSession) : ConversationState :=
  let state := default empty_json (conversation_state_json interview_session) in
  mkState (js_current_question_id state)
          (default 0%Z (js_followup_count state))
          (default 0%Z (js_question_index state))
          (default 0%float (js_initial_answer_score state))
          (default [] (js_previous_followups state))
          ∅.

Definition dump (state : ConversationState) : StateJson :=
  mkStateJson (current_question_id state)
              (Some (followup_count state))
              (Some (question_index state))
              (Some (initial_answer_score state))
              (Some (previous_followups state))
              (refined state).

Definition with_session (w : World) (s : InterviewSession) : World :=
  mkWorld (question_bank w) (interview_turns w) s
          (llm_calls w) (reasoning_calls w) (uuid_calls w).

Definition with_llm_calls (w : World) (n : nat) : World :=
  mkWorld (question_bank w) (interview_turns w) (interview_session w)
          n (reasoning_calls w) (uuid_calls w).

Definition _save_state (state : ConversationState) (w : World) : World :=
  let s := interview_session w in
  with_session w
    (mkSession (Some (dump state)) (ended_at s) (language s) (persona s)
       (question_start_time s)).

Definition set_ended_at (now : Z) (w : World) : World :=
  let s := interview_session w in
  with_session w
    (mkSession (conversation_state_json s) (Some now) (language s) (persona s)
       (question_start_time s)).

Definition set_question_start_time (now : Z) (w : World) : World :=
  let s := interview_session w in
  with_session w
    (mkSession (conversation_state_json s) (ended_at s) (language s) (persona s)
       (Some now)).

Definition refined_key (index : Z) : string := "refined_q_" +:+ pretty index.

Definition set_refined (key text : string) (state : ConversationState)
  : ConversationState :=
  mkState (current_question_id state) (followup_count state) (question_index state)
          (initial_answer_score state) (previous_followups state)
          (<[key := text]> (refined state)).

Definition set_text (text : string) (question : QuestionBank) : QuestionBank :=
  mkQuestion (qb_id question) text (qb_topics question).

Definition session_language (s : InterviewSession) : string :=
  if truthy (language s) then default "english" (language s) else "english".

Definition _get_last_main_turn (session_id : string) (w : World) : option InterviewTurn :=
  head (sort_desc_by turn_index
          (List.filter (fun t => bool_decide (turn_session_id t = session_id) &&
                                 negb (is_followup t))
             (interview_turns w))).

Definition _error_response (question_index total : Z) : Response :=
  mkResponse "Sorry, I hit an error loading the question." None None true
             question_index total None None.

(** The decision taken when the reasoning loop raises. *)
Definition fallback_decision : AgentDecision :=
  mkDecision "advance" (Some "Let's continue with the next question.") None 0.5 [].

(** ** The agent

    The capabilities outside [interview_agent.py] are parameters: the LLM
    client, the context builder, the reasoning loop ([None] when it raises)
    and the uuid source.  The number of earlier calls is an argument of each
    capability, so that two calls may answer differently. *)

Section Agent.
Variable RoleProfile : Type.
Variable AgentContext : Type.
Variable call_llm : nat -> Prompt -> LlmOutcome.
Variable build_context_from_request :
  string -> QuestionBank -> InterviewNextRequest -> list PlanItem -> RoleProfile ->
  ConversationState -> string -> string -> AgentContext.
Variable reasoning_loop_run : nat -> AgentContext -> option AgentDecision.
Variable uuid4 : nat -> string.

(** The English branch; [calls] is the number of LLM calls made before. *)
Definition refine_english (calls : nat) (text type : string) : string * nat :=
  match call_llm calls (EnglishPrompt text type) with
  | LlmReturns result =>
    if truthy result && truthy (strip <$> result)
    then (strip (default "" result), S calls)
    else (text, S calls)
  | LlmRaises => (text, S calls)
  end.

Definition _refine_and_translate (calls : nat) (text type language : string)
  : string * nat :=
  if truthy (Some language) && bool_decide (lower language = "hebrew") then
    match call_llm calls (HebrewPrompt text type) with
    | LlmReturns result =>
      if truthy result && truthy (strip <$> result)
      then (strip (default "" result), S calls)
      else refine_english (S calls) text type
    | LlmRaises => (text, S calls)
    end
  else refine_english calls text type.

Definition _create_turn (request : InterviewNextRequest) (question : QuestionBank)
  (question_index followup_count : Z) (decision : AgentDecision) (w : World)
  : InterviewTurn :=
  let existing :=
    List.filter (fun t => bool_decide (turn_session_id t = session_id request))
      (interview_turns w) in
  let parent :=
    if decide (0 < followup_count)%Z
    then turn_id <$> _get_last_main_turn (session_id request) w
    else None in
  mkTurn (uuid4 (uuid_calls w)) (session_id request) (Z.of_nat (length existing))
         (qb_id question) (question_text question) (user_transcript request)
         (user_code request) (satisfaction_score decision) (qb_topics question)
         parent question_index (bool_decide (0 < followup_count)%Z)
         (default 0%Z (elapsed_seconds request)) decision.

Definition add_turn (turn : InterviewTurn) (w : World) : World :=
  mkWorld (question_bank w) (interview_turns w ++ [turn]) (interview_session w)
          (llm_calls w) (reasoning_calls w) (S (uuid_calls w)).

Definition _get_next_question_data (next_index : Z) (plan_items : list PlanItem)
  (language : string) (state : ConversationState) (w : World)
  : result (World * ConversationState * option NextQuestion) :=
  if decide (Z.of_nat (length plan_items) ≤ next_index)%Z then Ok (w, state, None)
  else
    next_item ← py_index plan_items next_index;
    match selected_question_id next_item ≫= (fun k => question_bank w !! k) with
    | Some next_question =>
      let key := refined_key next_index in
      let type := default "open" (item_type next_item) in
      match refined state !! key with
      | Some text =>
        Ok (w, state, Some (mkNextQuestion (qb_id next_question) text type
                              (qb_topics next_question)))
      | None =>
        let '(text, calls) :=
          _refine_and_translate (llm_calls w) (question_text next_question) type language in
        let state1 := set_refined key text state in
        Ok (_save_state state1 (with_llm_calls w calls), state1,
            Some (mkNextQuestion (qb_id next_question) text type
                    (qb_topics next_question)))
      end
    | None => Ok (w, state, None)
    end.

Definition _process_decision (now : Z) (decision : AgentDecision)
  (question_id : option string) (question_index followup_count : Z)
  (previous_followups : list string) (plan_items : list PlanItem)
  (state : ConversationState) (language : string) (w : World)
  : result (World * Response) :=
  let total := Z.of_nat (length plan_items) in
  if bool_decide (action decision = "followup") && truthy (followup_question decision)
  then
    let text := default "" (followup_question decision) in
    let state1 :=
      mkState question_id (followup_count + 1)%Z (Agent.question_index state)
              (satisfaction_score decision) (previous_followups ++ [text])
              (refined state) in
    let message := if truthy (message decision)
                   then default "" (message decision) else text in
    Ok (_save_state state1 w,
        mkResponse message (Some text) None false (question_index + 1)%Z total
                   (Some (action decision)) (Some (satisfaction_score decision)))
  else if bool_decide (action decision = "hint") then
    Ok (w,
        mkResponse (if truthy (message decision) then default "" (message decision)
                    else "Let me give you a hint.")
                   None None false (question_index + 1)%Z total
                   (Some (action decision)) None)
  else if bool_decide (action decision = "end") then
    Ok (set_ended_at now w,
        mkResponse (if truthy (message decision) then default "" (message decision)
                    else "Thank you for your time today.")
                   None None true (question_index + 1)%Z total
                   (Some (action decision)) None)
  else
    let state1 :=
      mkState (current_question_id state) 0%Z (question_index + 1)%Z
              (initial_answer_score state) [] (refined state) in
    let w1 := _save_state state1 w in
    '(w2, _, next_question_data) ←
      _get_next_question_data (question_index + 1)%Z plan_items language state1 w1;
    let w3 := set_question_start_time now w2 in
    let hebrew := bool_decide (lower language = "hebrew") in
    let message :=
      if truthy (message decision) then default "" (message decision)
      else match next_question_data with
           | Some _ => if hebrew then "בוא נמשיך לשאלה הבאה."
                       else "Let's move to the next question."
           | None => if hebrew then "מצוין! בוא נמשיך." else "Great! Let's continue."
           end in
    Ok (w3,
        mkResponse message None next_question_data
                   (bool_decide (total ≤ question_index + 1)%Z)
                   (question_index + 1)%Z total
                   (Some (action decision)) (Some (satisfaction_score decision))).

(** [plan_items[question_index] if question_index < len(plan_items) else {}] *)
Definition current_plan_item (plan_items : list PlanItem) (question_index : Z)
  : result PlanItem :=
  if decide (question_index < Z.of_nat (length plan_items))%Z
  then py_index plan_items question_index
  else Ok empty_item.

Definition process_turn (now : Z) (request : InterviewNextRequest)
  (plan_items : list PlanItem) (role_profile : RoleProfile) (w : World)
  : result (World * Response) :=
  let state := _load_state (interview_session w) in
  let followup_count := followup_count state in
  let question_index := question_index state in
  let previous_followups := previous_followups state in
  let total := Z.of_nat (length plan_items) in
  if decide (followup_count = 0 ∧ total ≤ question_index)%Z then
    Ok (set_ended_at now w,
        mkResponse "Thank you! The interview is complete." None None true
                   question_index total None None)
  else
    plan_item ← current_plan_item plan_items question_index;
    let question_id :=
      if decide (0 < followup_count)%Z then current_question_id state
      else selected_question_id plan_item in
    match question_id ≫= (fun k => question_bank w !! k) with
    | None => Ok (w, _error_response question_index total)
    | Some question =>
      let key := refined_key question_index in
      let '(question1, state1, w1) :=
        match refined state !! key with
        | Some text => (set_text text question, state, w)
        | None =>
          let lang := session_language (interview_session w) in
          let '(refined_text, calls) :=
            _refine_and_translate (llm_calls w) (question_text question)
              (default "open" (item_type plan_item)) lang in
          let state1 := set_refined key refined_text state in
          (set_text refined_text question, state1,
           _save_state state1 (with_llm_calls w calls))
        end in
      let persona := persona (interview_session w1) in
      let language := session_language (interview_session w1) in
      let context :=
        build_context_from_request (session_id request) question1 request plan_items
          role_profile state1 persona language in
      let decision :=
        default fallback_decision (reasoning_loop_run (reasoning_calls w1) context) in
      let w2 :=
        mkWorld (question_bank w1) (interview_turns w1) (interview_session w1)
                (llm_calls w1) (S (reasoning_calls w1)) (uuid_calls w1) in
      let turn :=
        _create_turn request question1 question_index followup_count decision w2 in
      let w3 := add_turn turn w2 in
      _process_decision now decision question_id question_index followup_count
        previous_followups plan_items state1 language w3
    end.

(** ** Views the results are stated with *)

(** The interview is over: the test at the start of [process_turn]. *)
Definition complete (plan_items : list PlanItem) (state : ConversationState) : Prop :=
  (followup_count state = 0 ∧ Z.of_nat (length plan_items) ≤ question_index state)%Z.

(** The id and the row of the question a turn is about, when it is found. *)
Definition turn_question (plan_items : list PlanItem) (w : World)
  : option (option string * PlanItem * QuestionBank) :=
  let state := _load_state (interview_session w) in
  match current_plan_item plan_items (question_index state) with
  | Ok plan_item =>
    let question_id :=
      if decide (0 < followup_count state)%Z then current_question_id state
      else selected_question_id plan_item in
    (fun q => (question_id, plan_item, q)) <$>
      (question_id ≫= (fun k => question_bank w !! k))
  | Raise _ => None
  end.

(** The five keys of a state, without its ["refined_q_<index>"] keys: what
    [_load_state] gives back after a save. *)
Definition core (state : ConversationState) : ConversationState :=
  mkState (current_question_id state) (followup_count state) (question_index state)
          (initial_answer_score state) (previous_followups state) ∅.

(** A decision that takes the default branch of [_process_decision]: not a
    hint, not an end, and not a follow-up that carries a question. *)
Definition is_advance (d : AgentDecision) : Prop :=
  (action d = "followup" → truthy (followup_question d) = false)
  ∧ action d ≠ "hint" ∧ action d ≠ "end".

(** The state a session resumes from. *)
Definition resumed (w : World) : ConversationState := _load_state (interview_session w).

End Agent.

End Agent.

(** Sample sessions for the agent: one open question, an LLM that answers
    the [n]-th call with ["v<n>"]. *)
Module AgentExamples.
Import Agent.

Definition one_question : gmap string QuestionBank :=
  {[ "open:1" := mkQuestion "open:1" "Explain hashing." ["hashing"] ]}.

Definition plan : list PlanItem := [mkPlanItem (Some "open:1") (Some "open")].

Definition fresh : World :=
  mkWorld one_question [] (mkSession None None None "friendly" None) 0 0 0.

Definition request : InterviewNextRequest := mkRequest "s" "my answer" None None.

Definition numbered_llm (n : nat) (_ : Prompt) : LlmOutcome :=
  LlmReturns (Some ("v" +:+ pretty n)).

Definition no_context (_ : string) (_ : QuestionBank) (_ : InterviewNextRequest)
  (_ : list PlanItem) (_ : unit) (_ : ConversationState) (_ _ : string) : unit := tt.

Definition ids (n : nat) : string := "turn-" +:+ pretty n.

(** A reasoning loop that always asks a follow-up. *)
Definition asks_followup (_ : nat) (_ : unit) : option AgentDecision :=
  Some (mkDecision "followup" (Some "Good start.") (Some "Why?") 0.3 []).

(** A reasoning loop that decides on a follow-up and gives no question. *)
Definition followup_without_text (_ : nat) (_ : unit) : option AgentDecision :=
  Some (mkDecision "followup" (Some "Hmm.") None 0.3 []).

(** A reasoning loop that always raises. *)
Definition always_fails (_ : nat) (_ : unit) : option AgentDecision := None.

Definition run (loop : nat -> unit -> option AgentDecision) (now : Z) (w : World)
  : result (World * Response) :=
  process_turn unit unit numbered_llm no_context loop ids now request plan tt w.

(** The world after a successful call; the world itself otherwise. *)
Definition after (loop : nat -> unit -> option AgentDecision) (now : Z) (w : World)
  : World :=
  match run loop now w with
  | Ok (w', _) => w'
  | Raise _ => w
  end.

End AgentExamples.

(** * Views the further selector results are stated with *)

Module SelectorViews.
Import Selector.

(** Every topic weight lies in [[0, 1]], as the role profile promises. *)
Definition weights_in_unit (topic_weights : list (string * Q)) : Prop :=
  ∀ kv, kv ∈ topic_weights → (0 <= kv.2 <= 1)%Q.

(** [x] may stand before [y] in a list sorted with [later]. *)
Definition may_precede {A : Type} (later : A -> A -> bool) (x y : A) : Prop :=
  later x y = false.

(** The sessions of a user for a job description, in storage order. *)
Definition matching_sessions (db : Store) (user_id : Z) (jd_hash : string)
  : list InterviewSession :=
  List.filter (session_matches db user_id jd_hash) (interview_sessions db).


Definition nondecreasing (a : list Q) : Prop :=
  ∀ i j u v, (i ≤ j)%nat → a !! i = Some u → a !! j = Some v → (u <= v)%Q.

(** The scored candidates [select_questions] draws from: [top_candidates]
    as the loop finds it. *)
Definition sampling_pool (db : Store) (topic_weights : list (string * Q))
  (question_type : QuestionType) (num_questions : nat) (user_id : Z) (jd_hash : string)
  (exclude_question_ids : option (gset Z)) (difficulty_filter : option string)
  : list (QuestionBank * Q) :=
  top_pool topic_weights num_questions
    (filter_candidates (query_candidates db question_type difficulty_filter)
       (excluded_ids db user_id jd_hash exclude_question_ids)).

End SelectorViews.

(** A bank where one open question matches the weights and one does not. *)
Module SelectorDrawsExamples.
Import Selector.

Definition scored : QuestionBank := mkQuestion 1 OPEN ["a"] None.
Definition unscored : QuestionBank := mkQuestion 2 OPEN ["zzz"] None.
Definition bank : Store := mkStore [scored; unscored] [] [] [].

(** One session of user 7 for the job description ["jd"], with a turn on
    question 4 and a turn without a question; a turn of another session. *)
Definition history : Store :=
  mkStore [] [mkJobSpec 1 "jd"] [mkSession 100 7 1 50]
          [mkTurn 100 (Some 4%Z); mkTurn 100 None; mkTurn 200 (Some 5%Z)].

End SelectorDrawsExamples.

(** * The interview plan: [build_interview_plan] and [check_plan_diversity]
      of [interview_backend/question_selector.py] *)

Module Plan.
Import Selector.

(** An entry of [role_profile["topics"]]: a dict read through
    [.get("name", "")] and [.get("weight", 0.5)], a string, or anything
    else, which the loop skips.  A weight is a JSON number. *)
Inductive TopicItem : Type :=
| TopicDict (name : option string) (weight : option Q)
| TopicStr (name : string)
| TopicOther.

(** [d[k] = v]: an existing key keeps its place, a new one goes last. *)
Definition dict_set (d : list (string * Q)) (k : string) (v : Q) : list (string * Q) :=
  if decide (k ∈ d.*1)
  then (fun kv : string * Q => if decide (kv.1 = k) then (k, v) else kv) <$> d
  else d ++ [(k, v)].

(** The float literals [0.6], [0.7], [0.8]: their binary64 values. *)
Definition w_06 : Q := 5404319552844595 # 9007199254740992.
Definition w_07 : Q := 3152519739159347 # 4503599627370496.
Definition w_08 : Q := 3602879701896397 # 4503599627370496.

Definition add_weight (topic_weights : list (string * Q)) (item : TopicItem)
  : list (string * Q) :=
  match item with
  | TopicDict name weight =>
    dict_set topic_weights (lower (default EmptyString name)) (default (1 # 2) weight)
  | TopicStr name => dict_set topic_weights (lower name) w_06
  | TopicOther => topic_weights
  end.

(** The name and the weight an entry assigns, if it assigns one. *)
Definition topic_entry (item : TopicItem) : option (string * Q) :=
  match item with
  | TopicDict name weight =>
    Some (lower (default EmptyString name), default (1 # 2) weight)
  | TopicStr name => Some (lower name, w_06)
  | TopicOther => None
  end.

Definition default_topic_weights : list (string * Q) :=
  [("programming", w_08); ("problem solving", w_07); ("algorithms", w_06)].

Definition normalize_topic_weights (topics_list : list TopicItem) : list (string * Q) :=
  match fold_left add_weight topics_list [] with
  | [] => default_topic_weights
  | topic_weights => topic_weights
  end.

(** A plan item and the candidates of a code slot.  [question_text], copied
    from the row, is left out with the column; [pi_difficulty] is [None] for
    an open item, whose dict has no such key. *)
Record Candidate : Type := mkCandidate {
  cand_question_id : Z;
  cand_difficulty : string;
  cand_topics : list string
}.

Record PlanItem : Type := mkPlanItem {
  pi_section : string;
  pi_slot_index : nat;
  pi_question_id : Z;
  pi_question_type : string;
  pi_difficulty : option string;
  pi_topics : list string;
  pi_candidates : list Candidate
}.

Definition open_item (idx : nat) (q : QuestionBank) : PlanItem :=
  mkPlanItem "open" idx (qb_id q) "open" None (qb_topics q) [].

(** [qs[0].difficulty or "Medium"] *)
Definition difficulty_or_medium (q : QuestionBank) : string :=
  match qb_difficulty q with
  | Some EmptyString => "Medium"
  | Some d => d
  | None => "Medium"
  end.

Definition candidate_of (q : QuestionBank) : Candidate :=
  mkCandidate (qb_id q) (difficulty_or_medium q) (qb_topics q).

Definition code_item (slot_idx : nat) (primary : Candidate) (candidates : list Candidate)
  : PlanItem :=
  mkPlanItem "code" slot_idx (cand_question_id primary) "code"
             (Some (cand_difficulty primary)) (cand_topics primary) candidates.

Definition difficulties : list string := ["Easy"; "Medium"; "Hard"].

(** [if qs: candidates.append({... qs[0] ...})] *)
Definition append_first (candidates : list Candidate) (qs : list QuestionBank)
  : list Candidate :=
  match qs with
  | q :: _ => candidates ++ [candidate_of q]
  | [] => candidates
  end.

Section Build.
Variable db : Store.
(** [rngs call] is the stream of [random()] values the [call]-th call of
    [select_questions] draws from. *)
Variable rngs : nat -> nat -> Q.
Variable topic_weights : list (string * Q).
Variable user_id : Z.
Variable jd_hash : string.

(** The loop over the difficulties of one code slot; [call] counts the calls
    of [select_questions] made so far. *)
Fixpoint tiered_candidates (call : nat) (tiers : list string) (candidates : list Candidate)
  : result (list Candidate * nat) :=
  match tiers with
  | [] => Ok (candidates, call)
  | difficulty :: tiers' =>
    qs ← select_questions db (rngs call) topic_weights CODE 1 user_id jd_hash
           None (Some difficulty);
    tiered_candidates (S call) tiers' (append_first candidates qs)
  end.

(** One pass of [for slot_idx in range(num_code)]: the item appended, if
    any, and the call count after it. *)
Definition code_slot (call slot_idx : nat) : result (option PlanItem * nat) :=
  '(candidates, call1) ← tiered_candidates call difficulties [];
  '(candidates1, call2) ←
    match candidates with
    | [] =>
      qs ← select_questions db (rngs call1) topic_weights CODE 1 user_id jd_hash
             None None;
      Ok (append_first [] qs, S call1)
    | _ => Ok (candidates, call1)
    end;
  match candidates1 with
  | primary :: _ => Ok (Some (code_item slot_idx primary candidates1), call2)
  | [] => Ok (None, call2)
  end.

Fixpoint code_slots (call slot_idx remaining : nat) (plan_items : list PlanItem)
  : result (list PlanItem) :=
  match remaining with
  | O => Ok plan_items
  | S remaining' =>
    '(item, call1) ← code_slot call slot_idx;
    code_slots call1 (S slot_idx) remaining' (plan_items ++ option_list item)
  end.

End Build.

(** [topics_list] is [role_profile.get("topics", [])]; [duration_minutes] is
    not read. *)
Definition build_interview_plan (db : Store) (rngs : nat -> nat -> Q)
  (topics_list : list TopicItem) (user_id : Z) (jd_hash : string)
  (num_open num_code : nat) : result (list PlanItem) :=
  let topic_weights := normalize_topic_weights topics_list in
  open_questions ← select_questions db (rngs 0%nat) topic_weights OPEN num_open
                     user_id jd_hash None None;
  code_slots db rngs topic_weights user_id jd_hash 1 0 num_code
    (imap open_item open_questions).

(** The difficulties among [tiers], in their order, that some code question
    of the bank has. *)
Definition tiers_found (db : Store) (tiers : list string) : list string :=
  List.filter (fun d => bool_decide (query_candidates db CODE (Some d) ≠ [])) tiers.

(** [item] is what a code slot appends for [slot_idx]: its candidates are
    code questions of the bank and the first of them is the primary one;
    there is exactly one for each of the difficulties Easy, Medium, Hard
    that some code question has, in this order, or a single candidate of
    any difficulty when no code question has one of the three. *)
Definition code_item_of (db : Store) (slot_idx : nat) (item : PlanItem) : Prop :=
  ∃ primary rest,
    item = code_item slot_idx (candidate_of primary) (candidate_of <$> primary :: rest)
    ∧ (∀ q, q ∈ primary :: rest → q ∈ question_bank db ∧ qb_question_type q = CODE)
    ∧ (qb_difficulty <$> primary :: rest = Some <$> tiers_found db difficulties
       ∨ (tiers_found db difficulties = [] ∧ rest = [])).

(** The [plan] column of a session: empty or [NULL], text that
    [json.loads] or the comprehension over it rejects, or a list of dicts,
    kept by what [item.get("question_id")] gives for each. *)
Inductive StoredPlan : Type :=
| NoPlan
| Unparsable
| ParsedPlan (question_ids : list (option Z)).

(** [{item.get("question_id") for item in plan if item.get("question_id")}];
    the id [0] is false. *)
Definition plan_question_ids (question_ids : list (option Z)) : gset Z :=
  list_to_set
    (omap (fun o : option Z => o ≫= fun z => if decide (z = 0%Z) then None else Some z)
       question_ids).

(** The float literal [0.7] of [PLAN_SIMILARITY_THRESHOLD].  For id sets of
    fewer than 2^49 elements the correctly rounded quotient Python compares
    is below it exactly when the exact quotient kept here is. *)
Definition PLAN_SIMILARITY_THRESHOLD : Q := w_07.

(** The ids of a plan just built, whose items all carry one. *)
Definition new_question_ids (new_plan : list PlanItem) : gset Z :=
  plan_question_ids ((fun item => Some (pi_question_id item)) <$> new_plan).

(** The latest session of this user for this job description; among
    sessions started at the same time, the first in storage order. *)
Definition previous_session (db : Store) (user_id : Z) (jd_hash : string)
  : option InterviewSession :=
  head (sort_desc_by is_started_at
          (List.filter (session_matches db user_id jd_hash) (interview_sessions db))).

(** [plans] is the [plan] column, by session id. *)
Definition check_plan_diversity (db : Store) (plans : Z -> StoredPlan)
  (user_id : Z) (jd_hash : string) (new_plan : list PlanItem) : bool :=
  match previous_session db user_id jd_hash with
  | None => true
  | Some prev_session =>
    match plans (is_id prev_session) with
    | NoPlan => true
    | Unparsable => true
    | ParsedPlan prev_plan =>
      let prev_q_ids := plan_question_ids prev_plan in
      let new_q_ids := new_question_ids new_plan in
      let similarity := compute_jaccard_similarity prev_q_ids new_q_ids in
      Qltb similarity PLAN_SIMILARITY_THRESHOLD
    end
  end.

End Plan.

(** A bank with three code questions, one per difficulty, beside the open
    questions of [SelectorExamples]. *)
Module PlanExamples.
Import Selector Plan.

Definition c1 : QuestionBank := mkQuestion 11 CODE ["a"] (Some "Easy").
Definition c2 : QuestionBank := mkQuestion 12 CODE ["b"] (Some "Medium").
Definition c3 : QuestionBank := mkQuestion 13 CODE ["c"] (Some "Hard").

Definition bank : Store :=
  mkStore (question_bank SelectorExamples.bank ++ [c1; c2; c3])
          [mkJobSpec 1 "jd"] [mkSession 100 7 1 50] [].

Definition topics : list TopicItem :=
  [TopicDict (Some "A") (Some 1%Q); TopicStr "B"; TopicDict (Some "c") None; TopicOther].

(** Entries that name ["b"] twice, and one without name or weight. *)
Definition repeated : list TopicItem :=
  [TopicStr "B"; TopicDict (Some "a") (Some 1%Q); TopicOther;
   TopicDict (Some "b") (Some (1 # 4)); TopicDict None None].

Definition rngs : nat -> nat -> Q := fun _ _ => 1 # 10.

(** The plan stored with session 100: questions 1 and 2, an item without
    an id and one whose id is 0. *)
Definition plans (session_id : Z) : StoredPlan :=
  if decide (session_id = 100%Z) then ParsedPlan [Some 1%Z; Some 2%Z; None; Some 0%Z]
  else NoPlan.

End PlanExamples.

(** The store after rows of another user were added to [steady]: an
    analysis, a later session and a turn of that session. *)
Module ReadinessMoreExamples.
Import Readiness.

Definition shared : Store :=
  mkStore
    (mkAnalysis "v" "job" 9 0.1 [] [] :: cv_analysis_results ReadinessExamples.steady)
    (interview_sessions ReadinessExamples.steady
     ++ [mkSession "s9" "v" "job" (9 * ReadinessExamples.day)])
    (mkTurn "s9" 0 "code:1" (Some 1%float) :: interview_turns ReadinessExamples.steady)
    [].

End ReadinessMoreExamples.

(** * A session as a sequence of calls

    The router calls [process_turn] once per request of a session, each call
    starting from the world the call before left. *)
Module AgentSession.
Import Agent.

(** The turns recorded for a session, in the order recorded. *)
Definition session_turns (session_id : string) (w : World) : list InterviewTurn :=
  List.filter (fun t => bool_decide (turn_session_id t = session_id)) (interview_turns w).

(** The turns of a session are numbered 0, 1, 2, ... in the order recorded. *)
Definition well_indexed (session_id : string) (w : World) : Prop :=
  turn_index <$> session_turns session_id w
  = Z.of_nat <$> seq 0 (length (session_turns session_id w)).

(** Every item of the plan names a question of the bank. *)
Definition plan_in_bank (plan_items : list PlanItem) (w : World) : Prop :=
  ∀ item, item ∈ plan_items →
    ∃ k q, selected_question_id item = Some k ∧ question_bank w !! k = Some q.

Section Run.
Variable RoleProfile : Type.
Variable AgentContext : Type.
Variable call_llm : nat -> Prompt -> LlmOutcome.
Variable build_context_from_request :
  string -> QuestionBank -> InterviewNextRequest -> list PlanItem -> RoleProfile ->
  ConversationState -> string -> string -> AgentContext.
Variable reasoning_loop_run : nat -> AgentContext -> option AgentDecision.
Variable uuid4 : nat -> string.

(** One call per request, each at its time; the answers in order. *)
Fixpoint run_turns (requests : list (Z * InterviewNextRequest))
  (plan_items : list PlanItem) (role_profile : RoleProfile) (w : World)
  : result (World * list Response) :=
  match requests with
  | [] => Ok (w, [])
  | (now, request) :: requests' =>
    '(w1, response) ←
      process_turn RoleProfile AgentContext call_llm build_context_from_request
        reasoning_loop_run uuid4 now request plan_items role_profile w;
    '(w2, responses) ← run_turns requests' plan_items role_profile w1;
    Ok (w2, response :: responses)
  end.

End Run.

End AgentSession.

(** More sample sessions for the agent. *)
Module AgentMoreExamples.
Import Agent.

(** A reasoning loop that always gives a hint, and one that always ends. *)
Definition gives_hint (_ : nat) (_ : unit) : option AgentDecision :=
  Some (mkDecision "hint" None None 0.4 []).

Definition ends_interview (_ : nat) (_ : unit) : option AgentDecision :=
  Some (mkDecision "end" (Some "Bye.") None 0.9 []).

(** A plan whose only item names a question the bank does not hold. *)
Definition unknown_plan : list PlanItem := [mkPlanItem (Some "open:404") None].

(** A session whose stored state holds the question index [-5]. *)
Definition negative_index : World :=
  mkWorld AgentExamples.one_question []
    (mkSession (Some (mkStateJson None None (Some (-5)%Z) None None ∅)) None None
       "friendly" None) 0 0 0.

(** An LLM that fails on the Hebrew prompt and answers the English one. *)
Definition hebrew_down (_ : nat) (prompt : Prompt) : LlmOutcome :=
  match prompt with
  | HebrewPrompt _ _ => LlmRaises
  | EnglishPrompt _ _ => LlmReturns (Some "Refined.")
  end.

(** Two questions and a plan over both; the second item gives no type. *)
Definition two_questions : gmap string QuestionBank :=
  <[ "code:2" := mkQuestion "code:2" "Reverse a list." ["lists"] ]>
    AgentExamples.one_question.

Definition two_item_plan : list PlanItem :=
  [mkPlanItem (Some "open:1") (Some "open"); mkPlanItem (Some "code:2") None].

Definition fresh_two : World :=
  mkWorld two_questions [] (mkSession None None None "friendly" None) 0 0 0.

End AgentMoreExamples.

(** * Properties of the question selector *)

Module SelectorFacts.
Import Selector.

(** ** Jaccard similarity *)

Section JaccardFacts.
Context `{Countable K}.
Implicit Types A B : gset K.

Lemma inter_size_le_union A B : (size (A ∩ B) ≤ size (A ∪ B))%nat.
Proof. apply subseteq_size. set_solver. Qed.

Lemma union_size_pos A B : A ∪ B ≠ ∅ → (0 < size (A ∪ B))%nat.
Proof.
  intros Hne. destruct (size (A ∪ B)) eqn:E; [|lia].
  apply size_empty_inv in E. exfalso. apply Hne. by apply leibniz_equiv.
Qed.

Lemma ratio_in_unit (i u : nat) :
  (i ≤ u)%nat → (0 < u)%nat →
  (0 <= inject_Z (Z.of_nat i) / inject_Z (Z.of_nat u) <= 1)%Q.
Proof.
  intros Hle Hpos.
  assert (Hu : (0 < inject_Z (Z.of_nat u))%Q).
  { change 0%Q with (inject_Z 0). rewrite <- Zlt_Qlt. lia. }
  split.
  - apply Qle_shift_div_l; [exact Hu|].
    rewrite Qmult_0_l. change 0%Q with (inject_Z 0). rewrite <- Zle_Qle. lia.
  - apply Qle_shift_div_r; [exact Hu|].
    rewrite Qmult_1_l. rewrite <- Zle_Qle. lia.
Qed.

Lemma jaccard_unfold A B :
  A ∪ B ≠ ∅ →
  compute_jaccard_similarity A B
  = (inject_Z (Z.of_nat (size (A ∩ B))) / inject_Z (Z.of_nat (size (A ∪ B))))%Q.
Proof.
  intros Hne. unfold compute_jaccard_similarity.
  destruct (decide _) as [_|Hn]; [done|].
  pose proof (union_size_pos A B Hne). lia.
Qed.

(** C9. The Jaccard similarity is [|A∩B| / |A∪B|] whenever the union is not
    empty, is [0] for two empty sets, lies in [[0,1]] for non-empty [A] and
    [B], and is [1] for a non-empty set against itself. *)
Theorem jaccard_spec A B :
  (A ∪ B ≠ ∅ →
     compute_jaccard_similarity A B
     = (inject_Z (Z.of_nat (size (A ∩ B))) / inject_Z (Z.of_nat (size (A ∪ B))))%Q)
  ∧ compute_jaccard_similarity (∅ : gset K) ∅ = 0%Q
  ∧ (A ≠ ∅ → B ≠ ∅ →
     (0 <= compute_jaccard_similarity A B <= 1)%Q)
  ∧ (A ≠ ∅ → (compute_jaccard_similarity A A == 1)%Q).
Proof.
  split; [apply jaccard_unfold|].
  split.
  { unfold compute_jaccard_similarity.
    destruct (decide _) as [Hpos|_]; [|done].
    rewrite union_empty_r_L, size_empty in Hpos. lia. }
  split.
  - intros HA _.
    assert (Hne : A ∪ B ≠ ∅) by set_solver.
    rewrite (jaccard_unfold _ _ Hne).
    apply ratio_in_unit; [apply inter_size_le_union | by apply union_size_pos].
  - intros HA.
    assert (Hne : A ∪ A ≠ ∅) by set_solver.
    rewrite (jaccard_unfold _ _ Hne).
    assert (EI : A ∩ A = A) by set_solver.
    assert (EU : A ∪ A = A) by set_solver.
    rewrite EI, EU.
    apply Qmult_inv_r.
    pose proof (union_size_pos A A Hne) as Hpos. rewrite EU in Hpos.
    intros E. apply (Qlt_not_eq 0 (inject_Z (Z.of_nat (size A)))); [|by symmetry].
    change 0%Q with (inject_Z 0). rewrite <- Zlt_Qlt. lia.
Qed.

End JaccardFacts.

Lemma jaccard_spec_witness :
  (0 <= compute_jaccard_similarity ({["a"]} : gset string) {["a"; "b"]} <= 1)%Q
  ∧ (compute_jaccard_similarity ({["a"]} : gset string) {["a"]} == 1)%Q.
Proof.
  pose proof (jaccard_spec ({["a"]} : gset string) {["a"; "b"]}) as (_ & _ & Hrange & Hself).
  split; [apply Hrange | apply Hself]; set_solver.
Defined.

(** ** The sampling loop *)

Lemma choices_elem {A : Type} (population : list A) weights r x :
  choices population weights r = Ok x → x ∈ population.
Proof.
  unfold choices. intros Hc.
  destruct (decide _); [|done].
  destruct (last _); [|done].
  destruct (Qlt_le_dec _ _); [|done].
  destruct (population !! _) as [y|] eqn:Hy; [|done].
  injection Hc as <-. by eapply list_elem_of_lookup_2.
Qed.

Lemma midpoint_between (lo hi : nat) :
  (lo < hi)%nat → (lo ≤ (lo + hi) / 2 < hi)%nat.
Proof.
  intros Hlt. split.
  - apply Nat.div_le_lower_bound; lia.
  - apply Nat.Div0.div_lt_upper_bound; lia.
Qed.

(** The search stays inside [[lo, hi]]. *)
Lemma bisect_right_bounds a x fuel : ∀ lo hi,
  (lo ≤ hi)%nat → (lo ≤ bisect_right fuel a x lo hi ≤ hi)%nat.
Proof.
  induction fuel as [|fuel IH]; intros lo hi Hle; cbn [bisect_right]; [lia|].
  destruct (decide (lo < hi)%nat) as [Hlt|]; [|simpl; lia].
  pose proof (midpoint_between lo hi Hlt) as Hmid.
  set (mid := ((lo + hi) / 2)%nat) in *. clearbody mid.
  destruct (a !! _) as [a_mid|]; [|simpl; lia].
  destruct (Qlt_le_dec x a_mid); simpl.
  - assert (H1 : (lo ≤ mid)%nat) by lia.
    pose proof (IH lo _ H1). lia.
  - assert (H1 : (mid + 1 ≤ hi)%nat) by lia.
    pose proof (IH _ hi H1). lia.
Qed.

(** Fuel beyond the width of the interval changes nothing: the fuel [choices]
    passes is enough for the search to end by itself. *)
Lemma bisect_right_fuel a x fuel1 : ∀ fuel2 lo hi,
  (hi - lo < fuel1)%nat → (hi - lo < fuel2)%nat →
  bisect_right fuel1 a x lo hi = bisect_right fuel2 a x lo hi.
Proof.
  induction fuel1 as [|fuel1 IH]; intros fuel2 lo hi H1 H2; [lia|].
  destruct fuel2 as [|fuel2]; [lia|]. cbn [bisect_right].
  destruct (decide (lo < hi)%nat) as [Hlt|]; [|done].
  pose proof (midpoint_between lo hi Hlt) as Hmid.
  set (mid := ((lo + hi) / 2)%nat) in *. clearbody mid.
  destruct (a !! _) as [a_mid|]; [|done].
  destruct (Qlt_le_dec x a_mid); apply IH; lia.
Qed.

Lemma accumulate_from_length acc ws : length (accumulate_from acc ws) = length ws.
Proof. revert acc. induction ws as [|w ws IH]; intros acc; simpl; [done|by rewrite IH]. Qed.

Lemma accumulate_length ws : length (accumulate ws) = length ws.
Proof. destruct ws; simpl; [done|by rewrite accumulate_from_length]. Qed.

(** A draw raises nothing but the [ValueError] of a total weight that is not
    positive. *)
Lemma choices_raises {A : Type} (population : list A) weights r e :
  population ≠ [] → length weights = length population →
  choices population weights r = Raise e → e = ValueError.
Proof.
  intros Hne Hlen. unfold choices. rewrite accumulate_length.
  destruct (decide _) as [_|]; [|done].
  destruct (last (accumulate weights)) as [total|] eqn:El.
  - destruct (Qlt_le_dec 0 total); [|by intros [= <-]].
    destruct (population !! _) as [y|] eqn:Ey; [done|].
    apply lookup_ge_None in Ey.
    pose proof (bisect_right_bounds (accumulate weights) (r * total)%Q
                  (length population) 0 (length population - 1)) as Hb.
    destruct population; [done|]. simpl in *. lia.
  - apply last_None in El. apply (f_equal length) in El.
    rewrite accumulate_length, Hlen in El. by destruct population.
Qed.

Lemma py_remove_ok {A : Type} `{EqDecision A} (x : A) l l' :
  py_remove x l = Ok l' →
  length l = S (length l') ∧ (∀ y, y ∈ l' → y ∈ l) ∧ (∀ y, y ∈ l → y = x ∨ y ∈ l').
Proof.
  revert l'. induction l as [|y l IH]; intros l' Hr; simpl in Hr; [done|].
  destruct (decide (y = x)) as [->|Hne].
  - injection Hr as <-. split; [done|]. split; intros z Hz.
    + by apply list_elem_of_further.
    + apply elem_of_cons in Hz as [->|Hz]; auto.
  - destruct (py_remove x l) as [l''|] eqn:E; [|done].
    injection Hr as <-. destruct (IH l'' eq_refl) as (Hlen & Hsub & Hcov).
    split; [simpl; lia|]. split; intros z Hz.
    + apply elem_of_cons in Hz as [->|Hz]; [left|right; auto].
    + apply elem_of_cons in Hz as [->|Hz]; [right; left|].
      destruct (Hcov z Hz) as [->|Hz']; [by left|right; by right].
Qed.

Lemma py_remove_elem {A : Type} `{EqDecision A} (x : A) l :
  x ∈ l → ∃ l', py_remove x l = Ok l'.
Proof.
  induction l as [|y l IH]; intros Hin; [by apply not_elem_of_nil in Hin|].
  simpl. destruct (decide (y = x)) as [->|Hne]; [eauto|].
  apply elem_of_cons in Hin as [->|Hin]; [done|].
  destruct (IH Hin) as [l' ->]. eauto.
Qed.

Lemma remaining_of_elem used top sq :
  sq ∈ remaining_of used top ↔ sq ∈ top ∧ qb_id sq.1 ∉ used.
Proof.
  unfold remaining_of. by rewrite !list_elem_of_In, filter_In, bool_decide_eq_true.
Qed.

Lemma remaining_of_nil used top :
  remaining_of used top = [] → ∀ sq, sq ∈ top → qb_id sq.1 ∈ used.
Proof.
  intros Hnil sq Hin. destruct (decide (qb_id sq.1 ∈ used)) as [|Hout]; [done|].
  assert (Hrem : sq ∈ remaining_of used top) by by apply remaining_of_elem.
  rewrite Hnil in Hrem. by apply not_elem_of_nil in Hrem.
Qed.

Lemma take_app_last {A : Type} (l : list A) (x : A) :
  take (length (l ++ [x]) - 1) (l ++ [x]) = l.
Proof.
  rewrite length_app. simpl.
  replace (length l + 1 - 1)%nat with (length l) by lia.
  by rewrite take_app_length.
Qed.

Lemma prior_topics_app selected extra i :
  (i ≤ length selected)%nat →
  prior_topics (selected ++ extra) i = prior_topics selected i.
Proof. intros Hi. unfold prior_topics. by rewrite take_app_le. Qed.

Lemma discarded_app selected extra sq :
  discarded selected sq → discarded (selected ++ extra) sq.
Proof.
  intros (i & Hi & Hov). exists i. split.
  - rewrite length_app. lia.
  - rewrite prior_topics_app; [done|lia].
Qed.

Lemma loop_inv_init num pool : loop_inv num pool [] ∅ pool.
Proof.
  split.
  - done.
  - constructor.
  - simpl. lia.
  - intros q Hq. by apply not_elem_of_nil in Hq.
  - done.
  - auto.
  - intros i q _ Hlook. done.
Qed.

Section Loop.
Variable rng : nat -> Q.
Variable num : nat.
Variable pool : list (QuestionBank * Q).

Lemma loop_inv_accept selected used top chosen :
  loop_inv num pool selected used top →
  (length selected < num)%nat →
  chosen ∈ remaining_of used top →
  (selected ≠ [] →
   (overlap_threshold < compute_jaccard_similarity
      (prior_topics (selected ++ [chosen.1]) (length (selected ++ [chosen.1]) - 1))
      (topic_set chosen.1))%Q →
   (length (remaining_of used top) ≤ 1)%nat) →
  loop_inv num pool (selected ++ [chosen.1]) (used ∪ {[qb_id chosen.1]}) top.
Proof.
  intros [Hused Hnd Hlen Hfrom Htop Hdisc Hdiv] Hlt Hch Hacc.
  apply remaining_of_elem in Hch as Hch'. destruct Hch' as [Hin Hfresh].
  split.
  - rewrite fmap_app, list_to_set_app_L, <- Hused. simpl. set_solver.
  - rewrite fmap_app. apply NoDup_app. split; [done|]. split.
    + intros x Hx Hx'. apply list_elem_of_singleton in Hx' as ->.
      apply Hfresh. rewrite Hused. by apply elem_of_list_to_set.
    + apply NoDup_singleton.
  - rewrite length_app. simpl. lia.
  - intros q Hq. apply elem_of_app in Hq as [Hq|Hq]; [auto|].
    apply list_elem_of_singleton in Hq as ->.
    apply list_elem_of_fmap. exists chosen. auto.
  - done.
  - intros sq Hsq. destruct (Hdisc sq Hsq) as [|Hd]; [by left|right].
    by apply discarded_app.
  - intros i q Hi Hlook Hov.
    destruct (decide (i < length selected)%nat) as [Hil|Hil].
    + rewrite lookup_app_l in Hlook by done.
      rewrite prior_topics_app in Hov by lia.
      destruct (Hdiv i q Hi Hlook Hov) as [_ Hnil].
      rewrite Hnil in Hch. by apply not_elem_of_nil in Hch.
    + assert (Hlen1 : length (selected ++ [chosen.1]) = S (length selected)).
      { rewrite length_app. simpl. lia. }
      assert (i = length selected) as ->.
      { apply lookup_lt_Some in Hlook. lia. }
      rewrite list_lookup_middle in Hlook by done. injection Hlook as <-.
      split; [done|].
      assert (Hne : selected ≠ []) by (destruct selected; [simpl in Hi; lia|done]).
      replace (length selected) with (length (selected ++ [chosen.1]) - 1)%nat in Hov
        by lia.
      specialize (Hacc Hne Hov).
      destruct (remaining_of (used ∪ {[qb_id chosen.1]}) top) as [|sq rest] eqn:E;
        [done|exfalso].
      assert (Hsq : sq ∈ remaining_of (used ∪ {[qb_id chosen.1]}) top)
        by (rewrite E; left).
      apply remaining_of_elem in Hsq as [Hsq1 Hsq2].
      assert (Hsq3 : sq ∈ remaining_of used top).
      { apply remaining_of_elem. split; [done|]. set_solver. }
      destruct (remaining_of used top) as [|a [|b rest']] eqn:E'; simpl in Hacc;
        [by apply not_elem_of_nil in Hch| |lia].
      apply list_elem_of_singleton in Hch as ->.
      apply list_elem_of_singleton in Hsq3 as ->. set_solver.
Qed.

Lemma loop_inv_reject selected used top top' chosen :
  loop_inv num pool selected used top →
  chosen ∈ remaining_of used top →
  selected ≠ [] →
  (overlap_threshold < compute_jaccard_similarity
     (prior_topics (selected ++ [chosen.1]) (length (selected ++ [chosen.1]) - 1))
     (topic_set chosen.1))%Q →
  py_remove chosen top = Ok top' →
  loop_inv num pool (take (length (selected ++ [chosen.1]) - 1) (selected ++ [chosen.1]))
    ((used ∪ {[qb_id chosen.1]}) ∖ {[qb_id chosen.1]}) top'.
Proof.
  intros [Hused Hnd Hlen Hfrom Htop Hdisc Hdiv] Hch Hne Hov Hrm.
  apply remaining_of_elem in Hch as Hch'. destruct Hch' as [Hin Hfresh].
  destruct (py_remove_ok _ _ _ Hrm) as (_ & Hsub & Hcov).
  assert (Hback : (used ∪ {[qb_id chosen.1]}) ∖ {[qb_id chosen.1]} = used) by set_solver.
  rewrite take_app_last, Hback.
  split; try done.
  - auto.
  - intros sq Hsq. destruct (Hdisc sq Hsq) as [Hsqtop|Hd]; [|by right].
    destruct (Hcov sq Hsqtop) as [->|]; [right|by left].
    exists (length selected). split.
    + destruct selected; [done|simpl; lia].
    + rewrite length_app in Hov. simpl in Hov.
      replace (length selected + 1 - 1)%nat with (length selected) in Hov by lia.
      rewrite prior_topics_app in Hov by lia. done.
  - intros i q Hi Hlook Hov'.
    destruct (Hdiv i q Hi Hlook Hov') as [_ Hnil].
    rewrite Hnil in Hch. by apply not_elem_of_nil in Hch.
Qed.

Lemma select_loop_inv fuel : ∀ draw selected used top sel,
  loop_inv num pool selected used top →
  select_loop rng num fuel draw selected used top = Ok sel →
  ∃ used' top', loop_inv num pool sel used' top'.
Proof.
  induction fuel as [|fuel IH]; intros draw selected used top sel Hinv Hrun;
    simpl in Hrun; [done|].
  destruct (decide _) as [[Hlt Htopne]|_]; [|injection Hrun as <-; eauto].
  destruct (remaining_of used top) as [|sq0 rest] eqn:Erem;
    [injection Hrun as <-; eauto|].
  rewrite <- Erem in Hrun.
  destruct (choices _ _ _) as [chosen|e] eqn:Ech; simpl in Hrun; [|done].
  apply choices_elem in Ech.
  destruct (decide (1 < length (selected ++ [chosen.1]))%nat) as [Hlen1|Hlen1].
  - assert (Hne : selected ≠ []).
    { intros ->. simpl in Hlen1. lia. }
    destruct (decide (_ ∧ _)) as [[Hov Hmany]|Hno].
    + destruct (py_remove chosen top) as [top'|e] eqn:Erm; simpl in Hrun; [|done].
      refine (IH _ _ _ _ _ _ Hrun). by apply (loop_inv_reject _ _ top).
    + refine (IH _ _ _ _ _ _ Hrun). apply loop_inv_accept; try done.
      intros _ Hov. destruct (decide (1 < length (remaining_of used top))%nat); [|lia].
      exfalso. apply Hno. done.
  - refine (IH _ _ _ _ _ _ Hrun). apply loop_inv_accept; try done.
    intros Hne. exfalso. apply Hlen1. rewrite length_app. simpl.
    destruct selected; [done|simpl; lia].
Qed.

(** The loop ends: every pass either lengthens [selected] or shortens
    [top_candidates].  With fuel above that measure the only exception left
    is the [ValueError] of a draw among candidates whose weights are all 0. *)
Lemma select_loop_raises fuel : ∀ draw selected used top e,
  (num - length selected + length top < fuel)%nat →
  select_loop rng num fuel draw selected used top = Raise e → e = ValueError.
Proof.
  induction fuel as [|fuel IH]; intros draw selected used top e Hfuel; [lia|].
  simpl.
  destruct (decide _) as [[Hlt Htopne]|_]; [|done].
  destruct (remaining_of used top) as [|sq0 rest] eqn:Erem; [done|].
  rewrite <- Erem.
  destruct (choices _ _ _) as [chosen|e'] eqn:Ech; simpl.
  2:{ intros [= <-]. apply choices_raises in Ech; [done|by rewrite Erem|].
      by rewrite length_fmap. }
  apply choices_elem in Ech. apply remaining_of_elem in Ech as [Hin _].
  assert (Hgrow : (num - length (selected ++ [chosen.1]) + length top < fuel)%nat).
  { rewrite length_app. simpl. lia. }
  destruct (decide (1 < _)%nat); [|by apply IH].
  destruct (decide (_ ∧ _)); [|by apply IH].
  destruct (py_remove_elem _ _ Hin) as [top' Erm]. rewrite Erm. simpl.
  apply py_remove_ok in Erm as (Hlen & _).
  apply IH. rewrite take_app_last. lia.
Qed.

(** The selection never shrinks from one pass to the next. *)
Lemma select_loop_grows fuel : ∀ draw selected used top sel,
  select_loop rng num fuel draw selected used top = Ok sel →
  (length selected ≤ length sel)%nat.
Proof.
  induction fuel as [|fuel IH]; intros draw selected used top sel Hrun;
    simpl in Hrun; [done|].
  destruct (decide _) as [_|_]; [|by injection Hrun as <-].
  destruct (remaining_of used top) as [|sq0 rest] eqn:Erem;
    [by injection Hrun as <-|].
  rewrite <- Erem in Hrun.
  destruct (choices _ _ _) as [chosen|e]; simpl in Hrun; [|done].
  assert (Hlen1 : length (selected ++ [chosen.1]) = S (length selected)).
  { rewrite length_app. simpl. lia. }
  destruct (decide (1 < _)%nat).
  - destruct (decide (_ ∧ _)).
    + destruct (py_remove chosen top) as [top'|e]; simpl in Hrun; [|done].
      apply IH in Hrun. by rewrite take_app_last in Hrun.
    + apply IH in Hrun. lia.
  - apply IH in Hrun. lia.
Qed.

End Loop.

(** ** The pool the loop samples from *)

Lemma insert_sorted_perm {A : Type} (later : A → A → bool) x l :
  insert_sorted later x l ≡ₚ x :: l.
Proof.
  induction l as [|y l IH]; simpl; [done|].
  destruct (later x y); [|done].
  rewrite IH. apply Permutation_swap.
Qed.

Lemma stable_sort_perm {A : Type} (later : A → A → bool) l :
  stable_sort later l ≡ₚ l.
Proof.
  induction l as [|x l IH]; simpl; [done|].
  unfold stable_sort in *. simpl. by rewrite insert_sorted_perm, IH.
Qed.

Lemma top_pool_elem tw num filtered sq :
  sq ∈ top_pool tw num filtered → sq.1 ∈ filtered.
Proof.
  unfold top_pool. intros Hin.
  apply subseteq_take in Hin. rewrite stable_sort_perm in Hin.
  apply list_elem_of_fmap in Hin as (q & -> & Hq). done.
Qed.

Lemma top_pool_nonempty tw num filtered :
  filtered ≠ [] → (0 < num)%nat → top_pool tw num filtered ≠ [].
Proof.
  intros Hne Hnum. unfold top_pool.
  set (scored := stable_sort _ _).
  assert (Hlen : length scored = length filtered).
  { unfold scored. by rewrite stable_sort_perm, length_fmap. }
  intros E. apply (f_equal length) in E. rewrite length_take in E. simpl in E.
  destruct filtered; [done|]. simpl in Hlen. lia.
Qed.

Lemma filter_candidates_elem candidates recent q :
  q ∈ filter_candidates candidates recent →
  q ∈ candidates ∧
  ((∃ c, c ∈ candidates ∧ qb_id c ∉ recent) → qb_id q ∉ recent).
Proof.
  unfold filter_candidates.
  destruct (List.filter _ candidates) as [|c0 rest] eqn:E.
  - intros Hq. split; [done|]. intros (c & Hc & Hfresh).
    assert (Hin : In c (List.filter (λ q, bool_decide (qb_id q ∉ recent)) candidates)).
    { apply filter_In. split; [by apply list_elem_of_In|by apply bool_decide_eq_true]. }
    rewrite E in Hin. destruct Hin.
  - rewrite <- E. intros Hq. apply list_elem_of_In, filter_In in Hq as [Hq1 Hq2].
    apply bool_decide_eq_true in Hq2. split; [by apply list_elem_of_In|done].
Qed.

Lemma filter_candidates_fallback candidates recent :
  (∀ c, c ∈ candidates → qb_id c ∈ recent) →
  filter_candidates candidates recent = candidates.
Proof.
  intros Hall. unfold filter_candidates.
  destruct (List.filter _ candidates) as [|c0 rest] eqn:E; [done|].
  assert (Hin : In c0 (List.filter (λ q, bool_decide (qb_id q ∉ recent)) candidates))
    by (rewrite E; by left).
  apply filter_In in Hin as [Hc Hfresh]. apply bool_decide_eq_true in Hfresh.
  exfalso. apply Hfresh, Hall. by apply list_elem_of_In.
Qed.

Lemma filter_candidates_nonempty candidates recent :
  candidates ≠ [] → filter_candidates candidates recent ≠ [].
Proof.
  intros Hne. unfold filter_candidates.
  by destruct (List.filter _ candidates).
Qed.

Lemma excluded_ids_elem db user_id jd_hash ex x :
  x ∈ excluded_ids db user_id jd_hash ex ↔
  x ∈ get_recent_question_ids db user_id jd_hash MAX_RECENT_SESSIONS
  ∨ ∃ e, ex = Some e ∧ x ∈ e.
Proof.
  unfold excluded_ids. destruct ex as [e|].
  - destruct (decide (e = ∅)) as [->|_].
    + split; [by left|]. intros [|(e & [= <-] & He)]; [done|set_solver].
    + rewrite elem_of_union. split.
      * intros [|]; [by left|right; eauto].
      * intros [|(e' & [= <-] & He)]; [by left|by right].
  - split; [by left|]. by intros [|(e & [=] & _)].
Qed.

(** What a successful call returns, in terms of the loop invariant. *)
Lemma select_questions_inv db rng tw qt num uid jd ex diff sel :
  select_questions db rng tw qt num uid jd ex diff = Ok sel →
  query_candidates db qt diff ≠ [] →
  ∃ used top,
    loop_inv num
      (top_pool tw num
         (filter_candidates (query_candidates db qt diff) (excluded_ids db uid jd ex)))
      sel used top.
Proof.
  unfold select_questions. intros Hrun Hne.
  destruct (query_candidates db qt diff) as [|c cs] eqn:Ec; [done|].
  destruct (select_loop _ _ _ _ _ _ _) as [selected|e] eqn:Eloop; simpl in Hrun; [|done].
  injection Hrun as <-.
  apply select_loop_inv with (pool := top_pool tw num
    (filter_candidates (c :: cs) (excluded_ids db uid jd ex))) in Eloop
    as (used & top & Hinv); [|apply loop_inv_init].
  exists used, top. rewrite take_ge; [done|]. by destruct Hinv.
Qed.

Lemma select_questions_empty db rng tw qt num uid jd ex diff :
  query_candidates db qt diff = [] →
  select_questions db rng tw qt num uid jd ex diff = Ok [].
Proof. unfold select_questions. by intros ->. Qed.

Lemma remaining_of_empty top : remaining_of ∅ top = top.
Proof.
  unfold remaining_of. induction top as [|sq top IH]; simpl; [done|].
  rewrite bool_decide_eq_true_2 by set_solver. by rewrite IH.
Qed.

Lemma select_loop_first rng num fuel draw top sel :
  (0 < num)%nat → top ≠ [] →
  select_loop rng num fuel draw [] ∅ top = Ok sel → sel ≠ [].
Proof.
  intros Hnum Htop Hrun. destruct fuel as [|fuel]; simpl in Hrun; [done|].
  destruct (decide _) as [_|Hn]; [|exfalso; apply Hn; simpl; split; [lia|done]].
  rewrite remaining_of_empty in Hrun.
  destruct top as [|sq0 rest] eqn:Etop; [done|]. rewrite <- Etop in Hrun.
  destruct (choices _ _ _) as [chosen|e]; simpl in Hrun; [|done].
  destruct (decide (1 < 1)%nat); [lia|].
  apply select_loop_grows in Hrun. simpl in Hrun.
  intros ->. simpl in Hrun. lia.
Qed.

(** With no topic weight every score is 0, and the first draw raises. *)
Example select_questions_zero_weights :
  select_questions SelectorExamples.bank SelectorExamples.rng_low [] OPEN 3 7 "jd"
    None None = Raise ValueError.
Proof. vm_compute. reflexivity. Qed.

(** ** Results *)

(** C10. A call to [select_questions] ends; a list it returns holds at most
    [num_questions] questions with pairwise distinct ids; and with no
    candidate of the requested type and difficulty it returns the empty
    list instead of raising. *)
Theorem select_questions_bounded_distinct db rng tw qt num uid jd ex diff :
  select_questions db rng tw qt num uid jd ex diff ≠ Raise OutOfFuel
  ∧ (∀ sel, select_questions db rng tw qt num uid jd ex diff = Ok sel →
       (length sel ≤ num)%nat ∧ NoDup (qb_id <$> sel))
  ∧ (query_candidates db qt diff = [] →
       select_questions db rng tw qt num uid jd ex diff = Ok []).
Proof.
  split; [|split].
  - unfold select_questions.
    destruct (query_candidates db qt diff) as [|c cs]; [done|].
    destruct (select_loop _ _ _ _ _ _ _) as [selected|e] eqn:Eloop; simpl; [done|].
    intros [= ->]. apply select_loop_raises in Eloop; [done|simpl; lia].
  - intros sel Hrun.
    destruct (query_candidates db qt diff) as [|c cs] eqn:Ec.
    + rewrite select_questions_empty in Hrun by done. injection Hrun as <-.
      split; [simpl; lia|constructor].
    + apply select_questions_inv in Hrun as (used & top & Hinv); [|by rewrite Ec].
      by destruct Hinv.
  - apply select_questions_empty.
Qed.

Lemma select_questions_bounded_distinct_witness :
  select_questions SelectorExamples.bank SelectorExamples.rng_low
    SelectorExamples.weights OPEN 3 7 "jd" None None
  = Ok [SelectorExamples.q1; SelectorExamples.q2; SelectorExamples.q3]
  ∧ (3 ≤ 3)%nat
  ∧ NoDup [1%Z; 2%Z; 3%Z]
  ∧ select_questions SelectorExamples.bank SelectorExamples.rng_low
      SelectorExamples.weights CODE 3 7 "jd" None None = Ok [].
Proof.
  pose proof (select_questions_bounded_distinct SelectorExamples.bank
                SelectorExamples.rng_low SelectorExamples.weights OPEN 3 7 "jd"
                None None) as (_ & Hbound & _).
  pose proof (select_questions_bounded_distinct SelectorExamples.bank
                SelectorExamples.rng_low SelectorExamples.weights CODE 3 7 "jd"
                None None) as (_ & _ & Hempty).
  assert (Hrun : select_questions SelectorExamples.bank SelectorExamples.rng_low
                   SelectorExamples.weights OPEN 3 7 "jd" None None
                 = Ok [SelectorExamples.q1; SelectorExamples.q2; SelectorExamples.q3])
    by (vm_compute; reflexivity).
  destruct (Hbound _ Hrun) as [Hlen Hnd].
  split; [exact Hrun|]. split; [exact Hlen|]. split; [exact Hnd|].
  apply Hempty. vm_compute. reflexivity.
Defined.

(** C7. A returned question is always one of the candidates; when some
    candidate is outside the recent-history and exclusion sets, no returned
    question has its id in either; when none is, the pool falls back to all
    candidates; the pool is never empty when a candidate exists, and then a
    call asking for at least one question does not return an empty list. *)
Theorem select_questions_respects_exclusions db rng tw qt num uid jd ex diff sel :
  select_questions db rng tw qt num uid jd ex diff = Ok sel →
  (∀ q, q ∈ sel → q ∈ query_candidates db qt diff)
  ∧ ((∃ c, c ∈ query_candidates db qt diff
           ∧ (qb_id c ∉ get_recent_question_ids db uid jd MAX_RECENT_SESSIONS)
           ∧ (∀ e, ex = Some e → qb_id c ∉ e)) →
     ∀ q, q ∈ sel →
       (qb_id q ∉ get_recent_question_ids db uid jd MAX_RECENT_SESSIONS)
       ∧ (∀ e, ex = Some e → qb_id q ∉ e))
  ∧ ((∀ c, c ∈ query_candidates db qt diff →
           qb_id c ∈ get_recent_question_ids db uid jd MAX_RECENT_SESSIONS
           ∨ ∃ e, ex = Some e ∧ qb_id c ∈ e) →
     filter_candidates (query_candidates db qt diff) (excluded_ids db uid jd ex)
     = query_candidates db qt diff)
  ∧ (query_candidates db qt diff ≠ [] →
     filter_candidates (query_candidates db qt diff) (excluded_ids db uid jd ex) ≠ []
     ∧ ((0 < num)%nat → sel ≠ [])).
Proof.
  intros Hrun.
  assert (Hfrom : ∀ q, q ∈ sel →
            q ∈ filter_candidates (query_candidates db qt diff)
                  (excluded_ids db uid jd ex)).
  { intros q Hq.
    destruct (query_candidates db qt diff) as [|c cs] eqn:Ec.
    - rewrite select_questions_empty in Hrun by done. injection Hrun as <-.
      by apply not_elem_of_nil in Hq.
    - rewrite <- Ec in *.
      apply select_questions_inv in Hrun as (used & top & Hinv); [|by rewrite Ec].
      destruct Hinv as [_ _ _ Hpool _ _ _].
      apply Hpool, list_elem_of_fmap in Hq as (sq & -> & Hsq).
      by apply top_pool_elem in Hsq. }
  split; [|split; [|split]].
  - intros q Hq. by apply Hfrom, filter_candidates_elem in Hq as [? _].
  - intros (c & Hc & Hrecent & Hex) q Hq.
    apply Hfrom, filter_candidates_elem in Hq as [_ Hfresh].
    assert (Hq : qb_id q ∉ excluded_ids db uid jd ex).
    { apply Hfresh. exists c. split; [done|].
      rewrite excluded_ids_elem. intros [|(e & He & Hin)]; [done|].
      by apply (Hex e He). }
    rewrite excluded_ids_elem in Hq. split.
    + intros Hin. apply Hq. by left.
    + intros e He Hin. apply Hq. right. eauto.
  - intros Hall. apply filter_candidates_fallback.
    intros c Hc. apply excluded_ids_elem. auto.
  - intros Hne. split; [by apply filter_candidates_nonempty|].
    intros Hnum. unfold select_questions in Hrun.
    destruct (query_candidates db qt diff) as [|c cs] eqn:Ec; [done|].
    destruct (select_loop _ _ _ _ _ _ _) as [selected|e] eqn:Eloop; simpl in Hrun;
      [|done].
    injection Hrun as <-.
    apply select_loop_first in Eloop as Hsel; [|done|].
    + apply select_loop_inv with (pool := top_pool tw num
        (filter_candidates (c :: cs) (excluded_ids db uid jd ex))) in Eloop
        as (used & top & Hinv); [|apply loop_inv_init].
      rewrite take_ge; [done|]. by destruct Hinv.
    + apply top_pool_nonempty; [|done]. by apply filter_candidates_nonempty.
Qed.

Lemma select_questions_respects_exclusions_witness :
  select_questions SelectorExamples.bank SelectorExamples.rng_low
    SelectorExamples.weights OPEN 2 7 "jd" (Some {[1%Z; 3%Z]}) None
  = Ok [SelectorExamples.q2; SelectorExamples.q4]
  ∧ (∀ q, q ∈ [SelectorExamples.q2; SelectorExamples.q4] →
       (qb_id q ∉ get_recent_question_ids SelectorExamples.bank 7 "jd"
                    MAX_RECENT_SESSIONS)
       ∧ (∀ e, Some ({[1%Z; 3%Z]} : gset Z) = Some e → qb_id q ∉ e)).
Proof.
  assert (Hrun : select_questions SelectorExamples.bank SelectorExamples.rng_low
                   SelectorExamples.weights OPEN 2 7 "jd" (Some {[1%Z; 3%Z]}) None
                 = Ok [SelectorExamples.q2; SelectorExamples.q4])
    by (vm_compute; reflexivity).
  split; [exact Hrun|].
  apply (select_questions_respects_exclusions _ _ _ _ _ _ _ _ _ _ Hrun).
  exists SelectorExamples.q2. split; [|split].
  - vm_compute. right. left.
  - vm_compute. set_solver.
  - intros e [= <-]. vm_compute. set_solver.
Defined.

(** C3, as the code has it.  A question selected after the first overlaps
    the union of the topics selected before it by at most the threshold,
    unless it is the last of the batch and no unselected candidate was left
    in the pool when it was drawn: every pool candidate is then selected or
    was discarded for its overlap. *)
Theorem select_questions_union_diversity db rng tw qt num uid jd ex diff sel :
  select_questions db rng tw qt num uid jd ex diff = Ok sel →
  ∀ i q, (0 < i)%nat → sel !! i = Some q →
    (compute_jaccard_similarity (prior_topics sel i) (topic_set q)
       <= overlap_threshold)%Q
    ∨ (S i = length sel
       ∧ ∀ sq, sq ∈ top_pool tw num
                      (filter_candidates (query_candidates db qt diff)
                         (excluded_ids db uid jd ex)) →
               qb_id sq.1 ∈ (qb_id <$> sel) ∨ discarded sel sq).
Proof.
  intros Hrun i q Hi Hlook.
  destruct (Qlt_le_dec overlap_threshold
              (compute_jaccard_similarity (prior_topics sel i) (topic_set q)))
    as [Hov|Hle]; [right|by left].
  destruct (query_candidates db qt diff) as [|c cs] eqn:Ec.
  { rewrite select_questions_empty in Hrun by done. by injection Hrun as <-. }
  rewrite <- Ec in *.
  apply select_questions_inv in Hrun as (used & top & Hinv); [|by rewrite Ec].
  destruct Hinv as [Hused _ _ _ _ Hdisc Hdiv].
  destruct (Hdiv i q Hi Hlook Hov) as [Hlast Hnil]. split; [done|].
  intros sq Hsq. destruct (Hdisc sq Hsq) as [Hin|]; [left|by right].
  apply (remaining_of_nil _ _ Hnil) in Hin.
  rewrite Hused in Hin. by apply elem_of_list_to_set in Hin.
Qed.

Lemma select_questions_union_diversity_witness :
  select_questions SelectorExamples.bank SelectorExamples.rng_low
    SelectorExamples.weights OPEN 3 7 "jd" None None
  = Ok [SelectorExamples.q1; SelectorExamples.q2; SelectorExamples.q3]
  ∧ ((compute_jaccard_similarity
        (prior_topics [SelectorExamples.q1; SelectorExamples.q2; SelectorExamples.q3] 2)
        (topic_set SelectorExamples.q3) <= overlap_threshold)%Q
     ∨ (3%nat = length [SelectorExamples.q1; SelectorExamples.q2; SelectorExamples.q3]
        ∧ ∀ sq, sq ∈ SelectorExamples.pool →
            qb_id sq.1 ∈ (qb_id <$> [SelectorExamples.q1; SelectorExamples.q2;
                                      SelectorExamples.q3])
            ∨ discarded [SelectorExamples.q1; SelectorExamples.q2;
                         SelectorExamples.q3] sq)).
Proof.
  assert (Hrun : select_questions SelectorExamples.bank SelectorExamples.rng_low
                   SelectorExamples.weights OPEN 3 7 "jd" None None
                 = Ok [SelectorExamples.q1; SelectorExamples.q2; SelectorExamples.q3])
    by (vm_compute; reflexivity).
  split; [exact Hrun|].
  apply (select_questions_union_diversity _ _ _ _ _ _ _ _ _ _ Hrun 2 SelectorExamples.q3).
  - lia.
  - reflexivity.
Defined.

(** C3 as stated fails: with every draw taking the first remaining candidate,
    the batch is [q1; q2; q3].  [q3] has the topics of [q1] (similarity 1,
    above the threshold), yet its similarity to the union of the topics of
    [q1] and [q2] is 1/2, so the draw is kept, although [q4] and [q5], which
    share no topic with any selected question, are in the pool. *)
Lemma pairwise_diversity_counterexample :
  select_questions SelectorExamples.bank SelectorExamples.rng_low
    SelectorExamples.weights OPEN 3 7 "jd" None None
  = Ok [SelectorExamples.q1; SelectorExamples.q2; SelectorExamples.q3]
  ∧ (overlap_threshold
       < compute_jaccard_similarity (topic_set SelectorExamples.q1)
           (topic_set SelectorExamples.q3))%Q
  ∧ fst <$> SelectorExamples.pool
    = [SelectorExamples.q1; SelectorExamples.q2; SelectorExamples.q3;
       SelectorExamples.q4; SelectorExamples.q5]
  ∧ forallb (λ alt,
       forallb (λ s, Qeq_bool (compute_jaccard_similarity (topic_set s) (topic_set alt)) 0)
         [SelectorExamples.q1; SelectorExamples.q2; SelectorExamples.q3])
       [SelectorExamples.q4; SelectorExamples.q5]
    = true.
Proof. vm_compute. repeat split. Qed.

End SelectorFacts.

(** * Properties of the readiness aggregator *)

Module ReadinessFacts.
Import Readiness.

(** ** Float facts *)

Lemma SFmul_comm prec emax x y : SFmul prec emax x y = SFmul prec emax y x.
Proof.
  destruct x as [sx|sx| |sx mx ex], y as [sy|sy| |sy my ey]; unfold SFmul;
    try reflexivity; try (by rewrite xorb_comm).
  by rewrite xorb_comm, Pos.mul_comm, Z.add_comm.
Qed.

Lemma float_mul_comm (x y : float) : (x * y = y * x)%float.
Proof. apply Prim2SF_inj. rewrite !mul_spec. apply SFmul_comm. Qed.

Lemma ltb_leb (x y : float) : (x <? y)%float = true → (x <=? y)%float = true.
Proof.
  rewrite ltb_spec, leb_spec. unfold SFltb, SFleb.
  by destruct (SFcompare _ _) as [[]|].
Qed.

(** [max(0.0, min(100.0, x))] lies in [[0, 100]], whatever [x] is. *)
Lemma clamp_range (x : float) :
  (0 <=? py_max 0 (py_min 100 x))%float = true
  ∧ (py_max 0 (py_min 100 x) <=? 100)%float = true.
Proof.
  unfold py_max, py_min.
  destruct (x <? 100)%float eqn:Hx.
  - destruct (0 <? x)%float eqn:H0.
    + split; by apply ltb_leb.
    + by vm_compute.
  - by vm_compute.
Qed.

(** ** The most recent row *)

Lemma head_sort_desc_by {A : Type} (key : A → Z) (l : list A) :
  match head (sort_desc_by key l) with
  | None => l = []
  | Some a => a ∈ l ∧ ∀ b, b ∈ l → (key b ≤ key a)%Z
  end.
Proof.
  unfold sort_desc_by, stable_sort.
  induction l as [|x l IH]; simpl; [done|].
  destruct (foldr _ [] l) as [|y sorted] eqn:E; simpl in *.
  - subst l. split; [left|]. intros b Hb. apply list_elem_of_singleton in Hb as ->. lia.
  - destruct IH as [Hy Hmax].
    destruct (key x <? key y)%Z eqn:Hlt; simpl.
    + apply Z.ltb_lt in Hlt. split; [by right|].
      intros b Hb. apply elem_of_cons in Hb as [->|Hb]; [lia|auto].
    + apply Z.ltb_ge in Hlt. split; [left|].
      intros b Hb. apply elem_of_cons in Hb as [->|Hb]; [lia|].
      specialize (Hmax b Hb). lia.
Qed.

Lemma latest_analysis_none db user job :
  latest_analysis db user job = None ↔
  ∀ a, a ∈ cv_analysis_results db → ¬ (cv_user_id a = user ∧ cv_job_spec_id a = job).
Proof.
  unfold latest_analysis.
  set (rows := List.filter _ _).
  pose proof (head_sort_desc_by cv_created_at rows) as Hhead.
  assert (Hrows : ∀ a, a ∈ rows ↔
            a ∈ cv_analysis_results db ∧ cv_user_id a = user ∧ cv_job_spec_id a = job).
  { intros a. unfold rows.
    rewrite !list_elem_of_In, filter_In, andb_true_iff, !bool_decide_eq_true. done. }
  destruct (head _) as [a|].
  - split; [done|]. intros Hnone. destruct Hhead as [Ha _].
    apply Hrows in Ha as (Ha & Hu & Hj). by destruct (Hnone a Ha).
  - split; [|done]. intros _ a Ha [Hu Hj].
    assert (Hin : a ∈ rows) by by apply Hrows.
    rewrite Hhead in Hin. by apply not_elem_of_nil in Hin.
Qed.

Lemma latest_analysis_some db user job a :
  latest_analysis db user job = Some a →
  a ∈ cv_analysis_results db ∧ cv_user_id a = user ∧ cv_job_spec_id a = job
  ∧ ∀ b, b ∈ cv_analysis_results db → cv_user_id b = user → cv_job_spec_id b = job →
         (cv_created_at b ≤ cv_created_at a)%Z.
Proof.
  unfold latest_analysis.
  set (rows := List.filter _ _).
  pose proof (head_sort_desc_by cv_created_at rows) as Hhead.
  assert (Hrows : ∀ a, a ∈ rows ↔
            a ∈ cv_analysis_results db ∧ cv_user_id a = user ∧ cv_job_spec_id a = job).
  { intros b. unfold rows.
    rewrite !list_elem_of_In, filter_In, andb_true_iff, !bool_decide_eq_true. done. }
  intros E. rewrite E in Hhead. destruct Hhead as [Ha Hmax].
  apply Hrows in Ha as (Ha & Hu & Hj). repeat split; try done.
  intros b Hb Hbu Hbj. apply Hmax, Hrows. done.
Qed.

(** ** Results *)

(** C2, as the code has it.  With no job spec, or no analysis for the user
    and job, [cv_score] is 0.  Otherwise it is computed from the most recent
    analysis: the match score times 100, plus a coverage bonus of
    [2 × strengths − gaps] capped at 10 from above only, the sum clamped to
    [[0, 100]]. *)
Theorem cv_score_spec db user job_spec_id :
  (truthy_id job_spec_id = None → _compute_cv_score db user job_spec_id = 0%float)
  ∧ (∀ job, truthy_id job_spec_id = Some job →
       (∀ a, a ∈ cv_analysis_results db →
             ¬ (cv_user_id a = user ∧ cv_job_spec_id a = job)) →
       _compute_cv_score db user job_spec_id = 0%float)
  ∧ (∀ job, truthy_id job_spec_id = Some job →
       (∃ a, a ∈ cv_analysis_results db ∧ cv_user_id a = user ∧ cv_job_spec_id a = job) →
       ∃ latest,
         latest ∈ cv_analysis_results db
         ∧ cv_user_id latest = user ∧ cv_job_spec_id latest = job
         ∧ (∀ b, b ∈ cv_analysis_results db → cv_user_id b = user →
                 cv_job_spec_id b = job → (cv_created_at b ≤ cv_created_at latest)%Z)
         ∧ _compute_cv_score db user job_spec_id
           = py_max 0
               (py_min 100
                  (cv_match_score latest * 100
                   + py_min 10 (float_of_nat (length (cv_strengths latest)) * 2
                                - float_of_nat (length (cv_gaps latest)) * 1)))%float)
  ∧ ((0 <=? _compute_cv_score db user job_spec_id)%float = true
     ∧ (_compute_cv_score db user job_spec_id <=? 100)%float = true).
Proof.
  unfold _compute_cv_score. split; [|split; [|split]].
  - by intros ->.
  - intros job -> Hnone. apply latest_analysis_none in Hnone. by rewrite Hnone.
  - intros job -> (a & Ha & Hu & Hj).
    destruct (latest_analysis db user job) as [latest|] eqn:E.
    + apply latest_analysis_some in E as (Hin & Hlu & Hlj & Hmax).
      exists latest. done.
    + exfalso. rewrite latest_analysis_none in E. by apply (E a Ha).
  - destruct (truthy_id job_spec_id) as [job|]; [|by vm_compute].
    destruct (latest_analysis db user job) as [latest|]; [|by vm_compute].
    apply clamp_range.
Qed.

Lemma cv_score_spec_witness :
  _compute_cv_score ReadinessExamples.gaps_only "u" None = 0%float
  ∧ _compute_cv_score ReadinessExamples.gaps_only "v" (Some "job") = 0%float
  ∧ ∃ latest,
      latest ∈ cv_analysis_results ReadinessExamples.gaps_only
      ∧ _compute_cv_score ReadinessExamples.gaps_only "u" (Some "job")
        = py_max 0
            (py_min 100
               (cv_match_score latest * 100
                + py_min 10 (float_of_nat (length (cv_strengths latest)) * 2
                             - float_of_nat (length (cv_gaps latest)) * 1)))%float.
Proof.
  split; [|split].
  - apply (cv_score_spec ReadinessExamples.gaps_only "u" None). reflexivity.
  - apply (cv_score_spec ReadinessExamples.gaps_only "v" (Some "job")) with "job";
      [reflexivity|].
    intros a Ha [Hu _]. apply list_elem_of_singleton in Ha as ->. by vm_compute in Hu.
  - destruct (cv_score_spec ReadinessExamples.gaps_only "u" (Some "job"))
      as (_ & _ & Hsome & _).
    destruct (Hsome "job" eq_refl) as (latest & Hin & _ & _ & _ & Hscore).
    + eexists. split; [left|]. by vm_compute.
    + exists latest. done.
Defined.

(** C2 as stated fails: with a match of 0.5, no strength and three gaps the
    bonus is -3 and the code returns 47, where a bonus clamped to [[0, 10]]
    gives 50. *)
Lemma coverage_bonus_counterexample :
  _compute_cv_score ReadinessExamples.gaps_only "u" (Some "job") = 47%float
  ∧ cv_score_claimed 0.5 0 3 = 50%float
  ∧ coverage_bonus [] ["g1"; "g2"; "g3"] = (-3)%float.
Proof. vm_compute. repeat split. Qed.

(** C4. The readiness score of a snapshot is
    [0.4 × cv_score + 0.5 × interview_score + 0.1 × practice_score], on the
    three scores the snapshot stores; for 80, 60 and 20 it is exactly 64.0. *)
Theorem readiness_weighted_sum db now user job_spec_id :
  let snap := (compute_readiness_snapshot db now user job_spec_id).2 in
  readiness_score snap
  = (0.4 * cv_score snap + 0.5 * interview_score snap + 0.1 * practice_score snap)%float
  ∧ cv_score snap = _compute_cv_score db user job_spec_id
  ∧ interview_score snap = _compute_interview_score db user job_spec_id
  ∧ practice_score snap = _compute_practice_score db now user job_spec_id
  ∧ (cv_score snap = 80%float → interview_score snap = 60%float →
     practice_score snap = 20%float → readiness_score snap = 64%float).
Proof.
  simpl. split; [|split; [|split; [|split]]]; try reflexivity.
  - by rewrite (float_mul_comm 0.4), (float_mul_comm 0.5), (float_mul_comm 0.1).
  - intros -> -> ->. by vm_compute.
Qed.

Lemma readiness_weighted_sum_witness :
  readiness_score
    (compute_readiness_snapshot ReadinessExamples.steady
       ReadinessExamples.steady_now "u" (Some "job")).2 = 64%float.
Proof.
  destruct (readiness_weighted_sum ReadinessExamples.steady
              ReadinessExamples.steady_now "u" (Some "job")) as (_ & _ & _ & _ & H64).
  apply H64; vm_compute; reflexivity.
Defined.

End ReadinessFacts.

(** * Properties of the turn state machine *)

Module AgentFacts.
Import Agent.

Lemma load_save state w :
  _load_state (interview_session (_save_state state w)) = core state.
Proof. reflexivity. Qed.

Lemma resumed_core w : core (resumed w) = resumed w.
Proof. reflexivity. Qed.

Lemma resumed_no_refined w key : refined (resumed w) !! key = None.
Proof. unfold resumed, _load_state. simpl. apply lookup_empty. Qed.

Lemma py_index_ok {A : Type} (l : list A) (i : Z) :
  (- Z.of_nat (length l) ≤ i < Z.of_nat (length l))%Z → ∃ x, py_index l i = Ok x.
Proof.
  intros [Hlo Hhi]. unfold py_index.
  set (j := if (i <? 0)%Z then (i + Z.of_nat (length l))%Z else i).
  assert (Hj : (0 ≤ j < Z.of_nat (length l))%Z).
  { unfold j. destruct (i <? 0)%Z eqn:E; [apply Z.ltb_lt in E|apply Z.ltb_ge in E]; lia. }
  destruct (j <? 0)%Z eqn:E; [apply Z.ltb_lt in E; lia|].
  destruct (l !! Z.to_nat j) as [x|] eqn:El; [eauto|].
  apply lookup_ge_None in El. lia.
Qed.

Lemma py_index_range {A : Type} (l : list A) (i : Z) x :
  py_index l i = Ok x → (- Z.of_nat (length l) ≤ i < Z.of_nat (length l))%Z.
Proof.
  unfold py_index.
  set (j := if (i <? 0)%Z then (i + Z.of_nat (length l))%Z else i).
  destruct (j <? 0)%Z eqn:E; [done|]. apply Z.ltb_ge in E.
  destruct (l !! Z.to_nat j) as [y|] eqn:El; [|done]. intros _.
  apply lookup_lt_Some in El. unfold j in *.
  destruct (i <? 0)%Z eqn:Ei; [apply Z.ltb_lt in Ei|apply Z.ltb_ge in Ei]; lia.
Qed.

(** A turn that found its question has an index no lower than [-len(plan)]:
    the next index is one Python can read or is past the end. *)
Lemma turn_question_range plan_items w found :
  turn_question plan_items w = Some found →
  (- Z.of_nat (length plan_items) ≤ question_index (resumed w))%Z.
Proof.
  unfold turn_question, current_plan_item. fold (resumed w).
  destruct (decide _) as [Hlt|Hge]; [|lia].
  destruct (py_index _ _) as [item|e] eqn:E; [|done].
  apply py_index_range in E. lia.
Qed.

Section AgentFacts.
Variable RoleProfile : Type.
Variable AgentContext : Type.
Variable call_llm : nat -> Prompt -> LlmOutcome.
Variable build_context_from_request :
  string -> QuestionBank -> InterviewNextRequest -> list PlanItem -> RoleProfile ->
  ConversationState -> string -> string -> AgentContext.
Variable reasoning_loop_run : nat -> AgentContext -> option AgentDecision.
Variable uuid4 : nat -> string.

#[local] Abbreviation process_turn :=
  (process_turn RoleProfile AgentContext call_llm build_context_from_request
     reasoning_loop_run uuid4).
#[local] Abbreviation _process_decision := (_process_decision call_llm).
#[local] Abbreviation _get_next_question_data := (_get_next_question_data call_llm).
#[local] Abbreviation _refine_and_translate := (_refine_and_translate call_llm).

(** ** The refinement step *)

Lemma refine_english_calls calls text type :
  (refine_english call_llm calls text type).2 = S calls.
Proof.
  unfold refine_english. destruct (call_llm _ _) as [|r]; [done|].
  by destruct (_ && _).
Qed.

(** Every refinement calls the LLM at least once. *)
Lemma refine_calls calls text type language :
  (calls < (_refine_and_translate calls text type language).2)%nat.
Proof.
  unfold Agent._refine_and_translate.
  destruct (_ && _).
  - destruct (call_llm _ _) as [|r]; simpl; [lia|].
    destruct (_ && _); simpl; [lia|]. rewrite refine_english_calls. lia.
  - rewrite refine_english_calls. lia.
Qed.

(** ** The next question *)

Lemma get_next_ok next_index plan_items language state w :
  (- Z.of_nat (length plan_items) ≤ next_index)%Z →
  ∃ w2 state2 data,
    _get_next_question_data next_index plan_items language state w
    = Ok (w2, state2, data)
    ∧ interview_turns w2 = interview_turns w
    ∧ ended_at (interview_session w2) = ended_at (interview_session w)
    ∧ (llm_calls w ≤ llm_calls w2)%nat
    ∧ (resumed w = core state → resumed w2 = core state).
Proof.
  intros Hpos. unfold Agent._get_next_question_data.
  destruct (decide _) as [|Hlt]; [by eexists _, _, _|].
  destruct (py_index_ok plan_items next_index) as [item ->]; [lia|]. simpl.
  destruct (selected_question_id item ≫= _) as [next_question|];
    [|by eexists _, _, _].
  destruct (refined state !! _) as [text|]; [by eexists _, _, _|].
  pose proof (refine_calls (llm_calls w) (question_text next_question)
                (default "open" (item_type item)) language) as Hcalls.
  destruct (Agent._refine_and_translate _ _ _ _ _) as [text calls].
  eexists _, _, _. split; [reflexivity|]. simpl in *. repeat split. lia.
Qed.

(** ** The decision step *)

Lemma decision_followup now d question_id question_index followup_count
    previous_followups plan_items state language w text :
  action d = "followup" → followup_question d = Some text → text ≠ "" →
  ∃ resp,
    _process_decision now d question_id question_index followup_count
      previous_followups plan_items state language w
    = Ok (_save_state
            (mkState question_id (followup_count + 1) (Agent.question_index state)
               (satisfaction_score d) (previous_followups ++ [text]) (refined state))
            w, resp)
    ∧ is_done resp = false
    ∧ resp_followup_question resp = Some text.
Proof.
  intros Ha Hf Hne. unfold Agent._process_decision.
  rewrite Ha, Hf. simpl. destruct text; [done|]. simpl.
  eexists. split; [reflexivity|]. done.
Qed.

Lemma decision_advance now d question_id question_index followup_count
    previous_followups plan_items state language w :
  is_advance d → (- Z.of_nat (length plan_items) ≤ question_index + 1)%Z →
  ∃ w' resp,
    _process_decision now d question_id question_index followup_count
      previous_followups plan_items state language w
    = Ok (w', resp)
    ∧ resumed w'
      = mkState (current_question_id state) 0 (question_index + 1)
          (initial_answer_score state) [] ∅
    ∧ interview_turns w' = interview_turns w
    ∧ ended_at (interview_session w') = ended_at (interview_session w)
    ∧ is_done resp = bool_decide (Z.of_nat (length plan_items) ≤ question_index + 1)%Z
    ∧ agent_decision resp = Some (action d)
    ∧ agent_confidence resp = Some (satisfaction_score d).
Proof.
  intros (Hf & Hh & He) Hpos. unfold Agent._process_decision.
  destruct (bool_decide (action d = "followup") && truthy (followup_question d)) eqn:E.
  { apply andb_true_iff in E as [E1 E2]. apply bool_decide_eq_true in E1.
    rewrite (Hf E1) in E2. done. }
  rewrite (bool_decide_eq_false_2 _ Hh), (bool_decide_eq_false_2 _ He).
  set (state1 := mkState _ _ _ _ _ _).
  destruct (get_next_ok (question_index + 1) plan_items language state1
              (_save_state state1 w) Hpos)
    as (w2 & state2 & data & -> & Hturns & Hended & _ & Hres).
  simpl. eexists _, _. split; [reflexivity|].
  split; [|done].
  specialize (Hres eq_refl). unfold resumed in *. simpl. exact Hres.
Qed.

(** For an index Python can read the next item of (or past the end), the
    decision step returns, whatever the decision; it adds no turn. *)
Lemma decision_total now d question_id question_index followup_count
    previous_followups plan_items state language w :
  (- Z.of_nat (length plan_items) ≤ question_index + 1)%Z →
  ∃ w' resp,
    _process_decision now d question_id question_index followup_count
      previous_followups plan_items state language w
    = Ok (w', resp)
    ∧ interview_turns w' = interview_turns w
    ∧ (llm_calls w ≤ llm_calls w')%nat.
Proof.
  intros Hpos. unfold Agent._process_decision.
  destruct (_ && _); [by eexists _, _|].
  destruct (bool_decide (action d = "hint")); [by eexists _, _|].
  destruct (bool_decide (action d = "end")); [by eexists _, _|].
  set (state1 := mkState _ _ _ _ _ _).
  destruct (get_next_ok (question_index + 1) plan_items language state1
              (_save_state state1 w) Hpos)
    as (w2 & state2 & data & -> & Hturns & _ & Hcalls & _).
  simpl. eexists _, _. split; [reflexivity|]. done.
Qed.

(** ** From the start of a turn to its decision *)

Lemma process_turn_complete now request plan_items role_profile w :
  complete plan_items (resumed w) →
  ∃ resp,
    process_turn now request plan_items role_profile w = Ok (set_ended_at now w, resp)
    ∧ is_done resp = true.
Proof.
  intros Hc. unfold Agent.process_turn.
  destruct (decide _) as [_|Hn]; [|by destruct Hn].
  eexists. split; [reflexivity|done].
Qed.

Lemma process_turn_step now request plan_items role_profile w question_id item q :
  ¬ complete plan_items (resumed w) →
  turn_question plan_items w = Some (question_id, item, q) →
  ∃ turn state1 w3 context,
    process_turn now request plan_items role_profile w
    = _process_decision now (agent_analysis turn) question_id
        (question_index (resumed w)) (followup_count (resumed w))
        (previous_followups (resumed w)) plan_items state1
        (session_language (interview_session w)) w3
    ∧ interview_turns w3 = interview_turns w ++ [turn]
    ∧ agent_analysis turn
      = default fallback_decision (reasoning_loop_run (reasoning_calls w) context)
    ∧ score_overall turn = satisfaction_score (agent_analysis turn)
    ∧ question_number turn = question_index (resumed w)
    ∧ question_snapshot turn
      = (_refine_and_translate (llm_calls w) (question_text q)
           (default "open" (item_type item))
           (session_language (interview_session w))).1
    ∧ (llm_calls w < llm_calls w3)%nat
    ∧ core state1 = resumed w
    ∧ resumed w3 = resumed w
    ∧ ended_at (interview_session w3) = ended_at (interview_session w).
Proof.
  intros Hnc Hq. unfold Agent.process_turn, turn_question, complete, resumed in *.
  assert (Href : ∀ k, refined (_load_state (interview_session w)) !! k = None)
    by (intros k; apply lookup_empty).
  assert (Hcore : core (_load_state (interview_session w))
                  = _load_state (interview_session w)) by reflexivity.
  set (st := _load_state (interview_session w)) in *. clearbody st.
  destruct (decide (_ ∧ _)) as [Hc|_]; [exfalso; apply Hnc; exact Hc|].
  destruct (current_plan_item _ _) as [plan_item|e]; [|done]. simpl.
  destruct (_ ≫= _) as [question|]; [|done]. simpl in Hq. injection Hq as <- <- <-.
  rewrite Href.
  pose proof (refine_calls (llm_calls w) (question_text question)
                (default "open" (item_type plan_item))
                (session_language (interview_session w))) as Hcalls.
  destruct (Agent._refine_and_translate _ _ _ _ _) as [text calls] eqn:Eref.
  simpl in Hcalls. cbv beta iota zeta.
  lazymatch goal with
  | |- context [Agent._process_decision _ _
                  (default _ (reasoning_loop_run _ ?ctx)) _ _ _ _ _ ?s1 _
                  (add_turn ?t ?w2)] =>
    exists t, s1, (add_turn t w2), ctx
  end.
  split; [reflexivity|]. repeat split; done.
Qed.

(** A turn that reaches its question returns, records one turn, and has
    called the LLM again to refine the question: the recorded text is what
    that call gave, whatever the stored state held for the slot. *)
Lemma process_turn_total now request plan_items role_profile w question_id item q :
  ¬ complete plan_items (resumed w) →
  turn_question plan_items w = Some (question_id, item, q) →
  ∃ w' resp turn,
    process_turn now request plan_items role_profile w = Ok (w', resp)
    ∧ interview_turns w' = interview_turns w ++ [turn]
    ∧ (llm_calls w < llm_calls w')%nat
    ∧ question_snapshot turn
      = (_refine_and_translate (llm_calls w) (question_text q)
           (default "open" (item_type item))
           (session_language (interview_session w))).1.
Proof.
  intros Hnc Hq. pose proof (turn_question_range _ _ _ Hq) as Hpos.
  destruct (process_turn_step now request plan_items role_profile w _ _ _ Hnc Hq)
    as (turn & state1 & w3 & ctx & -> & Hturns & _ & _ & _ & Hsnap & Hcalls & _).
  edestruct decision_total as (w' & resp & -> & Hturns' & Hcalls'); [|
    exists w', resp, turn; split; [reflexivity|]].
  - lia.
  - rewrite Hturns', Hturns. repeat split; [lia|done].
Qed.

(** ** Results *)


Lemma advance_is_advance d : action d = "advance" → is_advance d.
Proof. intros Ha. unfold is_advance. rewrite Ha. by repeat split. Qed.

(** The answer to an advance from the last plan item already carries
    [is_done = true]; only the [ended_at] stamp waits for the next call. *)
Lemma advance_from_last_item_reports_done now request plan_items role_profile w
    question_id item q :
  (question_index (resumed w) + 1)%Z = Z.of_nat (length plan_items) →
  turn_question plan_items w = Some (question_id, item, q) →
  (∀ context,
     is_advance (default fallback_decision
                   (reasoning_loop_run (reasoning_calls w) context))) →
  ∃ w1 resp1,
    process_turn now request plan_items role_profile w = Ok (w1, resp1)
    ∧ is_done resp1 = true
    ∧ ended_at (interview_session w1) = ended_at (interview_session w).
Proof.
  intros Hlast Hq Hadv.
  assert (Hnc : ¬ complete plan_items (resumed w)) by (intros [_ Hle]; lia).
  destruct (process_turn_step now request plan_items role_profile w _ _ _ Hnc Hq)
    as (turn & state1 & w3 & ctx & -> & _ & Hd & _ & _ & _ & _ & _ & _ & Hend).
  specialize (Hadv ctx). rewrite <- Hd in Hadv.
  edestruct decision_advance
    as (w1 & resp1 & -> & _ & _ & Hend1 & Hdone & _); [exact Hadv|lia|].
  exists w1, resp1. split; [reflexivity|]. split; [|congruence].
  rewrite Hdone. apply bool_decide_eq_true. lia.
Qed.

Lemma followup_without_question_is_advance d :
  action d = "followup" → truthy (followup_question d) = false → is_advance d.
Proof. intros Ha Hf. unfold is_advance. rewrite Ha. by repeat split. Qed.

(** C5, as the code has it.  A turn that reaches its question records one
    turn.  When the recorded decision is a follow-up carrying a non-empty
    question, [followup_count] grows by 1, [question_index] is unchanged,
    the question is appended to [previous_followups] and the satisfaction
    score is stored as [initial_answer_score].  When it is an advance, or a
    follow-up without a question, [followup_count] is reset to 0,
    [previous_followups] is cleared and [question_index] grows by 1. *)
Theorem decision_transitions now request plan_items role_profile w question_id item q :
  ¬ complete plan_items (resumed w) →
  turn_question plan_items w = Some (question_id, item, q) →
  ∃ w' resp turn,
    process_turn now request plan_items role_profile w = Ok (w', resp)
    ∧ interview_turns w' = interview_turns w ++ [turn]
    ∧ (∀ text,
         action (agent_analysis turn) = "followup" →
         followup_question (agent_analysis turn) = Some text → text ≠ "" →
         followup_count (resumed w') = (followup_count (resumed w) + 1)%Z
         ∧ question_index (resumed w') = question_index (resumed w)
         ∧ previous_followups (resumed w') = previous_followups (resumed w) ++ [text]
         ∧ initial_answer_score (resumed w') = satisfaction_score (agent_analysis turn))
    ∧ (action (agent_analysis turn) = "advance"
       ∨ (action (agent_analysis turn) = "followup"
          ∧ truthy (followup_question (agent_analysis turn)) = false) →
       followup_count (resumed w') = 0%Z
       ∧ previous_followups (resumed w') = []
       ∧ question_index (resumed w') = (question_index (resumed w) + 1)%Z).
Proof.
  intros Hnc Hq. pose proof (turn_question_range _ _ _ Hq) as Hpos.
  destruct (process_turn_step now request plan_items role_profile w _ _ _ Hnc Hq)
    as (turn & state1 & w3 & ctx & Heq & Hturns & _ & _ & _ & _ & _ & Hcore & _ & _).
  edestruct decision_total as (w' & resp & Hrun & Hturns' & _);
    [|exists w', resp, turn; rewrite Heq; split; [exact Hrun|]]; [lia|].
  split; [by rewrite Hturns', Hturns|]. split.
  - intros text Ha Hf Hne.
    edestruct decision_followup as (resp' & Hrun' & _); [exact Ha|exact Hf|exact Hne|].
    rewrite Hrun' in Hrun. injection Hrun as <- <-.
    unfold resumed at 1 3 5 7. rewrite load_save.
    cbn [core followup_count question_index previous_followups initial_answer_score].
    repeat split. by rewrite <- Hcore.
  - intros Hadv.
    assert (Hadv' : is_advance (agent_analysis turn)).
    { destruct Hadv as [Ha|[Ha Hf]];
        [by apply advance_is_advance|by apply followup_without_question_is_advance]. }
    edestruct decision_advance as (w1 & resp1 & Hrun1 & Hres & _); [exact Hadv'| |].
    2:{ rewrite Hrun1 in Hrun. injection Hrun as <- <-. rewrite Hres. done. }
    lia.
Qed.

(** C6. When the reasoning loop raises, the turn still returns: it records a
    turn with the fallback decision, an advance scored 0.5, answers with
    that decision, and stores the next question index. *)
Theorem reasoning_failure_advances now request plan_items role_profile w
    question_id item q :
  ¬ complete plan_items (resumed w) →
  turn_question plan_items w = Some (question_id, item, q) →
  (∀ context, reasoning_loop_run (reasoning_calls w) context = None) →
  ∃ w' resp turn,
    process_turn now request plan_items role_profile w = Ok (w', resp)
    ∧ interview_turns w' = interview_turns w ++ [turn]
    ∧ agent_analysis turn = fallback_decision
    ∧ action (agent_analysis turn) = "advance"
    ∧ score_overall turn = 0.5%float
    ∧ agent_decision resp = Some "advance"
    ∧ agent_confidence resp = Some 0.5%float
    ∧ followup_count (resumed w') = 0%Z
    ∧ previous_followups (resumed w') = []
    ∧ question_index (resumed w') = (question_index (resumed w) + 1)%Z.
Proof.
  intros Hnc Hq Hfail. pose proof (turn_question_range _ _ _ Hq) as Hpos.
  destruct (process_turn_step now request plan_items role_profile w _ _ _ Hnc Hq)
    as (turn & state1 & w3 & ctx & Heq & Hturns & Hd & Hscore & _ & _ & _ & _ & _ & _).
  rewrite Hfail in Hd. simpl in Hd.
  edestruct decision_advance
    as (w' & resp & Hrun & Hres & Hturns' & _ & _ & Hdec & Hconf);
    [|  |exists w', resp, turn; rewrite Heq; split; [exact Hrun|]].
  - apply advance_is_advance. by rewrite Hd.
  - lia.
  - rewrite Hturns', Hturns, Hres, Hdec, Hconf, Hscore, Hd. by repeat split.
Qed.

End AgentFacts.


Lemma decision_transitions_witness :
  ∃ w' resp turn,
    AgentExamples.run AgentExamples.asks_followup 10 AgentExamples.fresh = Ok (w', resp)
    ∧ interview_turns w' = [turn]
    ∧ followup_count (resumed w') = 1%Z
    ∧ question_index (resumed w') = 0%Z
    ∧ previous_followups (resumed w') = ["Why?"]
    ∧ initial_answer_score (resumed w') = 0.3%float.
Proof.
  destruct (decision_transitions unit unit AgentExamples.numbered_llm
              AgentExamples.no_context AgentExamples.asks_followup AgentExamples.ids
              10 AgentExamples.request AgentExamples.plan tt AgentExamples.fresh
              (Some "open:1") (mkPlanItem (Some "open:1") (Some "open"))
              (mkQuestion "open:1" "Explain hashing." ["hashing"]))
    as (w' & resp & turn & Hrun & Hturns & Hfollow & _).
  - vm_compute. intros [_ Hle]. by apply Hle.
  - reflexivity.
  - exists w', resp, turn. split; [exact Hrun|]. split; [exact Hturns|].
    assert (Hd : agent_analysis turn
                 = mkDecision "followup" (Some "Good start.") (Some "Why?") 0.3 []).
    { unfold AgentExamples.run in Hrun. vm_compute in Hrun. injection Hrun as <- _.
      vm_compute in Hturns. by injection Hturns as <-. }
    destruct (Hfollow "Why?") as (H1 & H2 & H3 & H4);
      [by rewrite Hd|by rewrite Hd|done|].
    rewrite H1, H2, H3, H4, Hd. done.
Defined.


(** C5 as stated fails: a follow-up decision that carries no question takes
    the default branch.  From [(question_index, followup_count) = (0, 0)] the
    stored state becomes [(1, 0)]. *)
Lemma followup_without_question_counterexample :
  let w1 := AgentExamples.after AgentExamples.followup_without_text 10
              AgentExamples.fresh in
  (λ t, action (agent_analysis t)) <$> interview_turns w1 = ["followup"]
  ∧ (question_index (resumed AgentExamples.fresh),
     followup_count (resumed AgentExamples.fresh)) = (0%Z, 0%Z)
  ∧ (question_index (resumed w1), followup_count (resumed w1)) = (1%Z, 0%Z).
Proof. vm_compute. repeat split. Qed.

Lemma reasoning_failure_advances_witness :
  ∃ w' resp turn,
    AgentExamples.run AgentExamples.always_fails 10 AgentExamples.fresh = Ok (w', resp)
    ∧ interview_turns w' = [turn]
    ∧ score_overall turn = 0.5%float
    ∧ agent_decision resp = Some "advance"
    ∧ question_index (resumed w') = 1%Z.
Proof.
  destruct (reasoning_failure_advances unit unit AgentExamples.numbered_llm
              AgentExamples.no_context AgentExamples.always_fails AgentExamples.ids
              10 AgentExamples.request AgentExamples.plan tt AgentExamples.fresh
              (Some "open:1") (mkPlanItem (Some "open:1") (Some "open"))
              (mkQuestion "open:1" "Explain hashing." ["hashing"]))
    as (w' & resp & turn & Hrun & Hturns & _ & _ & Hscore & Hdec & _ & _ & _ & Hqi).
  - vm_compute. intros [_ Hle]. by apply Hle.
  - reflexivity.
  - reflexivity.
  - exists w', resp, turn. done.
Defined.

(** C8 fails on the code: [_load_state] rebuilds the state from its five
    fixed keys, so the stored ["refined_q_<index>"] text is never read back.
    Two turns on slot 0 call the LLM twice and record two different texts,
    although the state stored after the first turn holds the first text. *)
Lemma refinement_repeated_on_same_slot :
  let w1 := AgentExamples.after AgentExamples.asks_followup 10 AgentExamples.fresh in
  let w2 := AgentExamples.after AgentExamples.asks_followup 20 w1 in
  question_snapshot <$> interview_turns w2 = ["v0"; "v1"]
  ∧ question_number <$> interview_turns w2 = [0%Z; 0%Z]
  ∧ llm_calls w1 = 1%nat
  ∧ llm_calls w2 = 2%nat
  ∧ (js_refined <$> conversation_state_json (interview_session w1))
    = Some {[ "refined_q_0" := "v0" ]}
  ∧ question_index (resumed w1) = 0%Z ∧ followup_count (resumed w1) = 1%Z.
Proof. vm_compute. repeat split. Qed.

End AgentFacts.

(** * More on the question selector *)

Module SelectorMore.
Import Selector SelectorViews.

(** ** More on Jaccard similarity *)

Section JaccardMore.
Context `{Countable K}.
Implicit Types A B : gset K.

Lemma inject_nat_pos (n : nat) : (0 < n)%nat → (0 < inject_Z (Z.of_nat n))%Q.
Proof. intros Hn. change 0%Q with (inject_Z 0). rewrite <- Zlt_Qlt. lia. Qed.

Lemma ratio_times (i u : nat) (c : Q) :
  (0 < u)%nat →
  (inject_Z (Z.of_nat i) / inject_Z (Z.of_nat u) == c)%Q →
  (inject_Z (Z.of_nat i) == inject_Z (Z.of_nat u) * c)%Q.
Proof.
  intros Hu E. rewrite <- E. symmetry. apply Qmult_div_r.
  intros E0. pose proof (inject_nat_pos u Hu) as Hp. rewrite E0 in Hp.
  by apply Qlt_irrefl in Hp.
Qed.

(** X1. The similarity does not depend on the order of its arguments. *)
Theorem jaccard_symmetric A B :
  compute_jaccard_similarity A B = compute_jaccard_similarity B A.
Proof.
  unfold compute_jaccard_similarity.
  assert (EI : A ∩ B = B ∩ A) by set_solver.
  assert (EU : A ∪ B = B ∪ A) by set_solver.
  by rewrite EI, EU.
Qed.

(** X2. The similarity is 0 exactly when the sets share no element, and 1
    exactly when they are the same non-empty set. *)
Theorem jaccard_extremes A B :
  ((compute_jaccard_similarity A B == 0)%Q ↔ A ∩ B = ∅)
  ∧ ((compute_jaccard_similarity A B == 1)%Q ↔ A = B ∧ A ≠ ∅).
Proof.
  unfold compute_jaccard_similarity.
  destruct (decide (0 < size (A ∪ B))%nat) as [Hpos|Hzero].
  - split; split.
    + intros E. apply ratio_times in E; [|done]. rewrite Qmult_0_r in E.
      change 0%Q with (inject_Z 0) in E. apply (proj1 (inject_Z_injective _ _)) in E.
      apply leibniz_equiv, size_empty_inv. lia.
    + intros ->. rewrite size_empty. unfold Qdiv. simpl. ring.
    + intros E. apply ratio_times in E; [|done]. rewrite Qmult_1_r in E.
      apply (proj1 (inject_Z_injective _ _)) in E.
      assert (Eset : A ∩ B = A ∪ B).
      { apply set_subseteq_size_eq; [set_solver|lia]. }
      split; [set_solver|]. intros ->.
      rewrite union_empty_l_L in Eset. rewrite intersection_empty_l_L in Eset.
      rewrite union_empty_l_L, <- Eset, size_empty in Hpos. lia.
    + intros [-> Hne].
      assert (EI : B ∩ B = B) by set_solver.
      assert (EU : B ∪ B = B) by set_solver.
      rewrite EI, EU in *. apply Qmult_inv_r.
      intros E0. pose proof (inject_nat_pos _ Hpos) as Hp. rewrite E0 in Hp.
      by apply Qlt_irrefl in Hp.
  - assert (Hemp : A ∪ B = ∅).
    { apply leibniz_equiv, size_empty_inv. lia. }
    split; split.
    + intros _. set_solver.
    + done.
    + intros E. discriminate E.
    + intros [-> Hne]. exfalso. apply Hne. set_solver.
Qed.

End JaccardMore.

(** ** The match score *)

Lemma ascii_lower_idem c : ascii_lower (ascii_lower c) = ascii_lower c.
Proof. by destruct c as [[] [] [] [] [] [] [] []]. Qed.

Lemma lower_idem s : lower (lower s) = lower s.
Proof. induction s as [|c s IH]; simpl; [done|]. by rewrite ascii_lower_idem, IH. Qed.

Lemma find_elem {A : Type} (f : A → bool) (l : list A) x :
  List.find f l = Some x → x ∈ l.
Proof. intros Hf. apply find_some in Hf as [Hin _]. by apply list_elem_of_In. Qed.

Lemma add_topic_step tw score topic :
  weights_in_unit tw →
  (score <= add_topic tw score topic <= score + 1)%Q.
Proof.
  intros Hu. unfold add_topic.
  destruct (dict_get tw (lower topic)) as [w|] eqn:E1.
  - unfold dict_get in E1.
    destruct (List.find _ tw) as [kv|] eqn:F1; [|done]. injection E1 as <-.
    apply find_elem, Hu in F1 as [H0 H1]. simpl in *. split; lra.
  - destruct (partial_match (lower topic) tw) as [w|] eqn:E2; [|split; lra].
    unfold partial_match in E2.
    destruct (List.find _ tw) as [kv|] eqn:F2; [|done]. injection E2 as <-.
    apply find_elem, Hu in F2 as [H0 H1]. simpl in *. split; lra.
Qed.

Lemma fold_add_topic_range tw topics : ∀ score,
  weights_in_unit tw →
  (score <= fold_left (add_topic tw) topics score
   <= score + inject_Z (Z.of_nat (length topics)))%Q.
Proof.
  induction topics as [|t topics IH]; intros score Hu; simpl fold_left.
  - change (inject_Z (Z.of_nat (length (@nil string)))) with 0%Q. split; lra.
  - pose proof (add_topic_step tw score t Hu) as Hstep.
    pose proof (IH (add_topic tw score t) Hu) as Hrest.
    replace (Z.of_nat (length (t :: topics))) with (1 + Z.of_nat (length topics))%Z
      by (simpl length; lia).
    rewrite inject_Z_plus. change (inject_Z 1) with 1%Q.
    destruct Hstep, Hrest. split; lra.
Qed.

(** X3. With every topic weight in [[0, 1]] the match score of any question
    lies in [[0, 1]]; a question without topics scores exactly 1/2. *)
Theorem match_score_in_unit question topic_weights :
  weights_in_unit topic_weights →
  (0 <= compute_match_score question topic_weights <= 1)%Q
  ∧ (qb_topics question = [] → compute_match_score question topic_weights = 1 # 2).
Proof.
  intros Hu. unfold compute_match_score.
  destruct (qb_topics question) as [|t topics] eqn:Et; [by split|].
  split; [|done]. rewrite <- Et.
  set (n := length (qb_topics question)).
  assert (Hn : (0 < n)%nat) by (unfold n; rewrite Et; simpl; lia).
  replace (Z.max 1 (Z.of_nat n)) with (Z.of_nat n) by lia.
  destruct (fold_add_topic_range topic_weights (qb_topics question) 0 Hu) as [Hlo Hhi].
  rewrite Qplus_0_l in Hhi. fold n in Hhi.
  pose proof (inject_nat_pos n Hn) as Hpos. split.
  - apply Qle_shift_div_l; [done|]. by rewrite Qmult_0_l.
  - apply Qle_shift_div_r; [done|]. by rewrite Qmult_1_l.
Qed.

Lemma match_score_in_unit_witness :
  (0 <= compute_match_score SelectorExamples.q1 SelectorExamples.weights <= 1)%Q
  ∧ compute_match_score (mkQuestion 9 OPEN [] None) SelectorExamples.weights = 1 # 2.
Proof.
  assert (Hu : weights_in_unit SelectorExamples.weights).
  { intros kv Hkv. unfold SelectorExamples.weights in Hkv.
    repeat (apply elem_of_cons in Hkv as [->|Hkv]; [by vm_compute|]).
    by apply elem_of_nil in Hkv. }
  split.
  - apply (match_score_in_unit SelectorExamples.q1 _ Hu).
  - by apply (match_score_in_unit (mkQuestion 9 OPEN [] None) _ Hu).
Defined.

Lemma add_topic_lower tw score topic :
  add_topic tw score (lower topic) = add_topic tw score topic.
Proof. unfold add_topic. by rewrite lower_idem. Qed.

Lemma fold_add_topic_lower tw topics : ∀ score,
  fold_left (add_topic tw) (lower <$> topics) score
  = fold_left (add_topic tw) topics score.
Proof.
  induction topics as [|t topics IH]; intros score; simpl; [done|].
  by rewrite add_topic_lower, IH.
Qed.

(** X4. The match score ignores the letter case of the question's topics:
    lower-casing them leaves the score unchanged. *)
Theorem match_score_ignores_case id type topics difficulty topic_weights :
  compute_match_score (mkQuestion id type (lower <$> topics) difficulty) topic_weights
  = compute_match_score (mkQuestion id type topics difficulty) topic_weights.
Proof.
  unfold compute_match_score. simpl.
  destruct topics as [|t topics]; [done|].
  change (lower <$> t :: topics) with (lower t :: (lower <$> topics)).
  cbv beta iota. rewrite <- (fold_add_topic_lower topic_weights (t :: topics)).
  simpl. by rewrite length_fmap.
Qed.

(** ** Sorting *)

Section SortFacts.
Context {A : Type} (later : A → A → bool).
Hypothesis later_asym : ∀ x y, later x y = true → later y x = false.
Hypothesis later_negtrans :
  ∀ x y z, later x y = false → later y z = false → later x z = false.

Lemma insert_sorted_elem x l y : y ∈ insert_sorted later x l ↔ y = x ∨ y ∈ l.
Proof.
  induction l as [|z l IH]; simpl.
  - rewrite list_elem_of_singleton, elem_of_nil. tauto.
  - destruct (later x z); rewrite !elem_of_cons; [rewrite IH|]; tauto.
Qed.

Lemma insert_sorted_sorted x l :
  StronglySorted (may_precede later) l → StronglySorted (may_precede later) (insert_sorted later x l).
Proof.
  induction l as [|y l IH]; intros Hs; simpl.
  - repeat constructor.
  - apply StronglySorted_cons in Hs as [Hy Hl].
    destruct (later x y) eqn:E.
    + apply StronglySorted_cons. split; [|by apply IH].
      apply Forall_forall. intros z Hz. apply insert_sorted_elem in Hz as [->|Hz].
      * by apply later_asym.
      * by eapply Forall_forall in Hy.
    + apply StronglySorted_cons. split.
      * constructor; [done|]. apply Forall_forall. intros z Hz.
        eapply Forall_forall in Hy; [|done]. by eapply later_negtrans.
      * by apply StronglySorted_cons.
Qed.

Lemma stable_sort_sorted l : StronglySorted (may_precede later) (stable_sort later l).
Proof.
  unfold stable_sort. induction l as [|x l IH]; simpl; [constructor|].
  by apply insert_sorted_sorted.
Qed.

(** The first [k] elements of the sorted list may precede every element
    that is left out. *)
Lemma stable_sort_take k l x y :
  x ∈ take k (stable_sort later l) → y ∈ l → y ∉ take k (stable_sort later l) →
  may_precede later x y.
Proof.
  intros Hx Hy Hout.
  pose proof (stable_sort_sorted l) as Hs.
  rewrite <- (take_drop k (stable_sort later l)) in Hs.
  eapply StronglySorted_app_1_elem_of; [exact Hs|exact Hx|].
  assert (Hin : y ∈ stable_sort later l).
  { pose proof (SelectorFacts.stable_sort_perm later l) as Hp. by rewrite Hp. }
  rewrite <- (take_drop k (stable_sort later l)) in Hin.
  apply elem_of_app in Hin as [|]; [done|done].
Qed.

End SortFacts.

Lemma sort_desc_by_take {A : Type} (key : A → Z) k l x y :
  x ∈ take k (sort_desc_by key l) → y ∈ l → y ∉ take k (sort_desc_by key l) →
  (key y ≤ key x)%Z.
Proof.
  intros Hx Hy Hout.
  pose proof (stable_sort_take (λ a b, (key a <? key b)%Z)) as Hs.
  unfold sort_desc_by in *. unfold may_precede in Hs.
  specialize (Hs ltac:(intros a b; rewrite Z.ltb_lt, Z.ltb_ge; lia)
                 ltac:(intros a b c; rewrite !Z.ltb_ge; lia) k l x y Hx Hy Hout).
  apply Z.ltb_ge in Hs. done.
Qed.

(** ** The sampling pool *)

Lemma top_pool_scored topic_weights num_questions filtered sq :
  sq ∈ top_pool topic_weights num_questions filtered →
  sq.1 ∈ filtered ∧ sq.2 = compute_match_score sq.1 topic_weights.
Proof.
  unfold top_pool. intros Hsq. apply subseteq_take in Hsq.
  rewrite SelectorFacts.stable_sort_perm in Hsq.
  apply list_elem_of_fmap in Hsq as (q & -> & Hq). done.
Qed.

(** X5. The sampling pool holds [min(3 × num_questions, number of
    candidates)] scored candidates, each with its own match score, and no
    candidate left out of it scores higher than one inside. *)
Theorem top_pool_keeps_best topic_weights num_questions filtered :
  length (top_pool topic_weights num_questions filtered)
  = Nat.min (num_questions * 3) (length filtered)
  ∧ (∀ sq, sq ∈ top_pool topic_weights num_questions filtered →
       sq.1 ∈ filtered ∧ sq.2 = compute_match_score sq.1 topic_weights)
  ∧ (∀ sq q, sq ∈ top_pool topic_weights num_questions filtered →
       q ∈ filtered →
       (q, compute_match_score q topic_weights)
         ∉ top_pool topic_weights num_questions filtered →
       (compute_match_score q topic_weights <= sq.2)%Q).
Proof.
  unfold top_pool.
  set (scored := (λ q, (q, compute_match_score q topic_weights)) <$> filtered).
  set (later := λ a b : QuestionBank * Q, Qltb a.2 b.2).
  assert (Hlen : length (stable_sort later scored) = length filtered).
  { rewrite SelectorFacts.stable_sort_perm. unfold scored. by rewrite length_fmap. }
  split; [|split].
  - rewrite length_take, Hlen. lia.
  - intros sq Hsq. by apply top_pool_scored in Hsq.
  - intros sq q Hsq Hq Hout.
    assert (Hpre : may_precede later sq (q, compute_match_score q topic_weights)).
    { eapply (stable_sort_take later); [| |exact Hsq| |exact Hout].
      - intros a b. unfold later, Qltb.
        destruct (Qlt_le_dec a.2 b.2), (Qlt_le_dec b.2 a.2); try done. lra.
      - intros a b c. unfold later, Qltb.
        destruct (Qlt_le_dec a.2 b.2), (Qlt_le_dec b.2 c.2), (Qlt_le_dec a.2 c.2);
          try done. lra.
      - apply list_elem_of_fmap. eauto. }
    unfold may_precede, later, Qltb in Hpre. simpl in Hpre.
    by destruct (Qlt_le_dec _ _).
Qed.

(** ** Recent history *)

Lemma session_matches_spec db user_id jd_hash s :
  session_matches db user_id jd_hash s = true ↔
  is_user_id s = user_id
  ∧ ∃ js, js ∈ job_specs db ∧ js_id js = is_job_spec_id s ∧ js_jd_hash js = jd_hash.
Proof.
  unfold session_matches.
  rewrite andb_true_iff, bool_decide_eq_true, existsb_exists.
  split; intros [Hu (js & Hin & Hjs)]; (split; [done|]); exists js.
  - apply andb_true_iff in Hjs as [H1 H2]. apply bool_decide_eq_true in H1, H2.
    by rewrite list_elem_of_In.
  - destruct Hjs as [H1 H2]. rewrite <- list_elem_of_In.
    by rewrite andb_true_iff, !bool_decide_eq_true.
Qed.

Lemma matching_sessions_elem db user_id jd_hash s :
  s ∈ matching_sessions db user_id jd_hash ↔
  s ∈ interview_sessions db ∧ session_matches db user_id jd_hash s = true.
Proof. unfold matching_sessions. by rewrite !list_elem_of_In, filter_In. Qed.

(** X6. The sessions whose questions are excluded are at most [limit]
    sessions of this user for this job description, and the most recent
    ones: no other such session started later than one of them. *)
Theorem recent_sessions_most_recent db user_id jd_hash limit :
  ∃ rows,
    recent_sessions db user_id jd_hash limit = is_id <$> rows
    ∧ length rows = Nat.min limit (length (matching_sessions db user_id jd_hash))
    ∧ (∀ r, r ∈ rows →
         r ∈ interview_sessions db ∧ is_user_id r = user_id
         ∧ ∃ js, js ∈ job_specs db ∧ js_id js = is_job_spec_id r
                 ∧ js_jd_hash js = jd_hash)
    ∧ (∀ r s, r ∈ rows → s ∈ matching_sessions db user_id jd_hash → s ∉ rows →
         (is_started_at s ≤ is_started_at r)%Z).
Proof.
  unfold recent_sessions. fold (matching_sessions db user_id jd_hash).
  eexists. split; [reflexivity|]. split; [|split].
  - rewrite length_take. unfold sort_desc_by.
    by rewrite SelectorFacts.stable_sort_perm.
  - intros r Hr. apply subseteq_take in Hr. unfold sort_desc_by in Hr.
    rewrite SelectorFacts.stable_sort_perm in Hr.
    apply matching_sessions_elem in Hr as [Hin Hm].
    apply session_matches_spec in Hm. tauto.
  - intros r s Hr Hs Hout. by eapply sort_desc_by_take.
Qed.

Lemma recent_sessions_own db user_id jd_hash limit sid :
  sid ∈ recent_sessions db user_id jd_hash limit →
  ∃ s, is_id s = sid ∧ s ∈ interview_sessions db ∧ is_user_id s = user_id
       ∧ ∃ js, js ∈ job_specs db ∧ js_id js = is_job_spec_id s
               ∧ js_jd_hash js = jd_hash.
Proof.
  unfold recent_sessions. intros Hs.
  apply list_elem_of_fmap in Hs as (s & -> & Hs). exists s. split; [done|].
  apply subseteq_take in Hs. unfold sort_desc_by in Hs.
  rewrite SelectorFacts.stable_sort_perm in Hs.
  apply list_elem_of_In, filter_In in Hs as [Hin Hm].
  apply session_matches_spec in Hm. by rewrite list_elem_of_In.
Qed.

(** X7. An excluded question id is the question of a turn that belongs to a
    session of this user for this job description; when the user has at most
    [limit] such sessions, every question asked in any of them is excluded. *)
Theorem recent_question_ids_from_own_sessions db user_id jd_hash limit :
  (∀ x, x ∈ get_recent_question_ids db user_id jd_hash limit →
     ∃ t s, t ∈ interview_turns db ∧ it_question_id t = Some x
            ∧ s ∈ interview_sessions db ∧ is_id s = it_session_id t
            ∧ is_user_id s = user_id
            ∧ ∃ js, js ∈ job_specs db ∧ js_id js = is_job_spec_id s
                    ∧ js_jd_hash js = jd_hash)
  ∧ ((length (matching_sessions db user_id jd_hash) ≤ limit)%nat →
     ∀ x t s, t ∈ interview_turns db → it_question_id t = Some x →
              s ∈ matching_sessions db user_id jd_hash →
              is_id s = it_session_id t →
              x ∈ get_recent_question_ids db user_id jd_hash limit).
Proof.
  unfold get_recent_question_ids.
  split.
  - intros x Hx. destruct (recent_sessions _ _ _ _) as [|sid0 sids] eqn:E;
      [by apply elem_of_empty in Hx|].
    apply elem_of_list_to_set, list_elem_of_omap in Hx as (t & Ht & Hq).
    apply list_elem_of_In, filter_In in Ht as [Ht Hs].
    apply bool_decide_eq_true in Hs. rewrite <- E in Hs.
    apply recent_sessions_own in Hs as (s & Hid & Hin & Hu & Hjs).
    exists t, s. by rewrite list_elem_of_In.
  - intros Hfew x t s Ht Hq Hs Hid.
    assert (Hall : recent_sessions db user_id jd_hash limit
                   ≡ₚ is_id <$> matching_sessions db user_id jd_hash).
    { unfold recent_sessions. fold (matching_sessions db user_id jd_hash).
      rewrite take_ge.
      - unfold sort_desc_by. by rewrite SelectorFacts.stable_sort_perm.
      - unfold sort_desc_by. by rewrite SelectorFacts.stable_sort_perm. }
    assert (Hsid : it_session_id t ∈ recent_sessions db user_id jd_hash limit).
    { rewrite Hall, <- Hid. apply list_elem_of_fmap. eauto. }
    destruct (recent_sessions _ _ _ _) as [|sid0 sids] eqn:E;
      [by apply elem_of_nil in Hsid|]. rewrite <- E.
    apply elem_of_list_to_set, list_elem_of_omap. exists t. split; [|done].
    apply list_elem_of_In, filter_In. split; [by apply list_elem_of_In|].
    apply bool_decide_eq_true. by rewrite E.
Qed.

Lemma recent_question_ids_from_own_sessions_witness :
  4%Z ∈ get_recent_question_ids SelectorDrawsExamples.history 7 "jd" 3.
Proof.
  destruct (recent_question_ids_from_own_sessions SelectorDrawsExamples.history 7 "jd" 3)
    as [_ Hall].
  apply (Hall ltac:(vm_compute; lia) 4%Z (mkTurn 100 (Some 4%Z)) (mkSession 100 7 1 50)).
  - left.
  - reflexivity.
  - vm_compute. left.
  - reflexivity.
Defined.

(** ** When a call returns, and how full the batch is *)





Lemma select_questions_only_value_error db rng tw qt num uid jd ex diff e :
  select_questions db rng tw qt num uid jd ex diff = Raise e → e = ValueError.
Proof.
  unfold select_questions.
  destruct (query_candidates db qt diff) as [|c cs] eqn:Ec; [done|].
  rewrite <- Ec.
  destruct (select_loop _ _ _ _ _ _ _) as [selected|e'] eqn:Eloop; simpl; [done|].
  intros [= <-]. apply SelectorFacts.select_loop_raises in Eloop; [done|simpl; lia].
Qed.





Lemma select_loop_full rng num pool fuel : ∀ draw selected used top sel,
  loop_inv num pool selected used top →
  select_loop rng num fuel draw selected used top = Ok sel →
  length sel = num
  ∨ ∀ sq, sq ∈ pool → qb_id sq.1 ∈ (qb_id <$> sel) ∨ discarded sel sq.
Proof.
  induction fuel as [|fuel IH]; intros draw selected used top sel Hinv Hrun;
    simpl in Hrun; [done|].
  destruct (decide _) as [[Hlt Htopne]|Hstop].
  - destruct (remaining_of used top) as [|sq0 rest] eqn:Erem.
    + injection Hrun as <-. right. intros sq Hsq.
      destruct Hinv as [Hused _ _ _ _ Hdisc _].
      destruct (Hdisc sq Hsq) as [Hin|]; [left|by right].
      apply (SelectorFacts.remaining_of_nil _ _ Erem) in Hin.
      rewrite Hused in Hin. by apply elem_of_list_to_set in Hin.
    + rewrite <- Erem in Hrun.
      destruct (choices _ _ _) as [chosen|e] eqn:Ech; simpl in Hrun; [|done].
      apply SelectorFacts.choices_elem in Ech.
      destruct (decide (1 < length (selected ++ [chosen.1]))%nat) as [Hlen1|Hlen1].
      * assert (Hne : selected ≠ []) by (intros ->; simpl in Hlen1; lia).
        destruct (decide (_ ∧ _)) as [[Hov Hmany]|Hno].
        -- destruct (py_remove chosen top) as [top'|e] eqn:Erm; simpl in Hrun; [|done].
           refine (IH _ _ _ _ _ _ Hrun).
           by apply (SelectorFacts.loop_inv_reject rng _ _ _ _ top).
        -- refine (IH _ _ _ _ _ _ Hrun).
           apply (SelectorFacts.loop_inv_accept rng); try done.
           intros _ Hov.
           destruct (decide (1 < length (remaining_of used top))%nat); [|lia].
           exfalso. by apply Hno.
      * refine (IH _ _ _ _ _ _ Hrun).
        apply (SelectorFacts.loop_inv_accept rng); try done.
        intros Hne. exfalso. apply Hlen1. rewrite length_app. simpl.
        destruct selected; [done|simpl; lia].
  - injection Hrun as <-.
    destruct Hinv as [_ _ Hlen _ _ Hdisc _].
    destruct (decide (length selected < num)%nat) as [Hlt|]; [|left; lia].
    right. intros sq Hsq. destruct (Hdisc sq Hsq) as [Hin|]; [|by right].
    destruct top; [by apply elem_of_nil in Hin|].
    exfalso. apply Hstop. done.
Qed.

(** X9. A returned batch holds exactly [num_questions] questions unless the
    pool ran out: every pool candidate is then in the batch or was discarded
    for its overlap. *)
Theorem select_questions_fills_batch db rng tw qt num uid jd ex diff sel :
  select_questions db rng tw qt num uid jd ex diff = Ok sel →
  length sel = num
  ∨ ∀ sq, sq ∈ top_pool tw num
                  (filter_candidates (query_candidates db qt diff)
                     (excluded_ids db uid jd ex)) →
          qb_id sq.1 ∈ (qb_id <$> sel) ∨ discarded sel sq.
Proof.
  unfold select_questions.
  destruct (query_candidates db qt diff) as [|c cs] eqn:Ec.
  - intros [= <-]. right. intros sq Hsq.
    apply SelectorFacts.top_pool_elem in Hsq. by apply elem_of_nil in Hsq.
  - rewrite <- Ec. intros Hrun.
    destruct (select_loop _ _ _ _ _ _ _) as [selected|e] eqn:Eloop; simpl in Hrun;
      [|done].
    injection Hrun as <-.
    pose proof (SelectorFacts.select_loop_inv _ _ _ _ _ _ _ _ _
                  (SelectorFacts.loop_inv_init num _) Eloop) as (u & t & Hinv).
    rewrite take_ge by (by destruct Hinv).
    eapply select_loop_full; [|exact Eloop]. apply SelectorFacts.loop_inv_init.
Qed.

Lemma select_questions_fills_batch_witness :
  length [SelectorExamples.q1; SelectorExamples.q2; SelectorExamples.q3] = 3%nat
  ∨ ∀ sq, sq ∈ SelectorExamples.pool →
          qb_id sq.1 ∈ (qb_id <$> [SelectorExamples.q1; SelectorExamples.q2;
                                    SelectorExamples.q3])
          ∨ discarded [SelectorExamples.q1; SelectorExamples.q2; SelectorExamples.q3] sq.
Proof.
  apply (select_questions_fills_batch SelectorExamples.bank SelectorExamples.rng_low
           SelectorExamples.weights OPEN 3 7 "jd" None None).
  vm_compute. reflexivity.
Defined.

End SelectorMore.

(** * Draws and zero scores *)

Module SelectorDraws.
Import Selector SelectorViews.

(** ** The cumulative weights *)

Lemma accumulate_from_step ws : ∀ acc i w,
  ws !! i = Some w →
  ∃ u, (acc :: accumulate_from acc ws) !! i = Some u
       ∧ (acc :: accumulate_from acc ws) !! S i = Some (u + w)%Q.
Proof.
  induction ws as [|w0 ws IH]; intros acc i w Hw; [done|].
  destruct i as [|i]; simpl in *.
  - injection Hw as <-. by exists acc.
  - apply (IH (acc + w0)%Q) in Hw as (u & Hu & Hnext). by exists u.
Qed.

Lemma accumulate_from_nondecreasing ws acc :
  Forall (λ w, 0 <= w)%Q ws → nondecreasing (acc :: accumulate_from acc ws).
Proof.
  intros Hws i j. revert i. induction j as [|j IH]; intros i u v Hle Hu Hv.
  - assert (i = 0%nat) as -> by lia. rewrite Hu in Hv. injection Hv as <-. lra.
  - destruct (decide (i = S j)) as [->|Hne].
    { rewrite Hu in Hv. injection Hv as <-. lra. }
    assert (Hj : (j < length ws)%nat).
    { apply lookup_lt_Some in Hv. simpl in Hv.
      rewrite SelectorFacts.accumulate_from_length in Hv. lia. }
    destruct (lookup_lt_is_Some_2 ws j Hj) as [w Hw].
    destruct (accumulate_from_step ws acc j w Hw) as (c & Hc & Hnext).
    rewrite Hnext in Hv. injection Hv as <-.
    assert (Hpos : (0 <= w)%Q).
    { rewrite Forall_forall in Hws. apply Hws. by eapply list_elem_of_lookup_2. }
    assert (Huc : (u <= c)%Q) by (apply (IH i); [lia|done|done]).
    lra.
Qed.

(** ** The binary search *)

Lemma bisect_right_spec a x : nondecreasing a → ∀ fuel lo hi,
  (lo ≤ hi)%nat → (hi < length a)%nat → (hi - lo < fuel)%nat →
  (∀ j u, (j < lo)%nat → a !! j = Some u → (u <= x)%Q) →
  (∀ u, a !! hi = Some u → (x < u)%Q) →
  (∀ j u, (j < bisect_right fuel a x lo hi)%nat → a !! j = Some u → (u <= x)%Q)
  ∧ (∀ u, a !! bisect_right fuel a x lo hi = Some u → (x < u)%Q).
Proof.
  intros Hsorted. induction fuel as [|fuel IH]; intros lo hi Hle Hhi Hfuel Hlow Hhigh;
    [lia|].
  cbn [bisect_right]. destruct (decide (lo < hi)%nat) as [Hlt|Hge].
  - pose proof (SelectorFacts.midpoint_between lo hi Hlt) as Hmid.
    set (mid := ((lo + hi) / 2)%nat) in *. clearbody mid.
    destruct (lookup_lt_is_Some_2 a mid) as [a_mid Hm]; [lia|]. rewrite Hm.
    destruct (Qlt_le_dec x a_mid) as [Hx|Hx].
    + apply IH; try done; try lia. intros u Hu. rewrite Hm in Hu. by injection Hu as <-.
    + apply IH; try done; try lia. intros j u Hj Hu.
      assert (Hua : (u <= a_mid)%Q) by (apply (Hsorted j mid); [lia|done|done]).
      lra.
  - assert (lo = hi) as -> by lia. split; [exact Hlow|exact Hhigh].
Qed.

(** ** A draw takes a candidate of positive weight *)

Lemma choices_weight {A : Type} (population : list A) weights r x :
  Forall (λ w, 0 <= w)%Q weights → length weights = length population →
  (0 <= r < 1)%Q →
  choices population weights r = Ok x →
  ∃ i w, population !! i = Some x ∧ weights !! i = Some w ∧ (0 < w)%Q.
Proof.
  intros Hws Hlen Hr. unfold choices.
  destruct (decide _) as [_|]; [|done].
  destruct weights as [|w0 ws]; [done|].
  apply Forall_cons in Hws as [Hw0 Hws]. cbn [accumulate].
  set (cum := w0 :: accumulate_from w0 ws).
  assert (Hcumlen : length cum = length population).
  { unfold cum. simpl in *. by rewrite SelectorFacts.accumulate_from_length. }
  destruct (last cum) as [total|] eqn:Elast; [|done].
  destruct (Qlt_le_dec 0 total) as [Htotal|]; [|done].
  set (n := length population) in *.
  assert (Hn : (0 < n)%nat) by (rewrite <- Hcumlen; simpl; lia).
  assert (Hx : (0 <= r * total < total)%Q) by nra.
  assert (Htop : cum !! (n - 1)%nat = Some total).
  { rewrite last_lookup in Elast. rewrite <- Elast. f_equal. rewrite Hcumlen. lia. }
  destruct (bisect_right_spec cum (r * total)%Q
              (accumulate_from_nondecreasing ws w0 Hws) n 0 (n - 1))
    as [Hbelow Habove];
    [lia|lia|lia|intros j u Hj; lia
    |intros u Hu; rewrite Htop in Hu; injection Hu as <-; lra|].
  pose proof (SelectorFacts.bisect_right_bounds cum (r * total)%Q n 0 (n - 1))
    as Hbounds.
  set (i := bisect_right n cum (r * total)%Q 0 (n - 1)) in *. clearbody i.
  destruct (population !! i) as [y|] eqn:Hy; [|done]. intros [= <-].
  destruct (lookup_lt_is_Some_2 cum i) as [c Hc]; [lia|].
  specialize (Habove c Hc).
  destruct i as [|i].
  - exists 0%nat, w0. split; [done|]. split; [done|].
    injection Hc as <-. lra.
  - assert (Hi : (i < length ws)%nat) by (simpl in Hlen; lia).
    destruct (lookup_lt_is_Some_2 ws i Hi) as [w Hw].
    destruct (accumulate_from_step ws w0 i w Hw) as (u & Hu & Hnext).
    fold cum in Hu, Hnext. rewrite Hnext in Hc. injection Hc as <-.
    assert (Hux : (u <= r * total)%Q) by (apply (Hbelow i); [lia|done]).
    exists (S i), w. split; [done|]. split; [done|]. lra.
Qed.

Lemma square_nonneg (q : Q) : (0 <= q ^ 2)%Q.
Proof. change (q ^ 2)%Q with (q * q)%Q. nra. Qed.

Lemma square_pos_nonzero (q : Q) : (0 < q ^ 2)%Q → ¬ (q == 0)%Q.
Proof. change (q ^ 2)%Q with (q * q)%Q. intros Hq E. rewrite E in Hq. lra. Qed.

Lemma draw_positive (remaining : list (QuestionBank * Q)) r chosen :
  (0 <= r < 1)%Q →
  choices remaining ((λ sq : QuestionBank * Q, (sq.2 ^ 2)%Q) <$> remaining) r = Ok chosen →
  chosen ∈ remaining ∧ ¬ (chosen.2 == 0)%Q.
Proof.
  intros Hr Hc. split; [by apply SelectorFacts.choices_elem in Hc|].
  apply choices_weight in Hc as (i & w & Hi & Hw & Hpos); try done.
  - rewrite list_lookup_fmap, Hi in Hw. injection Hw as <-.
    by apply square_pos_nonzero.
  - apply Forall_fmap, Forall_forall. intros sq _. apply square_nonneg.
  - by rewrite length_fmap.
Qed.

(** ** Zero scores in the loop *)

Section Drawn.
Variable rng : nat -> Q.
Hypothesis rng_range : ∀ k, (0 <= rng k < 1)%Q.
Variable num : nat.
Variable pool : list (QuestionBank * Q).

Lemma select_loop_drawn fuel : ∀ draw selected used top sel,
  (∀ sq, sq ∈ top → sq ∈ pool) →
  (∀ q, q ∈ selected → ∃ sq, sq ∈ pool ∧ sq.1 = q ∧ ¬ (sq.2 == 0)%Q) →
  select_loop rng num fuel draw selected used top = Ok sel →
  ∀ q, q ∈ sel → ∃ sq, sq ∈ pool ∧ sq.1 = q ∧ ¬ (sq.2 == 0)%Q.
Proof.
  induction fuel as [|fuel IH]; intros draw selected used top sel Htop Hsel Hrun;
    simpl in Hrun; [done|].
  destruct (decide _) as [_|_]; [|by injection Hrun as <-].
  destruct (remaining_of used top) as [|sq0 rest] eqn:Erem; [by injection Hrun as <-|].
  rewrite <- Erem in Hrun.
  destruct (choices _ _ _) as [chosen|e] eqn:Ech; simpl in Hrun; [|done].
  apply draw_positive in Ech as [Hin Hnz]; [|done].
  apply SelectorFacts.remaining_of_elem in Hin as [Hin _].
  assert (Hsel1 : ∀ q, q ∈ selected ++ [chosen.1] →
                       ∃ sq, sq ∈ pool ∧ sq.1 = q ∧ ¬ (sq.2 == 0)%Q).
  { intros q Hq. apply elem_of_app in Hq as [Hq|Hq]; [by apply Hsel|].
    apply list_elem_of_singleton in Hq as ->. exists chosen. auto. }
  destruct (decide (1 < _)%nat); [|by eapply IH].
  destruct (decide (_ ∧ _)); [|by eapply IH].
  destruct (py_remove chosen top) as [top'|e] eqn:Erm; simpl in Hrun; [|done].
  apply SelectorFacts.py_remove_ok in Erm as (_ & Hsub & _).
  rewrite SelectorFacts.take_app_last in Hrun. eapply IH; [|exact Hsel|exact Hrun].
  auto.
Qed.

Lemma select_loop_blocked fuel : ∀ draw selected used top sel z,
  z ∈ top → qb_id z.1 ∉ used → (z.2 == 0)%Q →
  (∀ sq, sq ∈ top → qb_id sq.1 = qb_id z.1 → sq = z) →
  select_loop rng num fuel draw selected used top = Ok sel →
  (num ≤ length sel)%nat.
Proof.
  induction fuel as [|fuel IH]; intros draw selected used top sel z Hz Hfresh Hzero Huniq
    Hrun; simpl in Hrun; [done|].
  destruct (decide _) as [_|Hstop].
  2:{ injection Hrun as <-.
      destruct (decide (length selected < num)%nat) as [Hlt|]; [|lia].
      exfalso. apply Hstop. split; [done|]. intros ->. by apply elem_of_nil in Hz. }
  assert (Hzrem : z ∈ remaining_of used top) by by apply SelectorFacts.remaining_of_elem.
  destruct (remaining_of used top) as [|sq0 rest] eqn:Erem;
    [by apply elem_of_nil in Hzrem|].
  rewrite <- Erem in Hrun.
  destruct (choices _ _ _) as [chosen|e] eqn:Ech; simpl in Hrun; [|done].
  apply draw_positive in Ech as [Hin Hnz]; [|done].
  apply SelectorFacts.remaining_of_elem in Hin as [Hin _].
  assert (Hid : qb_id chosen.1 ≠ qb_id z.1).
  { intros E. apply Huniq in E; [|done]. subst chosen. by apply Hnz. }
  assert (Hfresh1 : qb_id z.1 ∉ used ∪ {[qb_id chosen.1]}) by set_solver.
  assert (Hgo : ∀ s, select_loop rng num fuel (S draw) s
                       (used ∪ {[qb_id chosen.1]}) top = Ok sel →
                     (num ≤ length sel)%nat).
  { intros s Hs. exact (IH _ _ _ _ _ z Hz Hfresh1 Hzero Huniq Hs). }
  destruct (decide (1 < _)%nat); [|by apply Hgo in Hrun].
  destruct (decide (_ ∧ _)); [|by apply Hgo in Hrun].
  destruct (py_remove chosen top) as [top'|e] eqn:Erm; simpl in Hrun; [|done].
  apply SelectorFacts.py_remove_ok in Erm as (_ & Hsub & Hcov).
  eapply (IH _ _ _ _ _ z); [| | | |exact Hrun]; try done.
  - destruct (Hcov z Hz) as [->|]; [by destruct Hnz|done].
  - set_solver.
  - intros sq Hsq. apply Huniq. auto.
Qed.

End Drawn.

Lemma NoDup_fmap_elem {A B : Type} (f : A → B) (l : list A) x y :
  NoDup (f <$> l) → x ∈ l → y ∈ l → f x = f y → x = y.
Proof.
  induction l as [|a l IH]; intros Hnd Hx Hy E; [by apply elem_of_nil in Hx|].
  rewrite fmap_cons in Hnd. apply NoDup_cons in Hnd as [Ha Hnd].
  apply elem_of_cons in Hx as [->|Hx]; apply elem_of_cons in Hy as [->|Hy]; try done.
  - exfalso. apply Ha. rewrite E. by apply list_elem_of_fmap_2.
  - exfalso. apply Ha. rewrite <- E. by apply list_elem_of_fmap_2.
  - by apply IH.
Qed.

Lemma sampling_pool_elem db tw qt num uid jd ex diff sq :
  sq ∈ sampling_pool db tw qt num uid jd ex diff →
  sq.1 ∈ question_bank db ∧ sq.2 = compute_match_score sq.1 tw.
Proof.
  unfold sampling_pool. intros Hsq.
  apply SelectorMore.top_pool_scored in Hsq as [Hin Hscore]. split; [|done].
  apply SelectorFacts.filter_candidates_elem in Hin as [Hin _].
  unfold query_candidates in Hin.
  assert (Htype : ∀ x, x ∈ List.filter
                           (λ q, bool_decide (qb_question_type q = qt)) (question_bank db) →
                       x ∈ question_bank db).
  { intros x Hx. apply list_elem_of_In, filter_In in Hx as [Hx _].
    by apply list_elem_of_In. }
  destruct diff as [d|]; [|by apply Htype].
  destruct (decide (d = EmptyString)); [by apply Htype|].
  apply list_elem_of_In, filter_In in Hin as [Hin _]. by apply Htype, list_elem_of_In.
Qed.

Lemma select_questions_loop db rng tw qt num uid jd ex diff sel :
  select_questions db rng tw qt num uid jd ex diff = Ok sel →
  query_candidates db qt diff ≠ [] →
  ∃ selected,
    select_loop rng num (num + length (sampling_pool db tw qt num uid jd ex diff) + 1) 0
      [] ∅ (sampling_pool db tw qt num uid jd ex diff) = Ok selected
    ∧ sel = take num selected.
Proof.
  unfold select_questions, sampling_pool. intros Hrun Hne.
  destruct (query_candidates db qt diff) as [|c cs] eqn:Ec; [done|].
  destruct (select_loop _ _ _ _ _ _ _) as [selected|e]; simpl in Hrun; [|done].
  injection Hrun as <-. by exists selected.
Qed.

(** X10. With [random()] in [[0, 1)], a question whose match score is 0 is
    never selected: each draw takes a candidate of positive weight. *)
Theorem zero_score_never_selected db rng tw qt num uid jd ex diff sel :
  (∀ k, (0 <= rng k < 1)%Q) →
  select_questions db rng tw qt num uid jd ex diff = Ok sel →
  ∀ q, q ∈ sel → ¬ (compute_match_score q tw == 0)%Q.
Proof.
  intros Hrng Hrun q Hq.
  destruct (decide (query_candidates db qt diff = [])) as [He|Hne].
  { rewrite SelectorFacts.select_questions_empty in Hrun by done.
    injection Hrun as <-. by apply elem_of_nil in Hq. }
  destruct (select_questions_loop _ _ _ _ _ _ _ _ _ _ Hrun Hne) as (selected & Hloop & ->).
  apply subseteq_take in Hq.
  destruct (select_loop_drawn rng Hrng num (sampling_pool db tw qt num uid jd ex diff)
              _ _ _ _ _ _ (λ sq H, H)
              (λ q0 (H : q0 ∈ []), False_ind _ (not_elem_of_nil q0 H)) Hloop q Hq)
    as (sq & Hsq & <- & Hnz).
  apply sampling_pool_elem in Hsq as [_ Hscore]. by rewrite <- Hscore.
Qed.

(** X11. When the sampling pool holds a candidate whose match score is 0
    and fewer than [num_questions] candidates whose score is not,
    [select_questions] raises [ValueError]: once the scored candidates are
    taken, the draw is among weights that are all 0.  Question ids are the
    primary key of the bank. *)
Theorem select_questions_raises_when_scores_run_out db rng tw qt num uid jd ex diff :
  (∀ k, (0 <= rng k < 1)%Q) →
  NoDup (qb_id <$> question_bank db) →
  (∃ z, z ∈ sampling_pool db tw qt num uid jd ex diff ∧ (z.2 == 0)%Q) →
  (length (List.filter (λ sq : QuestionBank * Q, negb (Qeq_bool sq.2 0))
             (sampling_pool db tw qt num uid jd ex diff)) < num)%nat →
  select_questions db rng tw qt num uid jd ex diff = Raise ValueError.
Proof.
  intros Hrng Hkey (z & Hz & Hzero) Hfew.
  destruct (select_questions db rng tw qt num uid jd ex diff) as [sel|e] eqn:Hrun.
  2:{ f_equal. by eapply SelectorMore.select_questions_only_value_error. }
  exfalso.
  assert (Hne : query_candidates db qt diff ≠ []).
  { intros He. unfold sampling_pool in Hz. rewrite He in Hz.
    apply SelectorFacts.top_pool_elem in Hz. by apply elem_of_nil in Hz. }
  destruct (select_questions_loop _ _ _ _ _ _ _ _ _ _ Hrun Hne) as (selected & Hloop & ->).
  destruct (SelectorFacts.select_questions_inv _ _ _ _ _ _ _ _ _ _ Hrun Hne)
    as (u & t & [_ Hnd _ _ _ _ _]).
  assert (Hfull : (num ≤ length selected)%nat).
  { eapply (select_loop_blocked rng Hrng num _ _ _ _ _ _ z); [done| |done| |exact Hloop].
    - set_solver.
    - intros sq Hsq Hid.
      apply sampling_pool_elem in Hsq as [Hbank Hscore].
      pose proof (sampling_pool_elem _ _ _ _ _ _ _ _ _ Hz) as [Hzbank Hzscore].
      assert (E : sq.1 = z.1)
        by (by apply (NoDup_fmap_elem qb_id (question_bank db))).
      destruct sq as [q s], z as [qz sz]. simpl in *. congruence. }
  set (sel := take num selected) in *.
  assert (Hlen : length sel = num) by (unfold sel; rewrite length_take; lia).
  set (scored := (λ q, (q, compute_match_score q tw)) <$> sel).
  assert (Hsub : scored ⊆+ List.filter (λ sq : QuestionBank * Q, negb (Qeq_bool sq.2 0))
                             (sampling_pool db tw qt num uid jd ex diff)).
  { apply NoDup_submseteq.
    - unfold scored. apply (NoDup_fmap_1 fst). rewrite <- list_fmap_compose.
      apply (NoDup_fmap_1 qb_id). rewrite <- list_fmap_compose.
      replace (qb_id ∘ (fst ∘ λ q, (q, compute_match_score q tw))) with qb_id by done.
      exact Hnd.
    - intros sq Hsq. unfold scored in Hsq.
      apply list_elem_of_fmap in Hsq as (q & -> & Hq).
      apply subseteq_take in Hq.
      destruct (select_loop_drawn rng Hrng num (sampling_pool db tw qt num uid jd ex diff)
                  _ _ _ _ _ _ (λ sq H, H)
                  (λ q0 (H : q0 ∈ []), False_ind _ (not_elem_of_nil q0 H)) Hloop q Hq)
        as (sq & Hsq & <- & Hnz).
      pose proof (sampling_pool_elem _ _ _ _ _ _ _ _ _ Hsq) as [_ Hscore].
      rewrite <- Hscore. apply list_elem_of_In, filter_In.
      split; [apply list_elem_of_In; by destruct sq|].
      apply negb_true_iff. destruct (Qeq_bool sq.2 0) eqn:E; [|done].
      apply Qeq_bool_iff in E. by destruct Hnz. }
  apply submseteq_length in Hsub. unfold scored in Hsub.
  rewrite length_fmap in Hsub. lia.
Qed.

Lemma zero_score_never_selected_witness :
  Forall (λ q, Qeq_bool (compute_match_score q SelectorExamples.weights) 0 = false)
    [SelectorExamples.q1; SelectorExamples.q2; SelectorExamples.q3].
Proof.
  apply Forall_forall. intros q Hq.
  destruct (Qeq_bool _ _) eqn:E; [exfalso|done]. apply Qeq_bool_iff in E. revert E.
  apply (zero_score_never_selected SelectorExamples.bank SelectorExamples.rng_low
           SelectorExamples.weights OPEN 3 7 "jd" None None
           [SelectorExamples.q1; SelectorExamples.q2; SelectorExamples.q3]);
    [intros k; by vm_compute|by vm_compute|done].
Defined.

Lemma select_questions_raises_when_scores_run_out_witness :
  select_questions SelectorDrawsExamples.bank SelectorExamples.rng_low
    SelectorExamples.weights OPEN 2 7 "jd" None None = Raise ValueError.
Proof.
  apply select_questions_raises_when_scores_run_out.
  - intros k. by vm_compute.
  - apply NoDup_cons. split; [set_solver|apply NoDup_singleton].
  - exists (SelectorDrawsExamples.unscored, 0%Q). split; [|done].
    vm_compute. right. left.
  - vm_compute. lia.
Defined.

End SelectorDraws.

(** * Properties of the interview plan *)

Module PlanFacts.
Import Selector SelectorViews Plan.

(** ** Topic weights *)

Lemma dict_set_keys d k v :
  (dict_set d k v).*1 = if decide (k ∈ d.*1) then d.*1 else d.*1 ++ [k].
Proof.
  unfold dict_set. destruct (decide _) as [Hin|Hout].
  - clear Hin. induction d as [|[k' v'] d IH]; [done|].
    rewrite !fmap_cons, IH. simpl. by destruct (decide (k' = k)) as [->|].
  - by rewrite fmap_app.
Qed.

Lemma dict_set_nodup d k v : NoDup d.*1 → NoDup (dict_set d k v).*1.
Proof.
  intros Hnd. rewrite dict_set_keys. destruct (decide _) as [|Hout]; [done|].
  apply NoDup_app. split; [done|]. split; [|apply NoDup_singleton].
  intros x Hx Hk. apply list_elem_of_singleton in Hk as ->. done.
Qed.

Lemma dict_get_set d k v : dict_get (dict_set d k v) k = Some v.
Proof.
  unfold dict_get, dict_set. destruct (decide _) as [Hin|Hout].
  - induction d as [|[k' v'] d IH]; [by apply elem_of_nil in Hin|]. simpl in *.
    destruct (decide (k' = k)) as [->|Hne]; simpl.
    + by rewrite bool_decide_eq_true_2.
    + rewrite bool_decide_eq_false_2 by done. apply IH.
      apply elem_of_cons in Hin as [->|]; done.
  - induction d as [|[k' v'] d IH]; simpl in *.
    + by rewrite bool_decide_eq_true_2.
    + rewrite bool_decide_eq_false_2 by set_solver. apply IH. set_solver.
Qed.

Lemma dict_set_nonempty d k v : (0 < length (dict_set d k v))%nat.
Proof.
  unfold dict_set. destruct (decide _) as [Hin|_].
  - rewrite length_fmap. destruct d; [by apply elem_of_nil in Hin|simpl; lia].
  - rewrite length_app. simpl. lia.
Qed.

Lemma dict_set_grows d k v : (length d ≤ length (dict_set d k v))%nat.
Proof.
  unfold dict_set. destruct (decide _); [by rewrite length_fmap|].
  rewrite length_app. lia.
Qed.

Lemma dict_get_set_ne d k k' v : k ≠ k' → dict_get (dict_set d k' v) k = dict_get d k.
Proof.
  intros Hne. unfold dict_get, dict_set. destruct (decide _) as [_|_].
  - induction d as [|[k0 v0] d IH]; [done|]. rewrite fmap_cons. simpl.
    destruct (decide (k0 = k')) as [->|Hk0]; simpl.
    + rewrite !bool_decide_eq_false_2 by done. apply IH.
    + destruct (bool_decide (k0 = k)); [done|apply IH].
  - induction d as [|[k0 v0] d IH]; simpl.
    + by rewrite bool_decide_eq_false_2.
    + destruct (bool_decide (k0 = k)); [done|apply IH].
Qed.

(** The loop over the entries makes the assignments of [topic_entry], in
    order. *)
Lemma fold_add_weight_entries items : ∀ d,
  fold_left add_weight items d
  = fold_left (λ d e, dict_set d e.1 e.2) (omap topic_entry items) d.
Proof.
  induction items as [|item items IH]; intros d; [done|].
  destruct item; simpl; apply IH.
Qed.

Section Assignments.
Implicit Types (es : list (string * Q)) (e : string * Q).

(** The dict after the assignments [es], made in order to an empty dict. *)
#[local] Abbreviation assigned es :=
  (fold_left (λ d e, dict_set d e.1 e.2) es []).

Lemma assigned_snoc es e : assigned (es ++ [e]) = dict_set (assigned es) e.1 e.2.
Proof. by rewrite fold_left_app. Qed.

(** Keys stand in the order of their first assignment. *)
Lemma assigned_keys es : (assigned es).*1 = reverse (remove_dups (reverse es.*1)).
Proof.
  induction es as [|e es IH] using rev_ind; [done|].
  rewrite assigned_snoc, dict_set_keys, IH, fmap_app, reverse_app. simpl.
  destruct (decide_rel elem_of e.1 (reverse es.*1)) as [Hin|Hout].
  - rewrite decide_True; [done|].
    by rewrite elem_of_reverse, elem_of_remove_dups.
  - rewrite decide_False, reverse_cons; [done|].
    by rewrite elem_of_reverse, elem_of_remove_dups.
Qed.

(** A key holds the value of its last assignment. *)
Lemma assigned_get es k :
  dict_get (assigned es) k = snd <$> last (filter (λ e, e.1 = k) es).
Proof.
  induction es as [|e es IH] using rev_ind; [done|].
  rewrite assigned_snoc, filter_app, filter_cons, filter_nil.
  destruct (decide (e.1 = k)) as [<-|Hne].
  - by rewrite dict_get_set, last_snoc.
  - by rewrite dict_get_set_ne, app_nil_r.
Qed.

Lemma assigned_nil es : assigned es = [] → es = [].
Proof.
  destruct es as [|e es] using rev_ind; [done|].
  rewrite assigned_snoc. intros E.
  pose proof (dict_set_nonempty (assigned es) e.1 e.2) as Hlen.
  rewrite E in Hlen. simpl in Hlen. lia.
Qed.

End Assignments.

Lemma topic_entry_lower item e : topic_entry item = Some e → lower e.1 = e.1.
Proof.
  destruct item; simpl; intros [= <-]; simpl; apply SelectorMore.lower_idem.
Qed.

(** X12. The topic weights a plan is built with.  When no entry of
    [role_profile["topics"]] is a dict or a string they are the three
    defaults: programming 0.8, problem solving 0.7, algorithms 0.6.
    Otherwise they are what the entries assign: the names, lower-cased, in
    the order of their first entry, each with the weight of its last entry
    ([0.5] for a dict without a weight, [0.6] for a bare string).  Either
    way the names are pairwise distinct and lower-case. *)
Theorem normalized_weights_form topics_list :
  (omap topic_entry topics_list = [] →
   normalize_topic_weights topics_list
   = [("programming", w_08); ("problem solving", w_07); ("algorithms", w_06)])
  ∧ (omap topic_entry topics_list ≠ [] →
     (normalize_topic_weights topics_list).*1
     = reverse (remove_dups (reverse (omap topic_entry topics_list).*1))
     ∧ ∀ k, dict_get (normalize_topic_weights topics_list) k
            = snd <$> last (filter (λ e, e.1 = k) (omap topic_entry topics_list)))
  ∧ NoDup (normalize_topic_weights topics_list).*1
  ∧ (∀ k, k ∈ (normalize_topic_weights topics_list).*1 → lower k = k).
Proof.
  unfold normalize_topic_weights. rewrite fold_add_weight_entries.
  set (es := omap topic_entry topics_list).
  assert (Hlower : ∀ k, k ∈ es.*1 → lower k = k).
  { intros k Hk. apply list_elem_of_fmap in Hk as (e & -> & He).
    apply list_elem_of_omap in He as (item & _ & He). by eapply topic_entry_lower. }
  pose proof (assigned_keys es) as Hkeys.
  pose proof (assigned_get es) as Hget.
  pose proof (assigned_nil es) as Hnil.
  destruct (fold_left _ es []) as [|kv d] eqn:E.
  - rewrite (Hnil eq_refl). split; [done|]. split; [done|]. split.
    + repeat constructor; set_solver.
    + intros k Hk. simpl in Hk.
      repeat (apply elem_of_cons in Hk as [->|Hk]; [done|]).
      by apply elem_of_nil in Hk.
  - split; [intros He; rewrite He in E; done|]. split; [done|]. split.
    + rewrite Hkeys, reverse_Permutation. apply NoDup_remove_dups.
    + intros k Hk. rewrite Hkeys in Hk.
      rewrite elem_of_reverse, elem_of_remove_dups, elem_of_reverse in Hk.
      by apply Hlower.
Qed.

Lemma normalized_weights_form_witness :
  (normalize_topic_weights PlanExamples.repeated).*1 = ["b"; "a"; ""]
  ∧ dict_get (normalize_topic_weights PlanExamples.repeated) "b" = Some (1 # 4).
Proof.
  destruct (normalized_weights_form PlanExamples.repeated) as (_ & Hsome & _).
  destruct Hsome as [Hkeys Hget]; [discriminate|].
  rewrite Hkeys, Hget. by vm_compute.
Defined.

(** ** What a call of [select_questions] gives the plan *)

Lemma query_candidates_elem db qt diff q :
  q ∈ query_candidates db qt diff →
  q ∈ question_bank db ∧ qb_question_type q = qt
  ∧ ∀ d, diff = Some d → d ≠ EmptyString → qb_difficulty q = Some d.
Proof.
  unfold query_candidates. intros Hq.
  assert (Htype : ∀ x, x ∈ List.filter
                           (λ q, bool_decide (qb_question_type q = qt)) (question_bank db) →
                       x ∈ question_bank db ∧ qb_question_type x = qt).
  { intros x Hx. apply list_elem_of_In, filter_In in Hx as [Hx Ht].
    apply bool_decide_eq_true in Ht. by rewrite list_elem_of_In. }
  destruct diff as [d|].
  - destruct (decide (d = EmptyString)) as [->|Hne].
    + apply Htype in Hq as [? ?]. split; [done|]. split; [done|].
      by intros d [= <-].
    + apply list_elem_of_In, filter_In in Hq as [Hq Hd].
      apply bool_decide_eq_true in Hd. apply list_elem_of_In, Htype in Hq as [? ?].
      split; [done|]. split; [done|]. by intros d' [= <-].
  - apply Htype in Hq as [? ?]. by repeat split.
Qed.

Lemma query_candidates_all db qt q :
  q ∈ question_bank db → qb_question_type q = qt → q ∈ query_candidates db qt None.
Proof.
  intros Hq Ht. unfold query_candidates. apply list_elem_of_In, filter_In.
  split; [by apply list_elem_of_In|by apply bool_decide_eq_true].
Qed.

Lemma select_questions_sound db rng tw qt num uid jd ex diff sel :
  select_questions db rng tw qt num uid jd ex diff = Ok sel →
  (length sel ≤ num)%nat ∧ NoDup (qb_id <$> sel)
  ∧ ∀ q, q ∈ sel → q ∈ query_candidates db qt diff.
Proof.
  intros Hrun. destruct (decide (query_candidates db qt diff = [])) as [He|Hne].
  - rewrite SelectorFacts.select_questions_empty in Hrun by done.
    injection Hrun as <-. simpl. split; [lia|]. split; [constructor|].
    intros q Hq. by apply elem_of_nil in Hq.
  - destruct (SelectorFacts.select_questions_inv _ _ _ _ _ _ _ _ _ _ Hrun Hne)
      as (u & t & [_ Hnd Hlen Hpool _ _ _]).
    split; [done|]. split; [done|]. intros q Hq.
    apply Hpool, list_elem_of_fmap in Hq as (sq & -> & Hsq).
    apply SelectorFacts.top_pool_elem in Hsq.
    by apply SelectorFacts.filter_candidates_elem in Hsq as [Hsq _].
Qed.

Lemma select_questions_nonempty db rng tw qt num uid jd ex diff sel :
  (0 < num)%nat → query_candidates db qt diff ≠ [] →
  select_questions db rng tw qt num uid jd ex diff = Ok sel → sel ≠ [].
Proof.
  intros Hnum Hne. unfold select_questions.
  destruct (query_candidates db qt diff) as [|c cs] eqn:Ec; [done|].
  rewrite <- Ec in *.
  destruct (select_loop _ _ _ _ _ _ _) as [selected|e] eqn:Eloop; simpl; [|done].
  intros [= <-].
  apply SelectorFacts.select_loop_first in Eloop; [|done|].
  - destruct selected; [done|]. destruct num; [lia|done].
  - apply SelectorFacts.top_pool_nonempty; [|done].
    by apply SelectorFacts.filter_candidates_nonempty.
Qed.

(** ** Code slots *)

Section BuildFacts.
Variable db : Store.
Variable rngs : nat -> nat -> Q.
Variable topic_weights : list (string * Q).
Variable user_id : Z.
Variable jd_hash : string.

#[local] Abbreviation tiered_candidates :=
  (tiered_candidates db rngs topic_weights user_id jd_hash).
#[local] Abbreviation code_slot := (code_slot db rngs topic_weights user_id jd_hash).
#[local] Abbreviation code_slots := (code_slots db rngs topic_weights user_id jd_hash).

Lemma tiered_candidates_spec : ∀ tiers call cands cands' call',
  Forall (λ d, d ≠ EmptyString) tiers →
  tiered_candidates call tiers cands = Ok (cands', call') →
  ∃ picked,
    cands' = cands ++ (candidate_of <$> picked)
    ∧ qb_difficulty <$> picked = Some <$> tiers_found db tiers
    ∧ (∀ q, q ∈ picked → q ∈ question_bank db ∧ qb_question_type q = CODE).
Proof.
  induction tiers as [|d tiers IH]; intros call cands cands' call' Htiers Hrun;
    simpl in Hrun.
  - injection Hrun as <- <-. exists []. rewrite app_nil_r.
    split; [done|]. split; [done|].
    intros q Hq. by apply elem_of_nil in Hq.
  - apply Forall_cons in Htiers as [Hd Htiers].
    destruct (select_questions _ _ _ _ _ _ _ _ _) as [qs|e] eqn:Esel; simpl in Hrun;
      [|done].
    destruct (IH _ _ _ _ Htiers Hrun) as (picked & -> & Hsub & Hmem).
    pose proof (select_questions_sound _ _ _ _ _ _ _ _ _ _ Esel) as (_ & _ & Hsound).
    unfold tiers_found in *. cbn [List.filter].
    destruct qs as [|q qs]; simpl.
    + assert (Hempty : query_candidates db CODE (Some d) = []).
      { destruct (decide (query_candidates db CODE (Some d) = [])) as [|Hne]; [done|].
        by apply (select_questions_nonempty _ _ _ _ 1) in Esel; [|lia|]. }
      rewrite bool_decide_eq_false_2 by (intros Hne; by apply Hne).
      by exists picked.
    + assert (Hq : q ∈ question_bank db ∧ qb_question_type q = CODE
                   ∧ qb_difficulty q = Some d).
      { destruct (query_candidates_elem db CODE (Some d) q) as (? & ? & Hdiff);
          [apply Hsound; left|]. repeat split; try done. by apply Hdiff. }
      destruct Hq as (Hbank & Htype & Hdiff).
      assert (Hfound : query_candidates db CODE (Some d) ≠ []).
      { intros He. specialize (Hsound q ltac:(left)). rewrite He in Hsound.
        by apply elem_of_nil in Hsound. }
      rewrite bool_decide_eq_true_2 by done.
      exists (q :: picked). rewrite <- app_assoc. split; [done|].
      split; [by rewrite !fmap_cons, Hdiff, Hsub|].
      intros q' Hq'.
      apply elem_of_cons in Hq' as [->|Hq']; [done|by apply Hmem].
Qed.

Lemma difficulties_nonempty : Forall (λ d, d ≠ EmptyString) difficulties.
Proof. by repeat constructor. Qed.

Lemma code_slot_spec call slot_idx item call' :
  code_slot call slot_idx = Ok (item, call') →
  match item with
  | Some it => code_item_of db slot_idx it
  | None => query_candidates db CODE None = []
  end.
Proof.
  unfold Plan.code_slot.
  destruct (tiered_candidates call difficulties []) as [[cands call1]|e] eqn:Et;
    simpl; [|done].
  apply tiered_candidates_spec in Et as (picked & -> & Hsub & Hmem);
    [|apply difficulties_nonempty].
  destruct picked as [|primary rest]; simpl.
  - symmetry in Hsub. apply fmap_nil_inv in Hsub.
    destruct (select_questions _ _ _ _ _ _ _ _ _) as [qs|e] eqn:Esel; simpl; [|done].
    pose proof (select_questions_sound _ _ _ _ _ _ _ _ _ _ Esel) as (_ & _ & Hsound).
    destruct qs as [|q qs]; simpl; intros [= <- <-].
    + destruct (decide (query_candidates db CODE None = [])) as [|Hne]; [done|].
      by apply (select_questions_nonempty _ _ _ _ 1) in Esel; [|lia|].
    + exists q, []. split; [done|]. split; [|right; auto].
      intros q' Hq'. apply list_elem_of_singleton in Hq' as ->.
      destruct (query_candidates_elem db CODE None q) as (? & ? & _); [|done].
      apply Hsound. left.
  - intros [= <- <-]. exists primary, rest. split; [done|]. split; [done|by left].
Qed.

Lemma code_slots_spec : ∀ remaining call slot_idx plan_items plan,
  code_slots call slot_idx remaining plan_items = Ok plan →
  ∃ code_items,
    plan = plan_items ++ code_items
    ∧ (query_candidates db CODE None = [] → code_items = [])
    ∧ (query_candidates db CODE None ≠ [] →
       Forall2 (code_item_of db) (seq slot_idx remaining) code_items).
Proof.
  induction remaining as [|remaining IH]; intros call slot_idx plan_items plan Hrun;
    simpl in Hrun.
  - injection Hrun as <-. exists []. rewrite app_nil_r.
    split; [done|]. split; [done|]. intros _. constructor.
  - destruct (code_slot call slot_idx) as [[item call1]|e] eqn:Eslot; simpl in Hrun;
      [|done].
    apply code_slot_spec in Eslot.
    destruct (IH _ _ _ _ Hrun) as (code_items & -> & Hnone & Hsome).
    exists (option_list item ++ code_items). rewrite app_assoc. split; [done|].
    destruct item as [it|]; simpl.
    + assert (Hcode : query_candidates db CODE None ≠ []).
      { destruct Eslot as (primary & rest & _ & Hmem & _).
        destruct (Hmem primary) as [Hbank Htype]; [left|].
        intros He. pose proof (query_candidates_all db CODE primary Hbank Htype) as Hin.
        rewrite He in Hin. by apply elem_of_nil in Hin. }
      split; [done|]. intros _. constructor; [done|by apply Hsome].
    + split; [done|]. intros Hne. by destruct Hne.
Qed.




Hypothesis positive :
  ∀ q, q ∈ question_bank db → (0 < compute_match_score q topic_weights)%Q.





End BuildFacts.

(** X13. A plan is the open questions drawn, numbered from 0 in the order
    drawn, followed by the code slots.  The open questions are at most
    [num_open] open questions of the bank with distinct ids.  When the bank
    has a code question every one of the [num_code] slots is filled, in
    order, each with exactly one candidate for each of the difficulties
    Easy, Medium, Hard that some code question has, or with a single
    candidate when none has; when the bank has no code question, the plan
    has no code item. *)
Theorem plan_shape db rngs topics_list user_id jd_hash num_open num_code plan :
  build_interview_plan db rngs topics_list user_id jd_hash num_open num_code = Ok plan →
  ∃ open_questions code_items,
    plan = imap open_item open_questions ++ code_items
    ∧ (length open_questions ≤ num_open)%nat
    ∧ NoDup (qb_id <$> open_questions)
    ∧ (∀ q, q ∈ open_questions → q ∈ question_bank db ∧ qb_question_type q = OPEN)
    ∧ (query_candidates db CODE None = [] → code_items = [])
    ∧ (query_candidates db CODE None ≠ [] →
       Forall2 (code_item_of db) (seq 0 num_code) code_items).
Proof.
  unfold build_interview_plan.
  destruct (select_questions _ _ _ _ _ _ _ _ _) as [open_questions|e] eqn:Esel;
    simpl; [|done].
  intros Hrun. apply code_slots_spec in Hrun as (code_items & -> & Hnone & Hsome).
  apply select_questions_sound in Esel as (Hlen & Hnd & Hmem).
  exists open_questions, code_items.
  split; [done|]. split; [done|]. split; [done|]. split; [|done].
  intros q Hq. by apply Hmem, query_candidates_elem in Hq as (? & ? & _).
Qed.

Lemma plan_shape_witness :
  ∃ open_questions code_items,
    [open_item 0 SelectorExamples.q1; open_item 1 SelectorExamples.q2;
     code_item 0 (candidate_of PlanExamples.c1)
       (candidate_of <$> [PlanExamples.c1; PlanExamples.c2; PlanExamples.c3])]
    = imap open_item open_questions ++ code_items
    ∧ (length open_questions ≤ 2)%nat
    ∧ NoDup (qb_id <$> open_questions)
    ∧ (∀ q, q ∈ open_questions →
         q ∈ question_bank PlanExamples.bank ∧ qb_question_type q = OPEN)
    ∧ (query_candidates PlanExamples.bank CODE None = [] → code_items = [])
    ∧ (query_candidates PlanExamples.bank CODE None ≠ [] →
       Forall2 (code_item_of PlanExamples.bank) (seq 0 1) code_items).
Proof.
  apply (plan_shape PlanExamples.bank PlanExamples.rngs PlanExamples.topics 7 "jd" 2 1).
  vm_compute. reflexivity.
Defined.



(** ** Plan diversity *)




(** X16. A plan made of the questions of the previous plan is rejected; a
    plan that shares no question with it is accepted, and so is any plan
    when there is no previous session or its plan is empty or unreadable. *)
Theorem plan_diversity_extremes db plans user_id jd_hash new_plan :
  (∀ prev_session prev_plan,
     previous_session db user_id jd_hash = Some prev_session →
     plans (is_id prev_session) = ParsedPlan prev_plan →
     (plan_question_ids prev_plan = new_question_ids new_plan →
      (0 < size (new_question_ids new_plan))%nat →
      check_plan_diversity db plans user_id jd_hash new_plan = false)
     ∧ (plan_question_ids prev_plan ∩ new_question_ids new_plan = ∅ →
        check_plan_diversity db plans user_id jd_hash new_plan = true))
  ∧ (previous_session db user_id jd_hash = None →
     check_plan_diversity db plans user_id jd_hash new_plan = true)
  ∧ (∀ prev_session,
       previous_session db user_id jd_hash = Some prev_session →
       plans (is_id prev_session) = NoPlan ∨ plans (is_id prev_session) = Unparsable →
       check_plan_diversity db plans user_id jd_hash new_plan = true).
Proof.
  split; [|split].
  - intros prev_session prev_plan Hprev Hplan.
    unfold check_plan_diversity. rewrite Hprev, Hplan.
    unfold compute_jaccard_similarity, Qltb. split.
    + intros -> Hpos.
      set (new := new_question_ids new_plan) in *.
      assert (new ∩ new = new) as -> by set_solver.
      assert (new ∪ new = new) as -> by set_solver.
      destruct (decide _) as [_|]; [|done].
      destruct (Qlt_le_dec _ _) as [Hlt|]; [exfalso|done].
      assert (Hone : (inject_Z (Z.of_nat (size new)) / inject_Z (Z.of_nat (size new))
                      == 1)%Q).
      { field. intros E. apply (Qeq_bool_iff _ 0), Qeq_bool_eq in E.
        unfold Qeq in E. simpl in E. lia. }
      rewrite Hone in Hlt. by vm_compute in Hlt.
    + intros ->. rewrite size_empty.
      destruct (decide _) as [_|].
      * destruct (Qlt_le_dec _ _) as [|Hge]; [done|]. exfalso.
        unfold Qdiv in Hge. rewrite Qmult_0_l in Hge. by vm_compute in Hge.
      * destruct (Qlt_le_dec _ _) as [|Hge]; [done|]. by vm_compute in Hge.
  - intros Hprev. unfold check_plan_diversity. by rewrite Hprev.
  - intros prev_session Hprev Hplan. unfold check_plan_diversity. rewrite Hprev.
    by destruct Hplan as [-> | ->].
Qed.

Lemma plan_diversity_extremes_witness :
  check_plan_diversity PlanExamples.bank PlanExamples.plans 7 "jd"
    [open_item 0 SelectorExamples.q1; open_item 1 SelectorExamples.q2] = false.
Proof.
  destruct (plan_diversity_extremes PlanExamples.bank PlanExamples.plans 7 "jd"
              [open_item 0 SelectorExamples.q1; open_item 1 SelectorExamples.q2])
    as [Hparsed _].
  destruct (Hparsed (mkSession 100 7 1 50) [Some 1%Z; Some 2%Z; None; Some 0%Z]
              eq_refl eq_refl) as [Hsame _].
  apply Hsame; [reflexivity|vm_compute; lia].
Defined.

End PlanFacts.

(** * More on the readiness aggregator *)

Module ReadinessMore.
Import Readiness.

Lemma filter_andb {A : Type} (P Q : A → bool) (l : list A) :
  List.filter (λ a, P a && Q a) l = List.filter Q (List.filter P l).
Proof.
  induction l as [|a l IH]; simpl; [done|].
  destruct (P a); simpl; [|done]. destruct (Q a); by rewrite IH.
Qed.

Lemma user_sessions_elem db user job s :
  s ∈ user_sessions db user job → s ∈ interview_sessions db ∧ is_user_id s = user.
Proof.
  unfold user_sessions. intros Hs.
  assert (Hown : ∀ x, x ∈ List.filter (λ s, bool_decide (is_user_id s = user))
                             (interview_sessions db) →
                      x ∈ interview_sessions db ∧ is_user_id x = user).
  { intros x Hx. apply list_elem_of_In, filter_In in Hx as [Hx Hu].
    apply bool_decide_eq_true in Hu. by rewrite list_elem_of_In. }
  destruct (truthy_id job); [|by apply Hown].
  apply list_elem_of_In, filter_In in Hs as [Hs _]. by apply Hown, list_elem_of_In.
Qed.

Section Isolation.
Variables db db' : Store.
Variable user : string.
Hypothesis same_analyses :
  List.filter (λ a, bool_decide (cv_user_id a = user)) (cv_analysis_results db)
  = List.filter (λ a, bool_decide (cv_user_id a = user)) (cv_analysis_results db').
Hypothesis same_sessions :
  List.filter (λ s, bool_decide (is_user_id s = user)) (interview_sessions db)
  = List.filter (λ s, bool_decide (is_user_id s = user)) (interview_sessions db').
Hypothesis same_turns : ∀ s,
  s ∈ interview_sessions db → is_user_id s = user →
  List.filter (λ t, bool_decide (it_session_id t = is_id s)) (interview_turns db)
  = List.filter (λ t, bool_decide (it_session_id t = is_id s)) (interview_turns db').

Lemma user_sessions_same job : user_sessions db user job = user_sessions db' user job.
Proof. unfold user_sessions. by rewrite same_sessions. Qed.

Lemma cv_score_same job : _compute_cv_score db user job = _compute_cv_score db' user job.
Proof.
  unfold _compute_cv_score, latest_analysis.
  destruct (truthy_id job) as [j|]; [|done].
  by rewrite !(filter_andb (λ a, bool_decide (cv_user_id a = user))), same_analyses.
Qed.

Lemma interview_score_same job :
  _compute_interview_score db user job = _compute_interview_score db' user job.
Proof.
  unfold _compute_interview_score. rewrite <- user_sessions_same.
  pose proof (ReadinessFacts.head_sort_desc_by is_created_at (user_sessions db user job))
    as Hhead.
  destruct (head _) as [latest|]; [|done].
  destruct Hhead as [Hin _]. apply user_sessions_elem in Hin as [Hin Hu].
  by rewrite (same_turns latest Hin Hu).
Qed.

Lemma practice_score_same now job :
  _compute_practice_score db now user job = _compute_practice_score db' now user job.
Proof. unfold _compute_practice_score. by rewrite user_sessions_same. Qed.

End Isolation.

(** X17. The snapshot computed for a user depends only on that user's
    analyses and sessions and on the turns of those sessions: two stores
    that agree on them give the same snapshot, whatever rows of other users
    and whatever earlier snapshots they hold. *)
Theorem snapshot_depends_on_own_rows db db' now user job :
  List.filter (λ a, bool_decide (cv_user_id a = user)) (cv_analysis_results db)
  = List.filter (λ a, bool_decide (cv_user_id a = user)) (cv_analysis_results db') →
  List.filter (λ s, bool_decide (is_user_id s = user)) (interview_sessions db)
  = List.filter (λ s, bool_decide (is_user_id s = user)) (interview_sessions db') →
  (∀ s, s ∈ interview_sessions db → is_user_id s = user →
     List.filter (λ t, bool_decide (it_session_id t = is_id s)) (interview_turns db)
     = List.filter (λ t, bool_decide (it_session_id t = is_id s)) (interview_turns db')) →
  (compute_readiness_snapshot db now user job).2
  = (compute_readiness_snapshot db' now user job).2.
Proof.
  intros Ha Hs Ht. unfold compute_readiness_snapshot. simpl.
  by rewrite (cv_score_same db db' user Ha), (interview_score_same db db' user Hs Ht),
    (practice_score_same db db' user Hs).
Qed.

Lemma snapshot_depends_on_own_rows_witness :
  (compute_readiness_snapshot ReadinessExamples.steady ReadinessExamples.steady_now
     "u" (Some "job")).2
  = (compute_readiness_snapshot
       (compute_readiness_snapshot ReadinessMoreExamples.shared 5 "v" None).1
       ReadinessExamples.steady_now "u" (Some "job")).2.
Proof.
  apply (snapshot_depends_on_own_rows ReadinessExamples.steady).
  - reflexivity.
  - reflexivity.
  - intros s Hs Hu. vm_compute in Hs.
    repeat (apply elem_of_cons in Hs as [->|Hs]; [reflexivity|]).
    by apply elem_of_nil in Hs.
Defined.

(** X18. A user without any session gets an interview score and a practice
    score of 0; without any analysis either, every score of the snapshot
    is 0.  A latest session without turns also gives an interview score of
    0, whatever the earlier sessions hold. *)
Theorem scores_without_history db now user job :
  ((∀ s, s ∈ interview_sessions db → is_user_id s ≠ user) →
   _compute_interview_score db user job = 0%float
   ∧ _compute_practice_score db now user job = 0%float
   ∧ ((∀ a, a ∈ cv_analysis_results db → cv_user_id a ≠ user) →
      readiness_score (compute_readiness_snapshot db now user job).2 = 0%float
      ∧ cv_score (compute_readiness_snapshot db now user job).2 = 0%float))
  ∧ (∀ latest,
       head (sort_desc_by is_created_at (user_sessions db user job)) = Some latest →
       (∀ t, t ∈ interview_turns db → it_session_id t ≠ is_id latest) →
       _compute_interview_score db user job = 0%float).
Proof.
  split.
  - intros Hnone.
    assert (Hs : user_sessions db user job = []).
    { destruct (user_sessions db user job) as [|s l] eqn:E; [done|].
      destruct (user_sessions_elem db user job s) as [Hin Hu]; [rewrite E; left|].
      by destruct (Hnone s Hin). }
    assert (Hi : _compute_interview_score db user job = 0%float).
    { unfold _compute_interview_score. by rewrite Hs. }
    assert (Hp : _compute_practice_score db now user job = 0%float).
    { unfold _compute_practice_score. by rewrite Hs. }
    split; [done|]. split; [done|]. intros Hcv.
    assert (Hc : _compute_cv_score db user job = 0%float).
    { unfold _compute_cv_score. destruct (truthy_id job) as [j|]; [|done].
      destruct (latest_analysis db user j) as [a|] eqn:E; [|done].
      apply ReadinessFacts.latest_analysis_some in E as (Hin & Hu & _).
      by destruct (Hcv a Hin). }
    unfold compute_readiness_snapshot. simpl. rewrite Hi, Hp, Hc. done.
  - intros latest Hlatest Hturns. unfold _compute_interview_score. rewrite Hlatest.
    assert (Ht : List.filter (λ t, bool_decide (it_session_id t = is_id latest))
                   (interview_turns db) = []).
    { destruct (List.filter _ _) as [|t l] eqn:E; [done|].
      assert (Hin : In t (List.filter
                            (λ t, bool_decide (it_session_id t = is_id latest))
                            (interview_turns db))) by (rewrite E; left; done).
      apply filter_In in Hin as [Hin Hid]. apply bool_decide_eq_true in Hid.
      apply list_elem_of_In in Hin. by destruct (Hturns t Hin). }
    by rewrite Ht.
Qed.

Lemma scores_without_history_witness :
  _compute_interview_score ReadinessExamples.gaps_only "u" (Some "job") = 0%float
  ∧ _compute_practice_score ReadinessExamples.gaps_only 0 "u" (Some "job") = 0%float.
Proof.
  destruct (scores_without_history ReadinessExamples.gaps_only 0 "u" (Some "job"))
    as [Hnone _].
  destruct Hnone as (Hi & Hp & _); [|done].
  intros s Hs. by apply elem_of_nil in Hs.
Defined.

End ReadinessMore.

(** * More on the interview agent *)

Module AgentMore.
Import Agent AgentSession.

Section AgentMore.
Variable RoleProfile : Type.
Variable AgentContext : Type.
Variable call_llm : nat -> Prompt -> LlmOutcome.
Variable build_context_from_request :
  string -> QuestionBank -> InterviewNextRequest -> list PlanItem -> RoleProfile ->
  ConversationState -> string -> string -> AgentContext.
Variable reasoning_loop_run : nat -> AgentContext -> option AgentDecision.
Variable uuid4 : nat -> string.

#[local] Abbreviation process_turn :=
  (process_turn RoleProfile AgentContext call_llm build_context_from_request
     reasoning_loop_run uuid4).
#[local] Abbreviation _process_decision := (_process_decision call_llm).
#[local] Abbreviation _get_next_question_data := (_get_next_question_data call_llm).
#[local] Abbreviation _refine_and_translate := (_refine_and_translate call_llm).

(** ** Refinement *)

Lemma usable_answer result :
  truthy result && truthy (strip <$> result) = true →
  ∃ raw, result = Some raw ∧ strip raw ≠ EmptyString
         ∧ strip (default EmptyString result) = strip raw.
Proof.
  destruct result as [raw|]; [|done]. intros Hb. exists raw.
  apply andb_true_iff in Hb as [_ Hs]. simpl in Hs.
  split; [done|]. split; [|done]. intros E. by rewrite E in Hs.
Qed.

Lemma refine_english_result calls text type :
  (refine_english call_llm calls text type).1 = text
  ∨ ∃ raw, call_llm calls (EnglishPrompt text type) = LlmReturns (Some raw)
           ∧ strip raw ≠ EmptyString
           ∧ (refine_english call_llm calls text type).1 = strip raw.
Proof.
  unfold refine_english. destruct (call_llm _ _) as [|result]; [by left|].
  destruct (_ && _) eqn:Hb; [|by left].
  apply usable_answer in Hb as (raw & -> & Hne & Hs). right. by exists raw.
Qed.

(** X19. A refined question text is the original text or a non-empty LLM
    answer, stripped; one or two LLM calls are made, two only for Hebrew.
    For Hebrew, an LLM failure gives back the original text with no second
    attempt, and an empty answer is followed by the English refinement. *)
Theorem refinement_outcomes calls text type language :
  ((_refine_and_translate calls text type language).1 = text
   ∨ ∃ k prompt raw,
       (calls ≤ k < (_refine_and_translate calls text type language).2)%nat
       ∧ call_llm k prompt = LlmReturns (Some raw)
       ∧ strip raw ≠ EmptyString
       ∧ (_refine_and_translate calls text type language).1 = strip raw)
  ∧ ((_refine_and_translate calls text type language).2 = S calls
     ∨ ((_refine_and_translate calls text type language).2 = S (S calls)
        ∧ lower language = "hebrew"))
  ∧ (lower language = "hebrew" →
     call_llm calls (HebrewPrompt text type) = LlmRaises →
     _refine_and_translate calls text type language = (text, S calls))
  ∧ (lower language = "hebrew" →
     ∀ result,
       call_llm calls (HebrewPrompt text type) = LlmReturns result →
       truthy result && truthy (strip <$> result) = false →
       _refine_and_translate calls text type language
       = refine_english call_llm (S calls) text type).
Proof.
  assert (Hheb : lower language = "hebrew" →
                 truthy (Some language) && bool_decide (lower language = "hebrew") = true).
  { intros E. rewrite bool_decide_eq_true_2 by done.
    destruct language; [done|done]. }
  unfold Agent._refine_and_translate.
  split; [|split; [|split]].
  - destruct (_ && _).
    + destruct (call_llm calls (HebrewPrompt text type)) as [|result] eqn:Ecall;
        [by left|].
      destruct (truthy result && _) eqn:Hb.
      * apply usable_answer in Hb as (raw & -> & Hne & Hs). right.
        exists calls, (HebrewPrompt text type), raw. simpl. repeat split; try done; lia.
      * destruct (refine_english_result (S calls) text type)
          as [Ht|(raw & Hcall & Hne & Hr)]; [by left|right].
        exists (S calls), (EnglishPrompt text type), raw.
        rewrite AgentFacts.refine_english_calls. repeat split; try done; lia.
    + destruct (refine_english_result calls text type)
        as [Ht|(raw & Hcall & Hne & Hr)]; [by left|right].
      exists calls, (EnglishPrompt text type), raw.
      rewrite AgentFacts.refine_english_calls. repeat split; try done; lia.
  - destruct (_ && _) eqn:Hb.
    + apply andb_true_iff in Hb as [_ Hl]. apply bool_decide_eq_true in Hl.
      destruct (call_llm calls (HebrewPrompt text type)) as [|result]; [by left|].
      destruct (truthy result && _); [by left|right].
      by rewrite AgentFacts.refine_english_calls.
    + left. apply AgentFacts.refine_english_calls.
  - intros Hl Hcall. by rewrite (Hheb Hl), Hcall.
  - intros Hl result Hcall Hblank. by rewrite (Hheb Hl), Hcall, Hblank.
Qed.

(** ** The turn a call records *)

Lemma process_turn_records now request plan_items role_profile w question_id item q :
  ¬ complete plan_items (resumed w) →
  turn_question plan_items w = Some (question_id, item, q) →
  ∃ turn state1 w3 context,
    process_turn now request plan_items role_profile w
    = _process_decision now (agent_analysis turn) question_id
        (question_index (resumed w)) (followup_count (resumed w))
        (previous_followups (resumed w)) plan_items state1
        (session_language (interview_session w)) w3
    ∧ interview_turns w3 = interview_turns w ++ [turn]
    ∧ question_bank w3 = question_bank w
    ∧ uuid_calls w3 = S (uuid_calls w)
    ∧ reasoning_calls w3 = S (reasoning_calls w)
    ∧ resumed w3 = resumed w
    ∧ core state1 = resumed w
    ∧ ended_at (interview_session w3) = ended_at (interview_session w)
    ∧ language (interview_session w3) = language (interview_session w)
    ∧ agent_analysis turn
      = default fallback_decision (reasoning_loop_run (reasoning_calls w) context)
    ∧ turn_id turn = uuid4 (uuid_calls w)
    ∧ turn_session_id turn = session_id request
    ∧ turn_index turn
      = Z.of_nat (length (List.filter
                            (λ t, bool_decide (turn_session_id t = session_id request))
                            (interview_turns w)))
    ∧ turn_question_id turn = qb_id q
    ∧ question_number turn = question_index (resumed w)
    ∧ is_followup turn = bool_decide (0 < followup_count (resumed w))%Z
    ∧ parent_turn_id turn
      = (if decide (0 < followup_count (resumed w))%Z
         then turn_id <$> _get_last_main_turn (session_id request) w
         else None)
    ∧ refined state1
      = {[ refined_key (question_index (resumed w)) := question_snapshot turn ]}
    ∧ (llm_calls w < llm_calls w3)%nat
    ∧ score_overall turn = satisfaction_score (agent_analysis turn).
Proof.
  intros Hnc Hq. unfold Agent.process_turn, turn_question, complete, resumed in *.
  assert (Href : ∀ k, refined (_load_state (interview_session w)) !! k = None)
    by (intros k; apply lookup_empty).
  assert (Hcore : core (_load_state (interview_session w))
                  = _load_state (interview_session w)) by reflexivity.
  set (st := _load_state (interview_session w)) in *. clearbody st.
  destruct (decide (_ ∧ _)) as [Hc|_]; [exfalso; apply Hnc; exact Hc|].
  destruct (current_plan_item _ _) as [plan_item|e]; [|done]. simpl.
  destruct (_ ≫= _) as [question|]; [|done]. simpl in Hq. injection Hq as <- <- <-.
  rewrite Href.
  assert (Hrefined : refined st = ∅).
  { apply map_eq. intros k. by rewrite Href, lookup_empty. }
  pose proof (AgentFacts.refine_calls call_llm (llm_calls w) (question_text question)
                (default "open" (item_type plan_item))
                (session_language (interview_session w))) as Hcalls.
  destruct (Agent._refine_and_translate _ _ _ _ _) as [text calls] eqn:Eref.
  simpl in Hcalls. cbv beta iota zeta.
  lazymatch goal with
  | |- context [Agent._process_decision _ _
                  (default _ (reasoning_loop_run _ ?ctx)) _ _ _ _ _ ?s1 _
                  (add_turn ?t ?w2)] =>
    exists t, s1, (add_turn t w2), ctx
  end.
  split; [reflexivity|]. repeat split; try done.
  simpl. by rewrite Hrefined.
Qed.

(** ** Hints, endings and missing questions *)

Lemma decision_hint now d question_id question_index followup_count
    previous_followups plan_items state language w :
  action d = "hint" →
  _process_decision now d question_id question_index followup_count
    previous_followups plan_items state language w
  = Ok (w,
        mkResponse (if truthy (message d) then default "" (message d)
                    else "Let me give you a hint.")
          None None false (question_index + 1)%Z (Z.of_nat (length plan_items))
          (Some "hint") None).
Proof. intros Ha. unfold Agent._process_decision. by rewrite Ha. Qed.

Lemma decision_end now d question_id question_index followup_count
    previous_followups plan_items state language w :
  action d = "end" →
  _process_decision now d question_id question_index followup_count
    previous_followups plan_items state language w
  = Ok (set_ended_at now w,
        mkResponse (if truthy (message d) then default "" (message d)
                    else "Thank you for your time today.")
          None None true (question_index + 1)%Z (Z.of_nat (length plan_items))
          (Some "end") None).
Proof. intros Ha. unfold Agent._process_decision. by rewrite Ha. Qed.

Lemma turn_question_frame plan_items w w' :
  resumed w' = resumed w → question_bank w' = question_bank w →
  turn_question plan_items w' = turn_question plan_items w.
Proof. unfold turn_question, resumed. by intros -> ->. Qed.

(** What a call has done when it comes to act on its decision: the question
    text is refined, the state is saved with the refined text under the key
    of the question, the reasoning loop has run and the turn is recorded. *)
Lemma process_turn_recorded now request plan_items role_profile w question_id item q :
  ¬ complete plan_items (resumed w) →
  turn_question plan_items w = Some (question_id, item, q) →
  ∃ turn context,
    let s := interview_session w in
    let refinement :=
      _refine_and_translate (llm_calls w) (question_text q)
        (default "open" (item_type item)) (session_language s) in
    let state1 :=
      set_refined (refined_key (question_index (resumed w))) refinement.1 (resumed w) in
    process_turn now request plan_items role_profile w
    = _process_decision now (agent_analysis turn) question_id
        (question_index (resumed w)) (followup_count (resumed w))
        (previous_followups (resumed w)) plan_items state1 (session_language s)
        (mkWorld (question_bank w) (interview_turns w ++ [turn])
           (mkSession (Some (dump state1)) (ended_at s) (language s) (persona s)
              (question_start_time s))
           refinement.2 (S (reasoning_calls w)) (S (uuid_calls w)))
    ∧ question_snapshot turn = refinement.1
    ∧ agent_analysis turn
      = default fallback_decision (reasoning_loop_run (reasoning_calls w) context).
Proof.
  intros Hnc Hq. unfold Agent.process_turn, turn_question, complete, resumed in *.
  assert (Href : ∀ k, refined (_load_state (interview_session w)) !! k = None)
    by (intros k; apply lookup_empty).
  set (st := _load_state (interview_session w)) in *. clearbody st.
  destruct (decide (_ ∧ _)) as [Hc|_]; [exfalso; apply Hnc; exact Hc|].
  destruct (current_plan_item _ _) as [plan_item|e]; [|done]. simpl.
  destruct (_ ≫= _) as [question|]; [|done]. simpl in Hq. injection Hq as <- <- <-.
  rewrite Href.
  destruct (Agent._refine_and_translate _ _ _ _ _) as [text calls] eqn:Eref.
  cbv beta iota zeta.
  lazymatch goal with
  | |- context [Agent._process_decision _ _
                  (default _ (reasoning_loop_run _ ?ctx)) _ _ _ _ _ _ _
                  (add_turn ?t _)] =>
    exists t, ctx
  end.
  split; [reflexivity|]. split; reflexivity.
Qed.

(** X20. On a hint the call refines the question text, saves the state
    with the refined text added under [refined_q_<index>] (so the LLM is
    called and [conversation_state_json] is rewritten), runs the reasoning
    loop and records the turn.  The five keys [_load_state] reads back have
    the values they had, and so have [ended_at], [language], [persona],
    [question_start_time] and the question bank.  The answer carries
    neither a follow-up nor a next question and is not done, and the next
    call is about the same question. *)
Theorem hint_stays_on_question now request plan_items role_profile w question_id item q :
  ¬ complete plan_items (resumed w) →
  turn_question plan_items w = Some (question_id, item, q) →
  (∀ context,
     action (default fallback_decision
               (reasoning_loop_run (reasoning_calls w) context)) = "hint") →
  ∃ w' resp turn,
    process_turn now request plan_items role_profile w = Ok (w', resp)
    ∧ interview_turns w' = interview_turns w ++ [turn]
    ∧ action (agent_analysis turn) = "hint"
    ∧ (question_snapshot turn, llm_calls w')
      = _refine_and_translate (llm_calls w) (question_text q)
          (default "open" (item_type item)) (session_language (interview_session w))
    ∧ conversation_state_json (interview_session w')
      = Some (dump (set_refined (refined_key (question_index (resumed w)))
                      (question_snapshot turn) (resumed w)))
    ∧ resumed w' = resumed w
    ∧ ended_at (interview_session w') = ended_at (interview_session w)
    ∧ language (interview_session w') = language (interview_session w)
    ∧ persona (interview_session w') = persona (interview_session w)
    ∧ question_start_time (interview_session w')
      = question_start_time (interview_session w)
    ∧ question_bank w' = question_bank w
    ∧ reasoning_calls w' = S (reasoning_calls w)
    ∧ uuid_calls w' = S (uuid_calls w)
    ∧ is_done resp = false
    ∧ next_question resp = None
    ∧ resp_followup_question resp = None
    ∧ agent_decision resp = Some "hint"
    ∧ turn_question plan_items w' = Some (question_id, item, q).
Proof.
  intros Hnc Hq Hhint.
  destruct (process_turn_recorded now request plan_items role_profile w _ _ _ Hnc Hq)
    as (turn & ctx & Hrun & Hsnap & Hd).
  cbv zeta in Hrun. specialize (Hhint ctx). rewrite <- Hd in Hhint.
  rewrite decision_hint in Hrun by done.
  eexists _, _, turn. split; [exact Hrun|].
  split; [reflexivity|]. split; [exact Hhint|].
  split; [rewrite Hsnap; cbn [llm_calls]; by destruct (_refine_and_translate _ _ _ _)|].
  split; [by rewrite Hsnap|].
  assert (Hres : ∀ turns calls r u,
            resumed (mkWorld (question_bank w) turns
                       (mkSession
                          (Some (dump (set_refined
                                         (refined_key (question_index (resumed w)))
                                         (question_snapshot turn) (resumed w))))
                          (ended_at (interview_session w))
                          (language (interview_session w))
                          (persona (interview_session w))
                          (question_start_time (interview_session w)))
                       calls r u)
            = resumed w) by reflexivity.
  rewrite <- Hsnap. split; [apply Hres|].
  do 11 (split; [reflexivity|]).
  rewrite <- Hq. by apply turn_question_frame.
Qed.

(** X21. On an end decision the call refines the question text, saves the
    state with the refined text added under [refined_q_<index>] (so the LLM
    is called and [conversation_state_json] is rewritten), runs the
    reasoning loop, records the turn and stamps [ended_at] with the time of
    the call; the answer is done.  The five keys [_load_state] reads back
    have the values they had, and so have [language], [persona],
    [question_start_time] and the question bank, so a further call would
    find the same question. *)
Theorem end_stamps_session now request plan_items role_profile w question_id item q :
  ¬ complete plan_items (resumed w) →
  turn_question plan_items w = Some (question_id, item, q) →
  (∀ context,
     action (default fallback_decision
               (reasoning_loop_run (reasoning_calls w) context)) = "end") →
  ∃ w' resp turn,
    process_turn now request plan_items role_profile w = Ok (w', resp)
    ∧ interview_turns w' = interview_turns w ++ [turn]
    ∧ action (agent_analysis turn) = "end"
    ∧ ended_at (interview_session w') = Some now
    ∧ (question_snapshot turn, llm_calls w')
      = _refine_and_translate (llm_calls w) (question_text q)
          (default "open" (item_type item)) (session_language (interview_session w))
    ∧ conversation_state_json (interview_session w')
      = Some (dump (set_refined (refined_key (question_index (resumed w)))
                      (question_snapshot turn) (resumed w)))
    ∧ resumed w' = resumed w
    ∧ language (interview_session w') = language (interview_session w)
    ∧ persona (interview_session w') = persona (interview_session w)
    ∧ question_start_time (interview_session w')
      = question_start_time (interview_session w)
    ∧ question_bank w' = question_bank w
    ∧ reasoning_calls w' = S (reasoning_calls w)
    ∧ uuid_calls w' = S (uuid_calls w)
    ∧ is_done resp = true
    ∧ next_question resp = None
    ∧ resp_followup_question resp = None
    ∧ agent_decision resp = Some "end"
    ∧ turn_question plan_items w' = Some (question_id, item, q).
Proof.
  intros Hnc Hq Hend.
  destruct (process_turn_recorded now request plan_items role_profile w _ _ _ Hnc Hq)
    as (turn & ctx & Hrun & Hsnap & Hd).
  cbv zeta in Hrun. specialize (Hend ctx). rewrite <- Hd in Hend.
  rewrite decision_end in Hrun by done.
  eexists _, _, turn. split; [exact Hrun|].
  split; [reflexivity|]. split; [exact Hend|]. split; [reflexivity|].
  split; [rewrite Hsnap; cbn [llm_calls set_ended_at with_session];
          by destruct (_refine_and_translate _ _ _ _)|].
  split; [by rewrite Hsnap|].
  assert (Hres : ∀ turns calls r u ended,
            resumed (mkWorld (question_bank w) turns
                       (mkSession
                          (Some (dump (set_refined
                                         (refined_key (question_index (resumed w)))
                                         (question_snapshot turn) (resumed w))))
                          ended
                          (language (interview_session w))
                          (persona (interview_session w))
                          (question_start_time (interview_session w)))
                       calls r u)
            = resumed w) by reflexivity.
  rewrite <- Hsnap. split; [apply Hres|].
  do 10 (split; [reflexivity|]).
  rewrite <- Hq. by apply turn_question_frame.
Qed.

Lemma current_plan_item_ok plan_items question_index :
  (- Z.of_nat (length plan_items) ≤ question_index)%Z →
  ∃ item, current_plan_item plan_items question_index = Ok item.
Proof.
  intros Hpos. unfold current_plan_item. destruct (decide _); [|eauto].
  apply AgentFacts.py_index_ok. lia.
Qed.

Lemma current_plan_item_raises plan_items question_index :
  (question_index < - Z.of_nat (length plan_items))%Z →
  current_plan_item plan_items question_index = Raise IndexError.
Proof.
  intros Hneg. unfold current_plan_item, py_index. cbv zeta.
  destruct (decide _) as [_|]; [|lia].
  destruct (question_index <? 0)%Z eqn:E; [|apply Z.ltb_ge in E; lia].
  destruct (question_index + _ <? 0)%Z eqn:E'; [done|apply Z.ltb_ge in E'; lia].
Qed.

Lemma process_turn_missing now request plan_items role_profile w :
  ¬ complete plan_items (resumed w) →
  (- Z.of_nat (length plan_items) ≤ question_index (resumed w))%Z →
  turn_question plan_items w = None →
  process_turn now request plan_items role_profile w
  = Ok (w, _error_response (question_index (resumed w)) (Z.of_nat (length plan_items))).
Proof.
  intros Hnc Hpos Hq.
  unfold Agent.process_turn, turn_question, complete, resumed in *.
  set (st := _load_state (interview_session w)) in *. clearbody st.
  destruct (decide (_ ∧ _)) as [Hc|_]; [exfalso; apply Hnc; exact Hc|].
  destruct (current_plan_item_ok plan_items (question_index st) Hpos) as [it Hit].
  rewrite Hit in *. simpl.
  destruct (_ ≫= _) as [question|]; [done|]. done.
Qed.

(** X22. When the question of the turn is not found in the bank, the call
    answers with the error response, marked done, and changes nothing: no
    turn is recorded, no capability is called, no state is stored, and
    [ended_at] is not stamped. *)
Theorem missing_question_changes_nothing now request plan_items role_profile w :
  ¬ complete plan_items (resumed w) →
  (- Z.of_nat (length plan_items) ≤ question_index (resumed w))%Z →
  turn_question plan_items w = None →
  ∃ resp,
    process_turn now request plan_items role_profile w = Ok (w, resp)
    ∧ is_done resp = true
    ∧ next_question resp = None
    ∧ resp_followup_question resp = None
    ∧ progress_turn_index resp = question_index (resumed w).
Proof.
  intros Hnc Hpos Hq. rewrite process_turn_missing by done. by eexists.
Qed.

(** X23. A call raises exactly when the stored question index is below
    [-len(plan_items)], where [plan_items[question_index]] is out of range;
    the exception is an [IndexError]. *)
Theorem process_turn_raises_iff now request plan_items role_profile w e :
  process_turn now request plan_items role_profile w = Raise e
  ↔ (question_index (resumed w) < - Z.of_nat (length plan_items))%Z ∧ e = IndexError.
Proof.
  split.
  - intros Hrun.
    destruct (decide (question_index (resumed w) < - Z.of_nat (length plan_items))%Z)
      as [Hneg|Hpos].
    + split; [done|].
      unfold Agent.process_turn in Hrun. fold (resumed w) in Hrun.
      destruct (decide (_ ∧ _)) as [[_ Hc]|_]; [lia|].
      rewrite current_plan_item_raises in Hrun by done. by injection Hrun as <-.
    + exfalso.
      destruct (decide (complete plan_items (resumed w))) as [Hc|Hnc].
      { destruct (AgentFacts.process_turn_complete RoleProfile AgentContext call_llm
                    build_context_from_request reasoning_loop_run uuid4
                    now request plan_items role_profile w Hc) as (resp & Hok & _).
        by rewrite Hok in Hrun. }
      destruct (turn_question plan_items w) as [[[question_id item] q]|] eqn:Hq.
      * destruct (AgentFacts.process_turn_total RoleProfile AgentContext call_llm
                    build_context_from_request reasoning_loop_run uuid4
                    now request plan_items role_profile w _ _ _ Hnc Hq)
          as (w' & resp & turn & Hok & _).
        by rewrite Hok in Hrun.
      * rewrite process_turn_missing in Hrun by (done || lia). done.
  - intros [Hneg ->]. unfold Agent.process_turn. fold (resumed w).
    destruct (decide (_ ∧ _)) as [[_ Hc]|_]; [lia|].
    by rewrite current_plan_item_raises.
Qed.

(** ** What a call leaves alone *)

Lemma get_next_frame next_index plan_items language state w w2 state2 data :
  _get_next_question_data next_index plan_items language state w = Ok (w2, state2, data) →
  question_bank w2 = question_bank w
  ∧ interview_turns w2 = interview_turns w
  ∧ Agent.language (interview_session w2) = Agent.language (interview_session w).
Proof.
  unfold Agent._get_next_question_data.
  destruct (decide _); [by intros [= <- <- <-]|].
  destruct (py_index _ _) as [item|e]; simpl; [|done].
  destruct (selected_question_id item ≫= _) as [next_question|];
    [|by intros [= <- <- <-]].
  destruct (refined state !! _); [by intros [= <- <- <-]|].
  destruct (Agent._refine_and_translate _ _ _ _ _) as [text calls].
  by intros [= <- <- <-].
Qed.

Lemma decision_frame now d question_id question_index followup_count
    previous_followups plan_items state language w w' resp :
  _process_decision now d question_id question_index followup_count
    previous_followups plan_items state language w = Ok (w', resp) →
  question_bank w' = question_bank w
  ∧ interview_turns w' = interview_turns w
  ∧ Agent.language (interview_session w') = Agent.language (interview_session w).
Proof.
  unfold Agent._process_decision.
  destruct (_ && _); [by intros [= <- <-]|].
  destruct (bool_decide (action d = "hint")); [by intros [= <- <-]|].
  destruct (bool_decide (action d = "end")); [by intros [= <- <-]|].
  destruct (Agent._get_next_question_data _ _ _ _ _ _) as [[[w2 state2] data]|e] eqn:E;
    simpl; [|done].
  apply get_next_frame in E as (Hbank & Hturns & Hlang). by intros [= <- <-].
Qed.

(** A call that returns leaves the question bank and the session language
    as they were, and records at most one turn, for the session of the
    request and numbered by the turns that session has. *)
Lemma process_turn_frame now request plan_items role_profile w w' resp :
  process_turn now request plan_items role_profile w = Ok (w', resp) →
  question_bank w' = question_bank w
  ∧ Agent.language (interview_session w') = Agent.language (interview_session w)
  ∧ (interview_turns w' = interview_turns w
     ∨ ∃ turn,
         interview_turns w' = interview_turns w ++ [turn]
         ∧ turn_session_id turn = session_id request
         ∧ turn_index turn
           = Z.of_nat (length (session_turns (session_id request) w))).
Proof.
  intros Hrun.
  destruct (decide (complete plan_items (resumed w))) as [Hc|Hnc].
  { destruct (AgentFacts.process_turn_complete RoleProfile AgentContext call_llm
                build_context_from_request reasoning_loop_run uuid4
                now request plan_items role_profile w Hc) as (resp' & Hok & _).
    rewrite Hok in Hrun. injection Hrun as <- <-. repeat split. by left. }
  destruct (turn_question plan_items w) as [[[question_id item] q]|] eqn:Hq.
  - destruct (process_turn_records now request plan_items role_profile w _ _ _ Hnc Hq)
      as (turn & state1 & w3 & ctx & Heq & Hturns & Hbank & _ & _ & _ & _ & _ & Hlang
          & _ & _ & Hsid & Hidx & _).
    rewrite Heq in Hrun. apply decision_frame in Hrun as (Hbank' & Hturns' & Hlang').
    split; [congruence|]. split; [congruence|]. right. exists turn.
    split; [congruence|]. done.
  - destruct (decide (- Z.of_nat (length plan_items) ≤ question_index (resumed w))%Z)
      as [Hpos|Hneg].
    + rewrite process_turn_missing in Hrun by done.
      injection Hrun as <- <-. repeat split. by left.
    + exfalso. unfold Agent.process_turn in Hrun. fold (resumed w) in Hrun.
      destruct (decide (_ ∧ _)) as [Hc|_]; [by apply Hnc|].
      rewrite current_plan_item_raises in Hrun by lia. done.
Qed.

(** ** Parents of follow-up turns *)

Lemma last_main_turn_spec session_id w :
  match _get_last_main_turn session_id w with
  | Some parent =>
    parent ∈ interview_turns w ∧ turn_session_id parent = session_id
    ∧ is_followup parent = false
    ∧ ∀ m, m ∈ interview_turns w → turn_session_id m = session_id →
           is_followup m = false → (turn_index m ≤ turn_index parent)%Z
  | None =>
    ∀ m, m ∈ interview_turns w → turn_session_id m = session_id → is_followup m = true
  end.
Proof.
  unfold _get_last_main_turn.
  set (rows := List.filter _ _).
  assert (Hrows : ∀ m, m ∈ rows ↔ m ∈ interview_turns w ∧ turn_session_id m = session_id
                                   ∧ is_followup m = false).
  { intros m. unfold rows.
    rewrite !list_elem_of_In, filter_In, andb_true_iff, bool_decide_eq_true,
      negb_true_iff. done. }
  pose proof (ReadinessFacts.head_sort_desc_by turn_index rows) as Hhead.
  destruct (head _) as [parent|].
  - destruct Hhead as [Hin Hmax]. apply Hrows in Hin as (Hin & Hsid & Hmain).
    repeat split; try done. intros m Hm Hs Hf. apply Hmax, Hrows. done.
  - intros m Hm Hs. destruct (is_followup m) eqn:E; [done|].
    assert (Hin : m ∈ rows) by by apply Hrows.
    rewrite Hhead in Hin. by apply elem_of_nil in Hin.
Qed.

(** X24. The turn a call records carries the session of the request, the
    question of the turn, the stored question index, an id from the uuid
    source and the score of the decision.  With a positive follow-up count
    it is marked as a follow-up and its parent is the session's main turn
    of greatest index, or none when the session has no main turn; otherwise
    it is a main turn without a parent. *)
Theorem recorded_turn_links_parent now request plan_items role_profile w
    question_id item q :
  ¬ complete plan_items (resumed w) →
  turn_question plan_items w = Some (question_id, item, q) →
  ∃ w' resp turn,
    process_turn now request plan_items role_profile w = Ok (w', resp)
    ∧ interview_turns w' = interview_turns w ++ [turn]
    ∧ turn_id turn = uuid4 (uuid_calls w)
    ∧ turn_session_id turn = session_id request
    ∧ turn_question_id turn = qb_id q
    ∧ question_number turn = question_index (resumed w)
    ∧ score_overall turn = satisfaction_score (agent_analysis turn)
    ∧ ((followup_count (resumed w) ≤ 0)%Z →
       is_followup turn = false ∧ parent_turn_id turn = None)
    ∧ ((0 < followup_count (resumed w))%Z →
       is_followup turn = true
       ∧ match parent_turn_id turn with
         | Some parent_id =>
           ∃ parent,
             parent ∈ interview_turns w ∧ turn_id parent = parent_id
             ∧ turn_session_id parent = session_id request
             ∧ is_followup parent = false
             ∧ ∀ m, m ∈ interview_turns w → turn_session_id m = session_id request →
                    is_followup m = false → (turn_index m ≤ turn_index parent)%Z
         | None =>
           ∀ m, m ∈ interview_turns w → turn_session_id m = session_id request →
                is_followup m = true
         end).
Proof.
  intros Hnc Hq. pose proof (AgentFacts.turn_question_range _ _ _ Hq) as Hrange.
  destruct (process_turn_records now request plan_items role_profile w _ _ _ Hnc Hq)
    as (turn & state1 & w3 & ctx & Heq & Hturns & _ & _ & _ & _ & _ & _ & _
        & _ & Hid & Hsid & _ & Hqid & Hnum & Hfu & Hparent & _ & _ & Hscore).
  edestruct (AgentFacts.decision_total call_llm) as (w' & resp & Hrun & Hturns2 & _);
    [|exists w', resp, turn; rewrite Heq; split; [exact Hrun|]]; [lia|].
  split; [congruence|]. split; [done|]. split; [done|]. split; [done|].
  split; [done|]. split; [done|]. split.
  - intros Hle. rewrite Hfu, Hparent.
    rewrite bool_decide_eq_false_2 by lia. by destruct (decide _); [lia|].
  - intros Hpos. rewrite Hfu, Hparent.
    rewrite bool_decide_eq_true_2 by done. split; [done|].
    destruct (decide _); [|lia].
    pose proof (last_main_turn_spec (session_id request) w) as Hspec.
    destruct (_get_last_main_turn (session_id request) w) as [parent|]; simpl;
      [|done].
    exists parent. by destruct Hspec as (? & ? & ? & ?).
Qed.

(** ** Follow-ups *)

Lemma turn_question_followup plan_items w w' question_id item q :
  turn_question plan_items w = Some (question_id, item, q) →
  question_bank w' = question_bank w →
  question_index (resumed w') = question_index (resumed w) →
  current_question_id (resumed w') = question_id →
  (0 < followup_count (resumed w'))%Z →
  turn_question plan_items w' = Some (question_id, item, q).
Proof.
  unfold turn_question. fold (resumed w) (resumed w').
  intros Hq Hbank Hqi Hid Hfc. rewrite Hqi, Hbank, Hid.
  destruct (current_plan_item _ _) as [it|e]; [|done].
  destruct (decide (0 < followup_count (resumed w'))%Z); [|lia].
  destruct (decide (0 < followup_count (resumed w))%Z).
  - destruct (current_question_id (resumed w) ≫= _) as [q0|] eqn:E; [|done].
    assert (question_id = current_question_id (resumed w) ∧ item = it ∧ q = q0)
      as (-> & -> & ->) by (injection Hq; intros; repeat split; symmetry; assumption).
    by rewrite E.
  - destruct (selected_question_id it ≫= _) as [q0|] eqn:E; [|done].
    assert (question_id = selected_question_id it ∧ item = it ∧ q = q0)
      as (-> & -> & ->) by (injection Hq; intros; repeat split; symmetry; assumption).
    by rewrite E.
Qed.

(** X25. After a follow-up the session stays on its question: the stored
    state names the question just asked, the next call finds the same
    question, and the turn it records is a follow-up turn for the same
    question number. *)
Theorem followup_returns_to_question now request plan_items role_profile w
    question_id item q :
  ¬ complete plan_items (resumed w) →
  turn_question plan_items w = Some (question_id, item, q) →
  (0 ≤ followup_count (resumed w))%Z →
  (∀ context,
     action (default fallback_decision
               (reasoning_loop_run (reasoning_calls w) context)) = "followup"
     ∧ truthy (followup_question
                 (default fallback_decision
                    (reasoning_loop_run (reasoning_calls w) context))) = true) →
  ∃ w' resp turn,
    process_turn now request plan_items role_profile w = Ok (w', resp)
    ∧ interview_turns w' = interview_turns w ++ [turn]
    ∧ current_question_id (resumed w') = question_id
    ∧ turn_question plan_items w' = Some (question_id, item, q)
    ∧ ∀ now2 request2,
        ∃ w2 resp2 turn2,
          process_turn now2 request2 plan_items role_profile w' = Ok (w2, resp2)
          ∧ interview_turns w2 = interview_turns w' ++ [turn2]
          ∧ is_followup turn2 = true
          ∧ turn_question_id turn2 = qb_id q
          ∧ question_number turn2 = question_number turn.
Proof.
  intros Hnc Hq Hfc Hfollow.
  pose proof (AgentFacts.turn_question_range _ _ _ Hq) as Hrange.
  destruct (process_turn_records now request plan_items role_profile w _ _ _ Hnc Hq)
    as (turn & state1 & w3 & ctx & Heq & Hturns & Hbank & _ & _ & _ & Hcore & _ & _
        & Hd & _ & _ & _ & _ & Hnum & _).
  destruct (Hfollow ctx) as [Ha Ht]. rewrite <- Hd in Ha, Ht.
  destruct (followup_question (agent_analysis turn)) as [text|] eqn:Hf; [|done].
  assert (Hne : text ≠ EmptyString) by (by intros ->).
  destruct (AgentFacts.decision_followup call_llm now (agent_analysis turn) question_id
              (question_index (resumed w)) (followup_count (resumed w))
              (previous_followups (resumed w)) plan_items state1
              (session_language (interview_session w)) w3 text Ha Hf Hne)
    as (resp & Hrun & _).
  set (w' := _save_state _ w3) in Hrun.
  assert (Hqi : question_index (resumed w') = question_index (resumed w)).
  { rewrite <- Hcore. reflexivity. }
  assert (Hfc' : followup_count (resumed w') = (followup_count (resumed w) + 1)%Z)
    by reflexivity.
  assert (Hq' : turn_question plan_items w' = Some (question_id, item, q)).
  { apply (turn_question_followup plan_items w); try done. lia. }
  assert (Hnc' : ¬ complete plan_items (resumed w')) by (intros [Hz _]; lia).
  exists w', resp, turn. rewrite Heq. split; [exact Hrun|]. split; [done|].
  split; [done|]. split; [done|]. intros now2 request2.
  destruct (process_turn_records now2 request2 plan_items role_profile w' _ _ _ Hnc' Hq')
    as (turn2 & state2 & w4 & ctx2 & Heq2 & Hturns2 & _ & _ & _ & _ & _ & _ & _
        & _ & _ & _ & _ & Hqid & Hnum2 & Hfu & _).
  edestruct (AgentFacts.decision_total call_llm) as (w2 & resp2 & Hrun2 & Hturns2' & _);
    [|exists w2, resp2, turn2; rewrite Heq2; split; [exact Hrun2|]]; [lia|].
  split; [congruence|]. split; [|split; [done|congruence]].
  rewrite Hfu. apply bool_decide_eq_true. lia.
Qed.

(** ** The next question *)

Lemma refined_key_inj i j : refined_key i = refined_key j → i = j.
Proof. unfold refined_key. intros E. by apply String.app_inj, pretty_Z_inj in E. Qed.

Lemma py_index_lookup {A : Type} (l : list A) (i : Z) x :
  (0 ≤ i)%Z → l !! Z.to_nat i = Some x → py_index l i = Ok x.
Proof.
  intros Hi Hl. unfold py_index. cbv zeta.
  destruct (i <? 0)%Z eqn:E; [apply Z.ltb_lt in E; lia|]. by rewrite E, Hl.
Qed.

(** X26. What an advance answers with.  Past the last plan item the answer
    is done and carries no question.  Otherwise it is not done; it carries
    the question of the next plan item, its text refined by a new LLM call
    and its type defaulting to ["open"], when the bank holds that question,
    and no question when it does not. *)
Theorem advance_offers_next_question now request plan_items role_profile w
    question_id item q :
  ¬ complete plan_items (resumed w) →
  turn_question plan_items w = Some (question_id, item, q) →
  (∀ context,
     is_advance (default fallback_decision
                   (reasoning_loop_run (reasoning_calls w) context))) →
  ∃ w' resp,
    process_turn now request plan_items role_profile w = Ok (w', resp)
    ∧ resp_followup_question resp = None
    ∧ (Z.of_nat (length plan_items) ≤ question_index (resumed w) + 1 →
       is_done resp = true ∧ next_question resp = None)%Z
    ∧ ∀ next_item,
        (0 ≤ question_index (resumed w) + 1)%Z →
        plan_items !! Z.to_nat (question_index (resumed w) + 1) = Some next_item →
        is_done resp = false
        ∧ match selected_question_id next_item ≫= (λ k, question_bank w !! k) with
          | None => next_question resp = None
          | Some next =>
            ∃ calls,
              (llm_calls w < calls)%nat
              ∧ next_question resp
                = Some (mkNextQuestion (qb_id next)
                          (_refine_and_translate calls (question_text next)
                             (default "open" (item_type next_item))
                             (session_language (interview_session w))).1
                          (default "open" (item_type next_item)) (qb_topics next))
          end.
Proof.
  intros Hnc Hq Hadv.
  pose proof (AgentFacts.turn_question_range _ _ _ Hq) as Hrange.
  destruct (process_turn_records now request plan_items role_profile w _ _ _ Hnc Hq)
    as (turn & state1 & w3 & ctx & Heq & _ & Hbank & _ & _ & _ & _ & _ & _
        & Hd & _ & _ & _ & _ & _ & _ & _ & Hrefined & Hcalls & _).
  specialize (Hadv ctx). rewrite <- Hd in Hadv. destruct Hadv as (Hf & Hh & He).
  rewrite Heq. unfold Agent._process_decision.
  destruct (bool_decide (action (agent_analysis turn) = "followup")
            && truthy (followup_question (agent_analysis turn))) eqn:E.
  { apply andb_true_iff in E as [E1 E2]. apply bool_decide_eq_true in E1.
    rewrite (Hf E1) in E2. done. }
  rewrite (bool_decide_eq_false_2 _ Hh), (bool_decide_eq_false_2 _ He).
  set (qi := question_index (resumed w)) in *. clearbody qi.
  unfold Agent._get_next_question_data.
  destruct (decide (Z.of_nat (length plan_items) ≤ qi + 1)%Z) as [Hlast|Hmore].
  - simpl. eexists _, _. split; [reflexivity|]. simpl. split; [done|]. split.
    + intros _. by rewrite bool_decide_eq_true_2.
    + intros next_item Hpos Hl. apply lookup_lt_Some in Hl. lia.
  - destruct (AgentFacts.py_index_ok plan_items (qi + 1)) as [next_item Hidx]; [lia|].
    rewrite Hidx. simpl.
    assert (Hsame : ∀ it, (0 ≤ qi + 1)%Z → plan_items !! Z.to_nat (qi + 1) = Some it →
                          it = next_item).
    { intros it Hpos Hl. apply (py_index_lookup _ _ _ Hpos) in Hl. congruence. }
    rewrite Hbank.
    destruct (selected_question_id next_item ≫= _) as [next|] eqn:Enext.
    + rewrite Hrefined, lookup_singleton_ne
        by (intros Hk; apply refined_key_inj in Hk; lia).
      destruct (Agent._refine_and_translate _ _ _ _ _) as [text calls] eqn:Eref.
      simpl. eexists _, _. split; [reflexivity|]. simpl. split; [done|]. split; [lia|].
      intros it Hpos Hl. rewrite (Hsame it Hpos Hl), Enext.
      split; [by rewrite bool_decide_eq_false_2|].
      exists (llm_calls w3). split; [done|]. simpl in Eref. by rewrite Eref.
    + simpl. eexists _, _. split; [reflexivity|]. simpl. split; [done|]. split; [lia|].
      intros it Hpos Hl. rewrite (Hsame it Hpos Hl), Enext.
      by rewrite bool_decide_eq_false_2.
Qed.

(** ** Sessions *)

Lemma session_turns_snoc sid w w' turn :
  interview_turns w' = interview_turns w ++ [turn] →
  session_turns sid w'
  = session_turns sid w ++ (if decide (turn_session_id turn = sid) then [turn] else []).
Proof.
  unfold session_turns. intros ->. rewrite List.filter_app. simpl.
  destruct (decide _) as [E|E];
    [by rewrite bool_decide_eq_true_2|by rewrite bool_decide_eq_false_2].
Qed.

Lemma process_turn_numbered now request plan_items role_profile w w' resp sid :
  process_turn now request plan_items role_profile w = Ok (w', resp) →
  well_indexed sid w → well_indexed sid w'.
Proof.
  intros Hrun Hw.
  apply process_turn_frame in Hrun as (_ & _ & [Hsame|(turn & Hturns & Hsid & Hidx)]).
  - unfold well_indexed, session_turns in *. by rewrite Hsame.
  - unfold well_indexed in *. rewrite (session_turns_snoc sid w w' turn Hturns).
    destruct (decide _) as [E|_]; [|by rewrite app_nil_r].
    rewrite fmap_app, length_app, Hw. simpl.
    rewrite Nat.add_1_r, seq_S, fmap_app. simpl. rewrite Hidx, <- Hsid, E. done.
Qed.

(** X27. Over any sequence of calls that return, there is one answer per
    call, the question bank is never written, at most one turn is recorded
    per call, and the turns of each session stay numbered 0, 1, 2, ... in
    the order recorded. *)
Theorem run_keeps_turns_numbered requests plan_items role_profile : ∀ w w' responses,
  run_turns RoleProfile AgentContext call_llm build_context_from_request
    reasoning_loop_run uuid4 requests plan_items role_profile w = Ok (w', responses) →
  length responses = length requests
  ∧ question_bank w' = question_bank w
  ∧ (length (interview_turns w) ≤ length (interview_turns w')
     ≤ length (interview_turns w) + length requests)%nat
  ∧ ∀ sid, well_indexed sid w → well_indexed sid w'.
Proof.
  induction requests as [|[now request] requests IH]; intros w w' responses Hrun;
    simpl in Hrun.
  - injection Hrun as <- <-. simpl. repeat split; try done; lia.
  - destruct (Agent.process_turn _ _ _ _ _ _ _ _ _ _ _) as [[w1 response]|e] eqn:E1;
      simpl in Hrun; [|done].
    destruct (run_turns _ _ _ _ _ _ _ _ _ _) as [[w2 responses']|e] eqn:E2;
      simpl in Hrun; [|done].
    injection Hrun as <- <-.
    destruct (IH _ _ _ E2) as (Hlen & Hbank & Hturns & Hidx).
    pose proof (process_turn_frame _ _ _ _ _ _ _ E1) as (Hbank1 & _ & Hturns1).
    split; [simpl; lia|]. split; [congruence|]. split.
    + destruct Hturns1 as [Hsame|(turn & Happ & _)].
      * rewrite Hsame in Hturns. simpl. lia.
      * rewrite Happ, length_app in Hturns. simpl in *. lia.
    + intros sid Hw. apply Hidx. by eapply process_turn_numbered.
Qed.

Lemma turn_question_main plan_items w :
  plan_in_bank plan_items w →
  followup_count (resumed w) = 0%Z →
  (0 ≤ question_index (resumed w) < Z.of_nat (length plan_items))%Z →
  ∃ question_id item q, turn_question plan_items w = Some (question_id, item, q).
Proof.
  intros Hbank Hfc Hqi. unfold turn_question, current_plan_item. fold (resumed w).
  destruct (decide _) as [_|]; [|lia].
  destruct (py_index plan_items (question_index (resumed w))) as [item|e] eqn:Eidx.
  2:{ destruct (AgentFacts.py_index_ok plan_items (question_index (resumed w)))
        as [x Hx]; [lia|congruence]. }
  assert (Hin : item ∈ plan_items).
  { unfold py_index in Eidx.
    destruct (_ <? 0)%Z; [done|]. destruct (plan_items !! _) eqn:El; [|done].
    injection Eidx as <-. by eapply list_elem_of_lookup_2. }
  destruct (Hbank item Hin) as (k & q & Hk & Hq).
  rewrite Hfc. destruct (decide (0 < 0)%Z); [lia|].
  rewrite Hk. simpl. rewrite Hq. simpl. eauto.
Qed.

(** X28. A session whose plan names questions of the bank and whose every
    decision is an advance is over after one call per remaining plan item:
    each call returns and records a turn for its plan item, only the last
    answer is done, and the state reached is the one for which the next
    call reports completion.  [ended_at] is not stamped by these calls. *)
Theorem advancing_session_completes plan_items role_profile : ∀ requests w,
  plan_in_bank plan_items w →
  (∀ calls context,
     is_advance (default fallback_decision (reasoning_loop_run calls context))) →
  followup_count (resumed w) = 0%Z →
  (0 ≤ question_index (resumed w))%Z →
  (question_index (resumed w) + Z.of_nat (length requests)
   = Z.of_nat (length plan_items))%Z →
  ∃ w' responses,
    run_turns RoleProfile AgentContext call_llm build_context_from_request
      reasoning_loop_run uuid4 requests plan_items role_profile w = Ok (w', responses)
    ∧ complete plan_items (resumed w')
    ∧ question_index (resumed w') = Z.of_nat (length plan_items)
    ∧ (∃ turns,
         interview_turns w' = interview_turns w ++ turns
         ∧ question_number <$> turns
           = (λ i, question_index (resumed w) + Z.of_nat i)%Z
               <$> seq 0 (length requests))
    ∧ is_done <$> responses
      = (λ i, bool_decide (S i = length requests)) <$> seq 0 (length requests)
    ∧ ended_at (interview_session w') = ended_at (interview_session w).
Proof.
  induction requests as [|[now request] requests IH];
    intros w Hbank Hadv Hfc Hqi Hlen; cbn [length run_turns] in *.
  - exists w, []. split; [done|]. split; [split; [done|lia]|]. split; [lia|].
    split; [exists []; by rewrite app_nil_r|]. done.
  - destruct (turn_question_main plan_items w Hbank Hfc) as (qid & item & q & Hq);
      [lia|].
    assert (Hnc : ¬ complete plan_items (resumed w)) by (intros [_ Hle]; lia).
    destruct (process_turn_records now request plan_items role_profile w _ _ _ Hnc Hq)
      as (turn & state1 & w3 & ctx & Heq & Hturns & Hbank3 & _ & _ & _ & _ & Hend3 & _
          & Hd & _ & _ & _ & _ & Hnum & _).
    destruct (AgentFacts.decision_advance call_llm now (agent_analysis turn) qid
                (question_index (resumed w)) (followup_count (resumed w))
                (previous_followups (resumed w)) plan_items state1
                (session_language (interview_session w)) w3)
      as (w1 & resp & Hrun & Hres & Hturns1 & Hend1 & Hdone & _);
      [rewrite Hd; apply Hadv|lia|].
    pose proof (decision_frame _ _ _ _ _ _ _ _ _ _ _ _ Hrun) as (Hbank1 & _ & _).
    assert (Hqi1 : question_index (resumed w1) = (question_index (resumed w) + 1)%Z)
      by (by rewrite Hres).
    assert (Hfc1 : followup_count (resumed w1) = 0%Z) by (by rewrite Hres).
    clear Hres. rewrite Heq, Hrun. cbn [mbind result_bind].
    destruct (IH w1) as (w' & responses & -> & Hc & Hidx & (turns & Happ & Hnums)
                         & Hdones & Hend');
      [intros it Hit; destruct (Hbank it Hit) as (k & q' & ? & ?); exists k, q';
       by rewrite Hbank1, Hbank3
      |done|done|lia|lia|].
    cbn [mbind result_bind]. exists w', (resp :: responses).
    split; [done|]. split; [done|]. split; [lia|]. split; [|split].
    + exists (turn :: turns). split.
      * by rewrite Happ, Hturns1, Hturns, <- app_assoc.
      * rewrite fmap_cons, Hnum, Hnums. cbn [seq]. rewrite fmap_cons.
        f_equal; [lia|].
        rewrite <- fmap_S_seq, <- list_fmap_compose. apply list_fmap_ext.
        intros i x _. cbv [compose]. rewrite Hqi1. lia.
    + rewrite fmap_cons, Hdone, Hdones. cbn [seq]. rewrite fmap_cons. f_equal.
      * apply bool_decide_ext. lia.
      * rewrite <- fmap_S_seq, <- list_fmap_compose. apply list_fmap_ext.
        intros i x _. cbv [compose]. apply bool_decide_ext. lia.
    + congruence.
Qed.

End AgentMore.

Lemma refinement_outcomes_witness :
  _refine_and_translate AgentMoreExamples.hebrew_down 0 "Explain hashing." "open" "Hebrew"
  = ("Explain hashing.", 1%nat).
Proof. apply refinement_outcomes; reflexivity. Defined.

Lemma hint_stays_on_question_witness :
  ∃ w' resp turn,
    AgentExamples.run AgentMoreExamples.gives_hint 10 AgentExamples.fresh = Ok (w', resp)
    ∧ interview_turns w' = [turn]
    ∧ js_refined <$> conversation_state_json (interview_session w')
      = Some {[ "refined_q_0" := question_snapshot turn ]}
    ∧ resumed w' = resumed AgentExamples.fresh
    ∧ is_done resp = false
    ∧ next_question resp = None.
Proof.
  destruct (hint_stays_on_question unit unit AgentExamples.numbered_llm
              AgentExamples.no_context AgentMoreExamples.gives_hint AgentExamples.ids
              10 AgentExamples.request AgentExamples.plan tt AgentExamples.fresh
              (Some "open:1") (mkPlanItem (Some "open:1") (Some "open"))
              (mkQuestion "open:1" "Explain hashing." ["hashing"]))
    as (w' & resp & turn & Hrun & Hturns & _ & _ & Hjson & Hres & _ & _ & _ & _ & _
        & _ & _ & Hdone & Hnext & _).
  - vm_compute. intros [_ Hle]. by apply Hle.
  - reflexivity.
  - reflexivity.
  - exists w', resp, turn. rewrite Hjson. by repeat split.
Defined.

Lemma end_stamps_session_witness :
  ∃ w' resp turn,
    AgentExamples.run AgentMoreExamples.ends_interview 10 AgentExamples.fresh
    = Ok (w', resp)
    ∧ interview_turns w' = [turn]
    ∧ ended_at (interview_session w') = Some 10%Z
    ∧ js_refined <$> conversation_state_json (interview_session w')
      = Some {[ "refined_q_0" := question_snapshot turn ]}
    ∧ is_done resp = true
    ∧ resumed w' = resumed AgentExamples.fresh.
Proof.
  destruct (end_stamps_session unit unit AgentExamples.numbered_llm
              AgentExamples.no_context AgentMoreExamples.ends_interview AgentExamples.ids
              10 AgentExamples.request AgentExamples.plan tt AgentExamples.fresh
              (Some "open:1") (mkPlanItem (Some "open:1") (Some "open"))
              (mkQuestion "open:1" "Explain hashing." ["hashing"]))
    as (w' & resp & turn & Hrun & Hturns & _ & Hend & _ & Hjson & Hres & _ & _ & _
        & _ & _ & _ & Hdone & _).
  - vm_compute. intros [_ Hle]. by apply Hle.
  - reflexivity.
  - reflexivity.
  - exists w', resp, turn. rewrite Hjson. by repeat split.
Defined.

Lemma missing_question_changes_nothing_witness :
  ∃ resp,
    process_turn unit unit AgentExamples.numbered_llm AgentExamples.no_context
      AgentExamples.always_fails AgentExamples.ids 10 AgentExamples.request
      AgentMoreExamples.unknown_plan tt AgentExamples.fresh
    = Ok (AgentExamples.fresh, resp)
    ∧ is_done resp = true
    ∧ next_question resp = None
    ∧ resp_followup_question resp = None
    ∧ progress_turn_index resp = question_index (resumed AgentExamples.fresh).
Proof.
  apply (missing_question_changes_nothing unit unit AgentExamples.numbered_llm
           AgentExamples.no_context AgentExamples.always_fails AgentExamples.ids).
  - vm_compute. intros [_ Hle]. by apply Hle.
  - by vm_compute.
  - reflexivity.
Defined.

Lemma process_turn_raises_iff_witness :
  process_turn unit unit AgentExamples.numbered_llm AgentExamples.no_context
    AgentExamples.always_fails AgentExamples.ids 10 AgentExamples.request
    AgentExamples.plan tt AgentMoreExamples.negative_index
  = Raise IndexError.
Proof.
  apply (process_turn_raises_iff unit unit AgentExamples.numbered_llm
           AgentExamples.no_context AgentExamples.always_fails AgentExamples.ids).
  split; [by vm_compute|done].
Defined.

Lemma run_keeps_turns_numbered_witness :
  ∃ w' responses,
    run_turns unit unit AgentExamples.numbered_llm AgentExamples.no_context
      AgentExamples.asks_followup AgentExamples.ids
      [(10%Z, AgentExamples.request); (20%Z, AgentExamples.request)]
      AgentExamples.plan tt AgentExamples.fresh = Ok (w', responses)
    ∧ length responses = 2%nat
    ∧ well_indexed "s" w'.
Proof.
  destruct (run_turns unit unit AgentExamples.numbered_llm AgentExamples.no_context
              AgentExamples.asks_followup AgentExamples.ids
              [(10%Z, AgentExamples.request); (20%Z, AgentExamples.request)]
              AgentExamples.plan tt AgentExamples.fresh)
    as [[w' responses]|e] eqn:E; [|by vm_compute in E].
  exists w', responses. split; [done|].
  destruct (run_keeps_turns_numbered unit unit AgentExamples.numbered_llm
              AgentExamples.no_context AgentExamples.asks_followup AgentExamples.ids
              _ _ _ _ _ _ E) as (Hlen & _ & _ & Hidx).
  split; [exact Hlen|]. by apply Hidx.
Defined.

Lemma advancing_session_completes_witness :
  ∃ w' responses,
    run_turns unit unit AgentExamples.numbered_llm AgentExamples.no_context
      AgentExamples.always_fails AgentExamples.ids
      [(10%Z, AgentExamples.request); (20%Z, AgentExamples.request)]
      AgentMoreExamples.two_item_plan tt AgentMoreExamples.fresh_two
    = Ok (w', responses)
    ∧ complete AgentMoreExamples.two_item_plan (resumed w')
    ∧ is_done <$> responses = [false; true]
    ∧ ended_at (interview_session w') = None.
Proof.
  destruct (advancing_session_completes unit unit AgentExamples.numbered_llm
              AgentExamples.no_context AgentExamples.always_fails AgentExamples.ids
              AgentMoreExamples.two_item_plan tt
              [(10%Z, AgentExamples.request); (20%Z, AgentExamples.request)]
              AgentMoreExamples.fresh_two)
    as (w' & responses & Hrun & Hc & _ & _ & Hdone & Hend).
  - intros item Hitem.
    apply elem_of_cons in Hitem as [->|Hitem];
      [by exists "open:1", (mkQuestion "open:1" "Explain hashing." ["hashing"])|].
    apply list_elem_of_singleton in Hitem as ->.
    by exists "code:2", (mkQuestion "code:2" "Reverse a list." ["lists"]).
  - intros calls []. split; [|split]; vm_compute; discriminate.
  - reflexivity.
  - by vm_compute.
  - reflexivity.
  - by exists w', responses.
Defined.

Lemma followup_returns_to_question_witness :
  ∃ w' resp turn,
    AgentExamples.run AgentExamples.asks_followup 10 AgentExamples.fresh = Ok (w', resp)
    ∧ interview_turns w' = [turn]
    ∧ current_question_id (resumed w') = Some "open:1"
    ∧ ∃ w2 resp2 turn2,
        AgentExamples.run AgentExamples.asks_followup 20 w' = Ok (w2, resp2)
        ∧ interview_turns w2 = [turn; turn2]
        ∧ is_followup turn2 = true.
Proof.
  destruct (followup_returns_to_question unit unit AgentExamples.numbered_llm
              AgentExamples.no_context AgentExamples.asks_followup AgentExamples.ids
              10 AgentExamples.request AgentExamples.plan tt AgentExamples.fresh
              (Some "open:1") (mkPlanItem (Some "open:1") (Some "open"))
              (mkQuestion "open:1" "Explain hashing." ["hashing"]))
    as (w' & resp & turn & Hrun & Hturns & Hid & _ & Hnext).
  - vm_compute. intros [_ Hle]. by apply Hle.
  - reflexivity.
  - by vm_compute.
  - intros []. by split.
  - exists w', resp, turn. split; [exact Hrun|]. split; [exact Hturns|].
    split; [exact Hid|].
    destruct (Hnext 20%Z AgentExamples.request)
      as (w2 & resp2 & turn2 & Hrun2 & Hturns2 & Hfu & _).
    exists w2, resp2, turn2. split; [exact Hrun2|]. split; [|exact Hfu].
    by rewrite Hturns2, Hturns.
Defined.

Lemma advance_offers_next_question_witness :
  ∃ w' resp,
    process_turn unit unit AgentExamples.numbered_llm AgentExamples.no_context
      AgentExamples.always_fails AgentExamples.ids 10 AgentExamples.request
      AgentMoreExamples.two_item_plan tt AgentMoreExamples.fresh_two = Ok (w', resp)
    ∧ is_done resp = false
    ∧ nq_question_id <$> next_question resp = Some "code:2"
    ∧ nq_type <$> next_question resp = Some "open".
Proof.
  destruct (advance_offers_next_question unit unit AgentExamples.numbered_llm
              AgentExamples.no_context AgentExamples.always_fails AgentExamples.ids
              10 AgentExamples.request AgentMoreExamples.two_item_plan tt
              AgentMoreExamples.fresh_two
              (Some "open:1") (mkPlanItem (Some "open:1") (Some "open"))
              (mkQuestion "open:1" "Explain hashing." ["hashing"]))
    as (w' & resp & Hrun & _ & _ & Hnext).
  - vm_compute. intros [_ Hle]. by apply Hle.
  - reflexivity.
  - intros []. split; [|split]; vm_compute; discriminate.
  - exists w', resp. split; [exact Hrun|].
    destruct (Hnext (mkPlanItem (Some "code:2") None)) as [Hdone Hq];
      [by vm_compute|reflexivity|].
    split; [exact Hdone|].
    change (∃ calls, (0 < calls)%nat
                     ∧ next_question resp
                       = Some (mkNextQuestion "code:2"
                                 (_refine_and_translate AgentExamples.numbered_llm calls
                                    "Reverse a list." "open" "english").1
                                 "open" ["lists"])) in Hq.
    destruct Hq as (calls & _ & ->). done.
Defined.

Lemma recorded_turn_links_parent_witness :
  ∃ w2 resp2 turn2,
    AgentExamples.run AgentExamples.asks_followup 20
      (AgentExamples.after AgentExamples.asks_followup 10 AgentExamples.fresh)
    = Ok (w2, resp2)
    ∧ turn_id turn2 = "turn-1"
    ∧ turn_question_id turn2 = "open:1"
    ∧ is_followup turn2 = true.
Proof.
  destruct (recorded_turn_links_parent unit unit AgentExamples.numbered_llm
              AgentExamples.no_context AgentExamples.asks_followup AgentExamples.ids
              20 AgentExamples.request AgentExamples.plan tt
              (AgentExamples.after AgentExamples.asks_followup 10 AgentExamples.fresh)
              (Some "open:1") (mkPlanItem (Some "open:1") (Some "open"))
              (mkQuestion "open:1" "Explain hashing." ["hashing"]))
    as (w2 & resp2 & turn2 & Hrun & _ & Hid & _ & Hqid & _ & _ & _ & Hfollow).
  - vm_compute. intros [Hz _]. discriminate.
  - reflexivity.
  - exists w2, resp2, turn2. split; [exact Hrun|]. split; [exact Hid|].
    split; [exact Hqid|]. by apply Hfollow.
Defined.

End AgentMore.
